(** * searchMode.js: the song-request handler of the Telegram bot

    A shallow embedding of [lib/searchMode.js] and the properties of its
    resolution pipeline.

    Text.  A JavaScript string is a sequence of UTF-16 code units: a list of
    numbers here, [js "..."] being the string of an ASCII literal.  [\w] is
    [A-Za-z0-9_]; [\s] is the white space and the line terminators of
    ECMAScript; [.] is every code unit but the four line terminators.  The
    source file holds, where a dash or a bullet is meant in a pattern, the
    characters U+201A U+00C4 U+00EC (for an en dash), U+201A U+00C4 U+00EE
    (for an em dash) and U+201A U+00C4 U+00A2 (for a bullet); the patterns
    are taken as the file has them.

    Values.  [null] and [undefined] are [None]; a value that is a string when
    present is an [option (list N)].  The title of an Archive.org document is
    a [JsonValue]: the search returns a string for it, but also an array (a
    document with several titles) or a number.

    Paths.  The handler runs on a POSIX system (it fetches the Linux build
    of the tool and sets its mode); [path.join] is [path.posix.join]. *)

From Stdlib Require Import ZArith QArith String Ascii List Bool Lia.
From stdpp Require Import base option gmap strings pretty.

Import ListNotations.
Local Open Scope bool_scope.
Local Open Scope list_scope.

(** ** Code units and character classes *)

(** A string of JavaScript. *)
Abbreviation jsstring := (list N).

(** The string of an ASCII literal. *)
Fixpoint js (s : string) : jsstring :=
  match s with
  | EmptyString => []
  | String c s' => N_of_ascii c :: js s'
  end.

Module Chars.

Definition between (lo hi c : N) : bool := (lo <=? c)%N && (c <=? hi)%N.

Definition isDigit (c : N) : bool := between 48 57 c.
Definition isUpper (c : N) : bool := between 65 90 c.
Definition isLower (c : N) : bool := between 97 122 c.

(** [\w] *)
Definition isWordChar (c : N) : bool :=
  isDigit c || isUpper c || isLower c || (c =? 95)%N.

(** [\s]: TAB, LF, VT, FF, CR, SPACE, NBSP, U+1680, U+2000..U+200A, U+2028,
    U+2029, U+202F, U+205F, U+3000, U+FEFF *)
Definition isSpaceChar (c : N) : bool :=
  between 9 13 c || (c =? 32)%N || (c =? 160)%N || (c =? 5760)%N ||
  between 8192 8202 c || (c =? 8232)%N || (c =? 8233)%N || (c =? 8239)%N ||
  (c =? 8287)%N || (c =? 12288)%N || (c =? 65279)%N.

(** [.] without the [s] flag: not LF, CR, U+2028, U+2029 *)
Definition isDotChar (c : N) : bool :=
  negb ((c =? 10)%N || (c =? 13)%N || (c =? 8232)%N || (c =? 8233)%N).

(** The lower case of a code unit, as far as word characters and white
    space go.  [A-Z] move up by 32; U+0130 (capital I with dot above) becomes
    [i] and a combining dot; U+212A (the Kelvin sign) becomes [k].  No other
    code unit has a word character or white space in its lower case that it
    is not itself: it stands here for its lower case, which the one use of
    [toLowerCase] in the source deletes right away when the unit is neither
    word character nor white space. *)
Definition toLowerUnit (c : N) : jsstring :=
  if isUpper c then [(c + 32)%N]
  else if (c =? 304)%N then [105; 775]%N
  else if (c =? 8490)%N then [107%N]
  else [c].

(** The capitals U+00C0..U+00DE and the small letters U+00E0..U+00FE of
    Latin-1, without the multiplication and the division sign. *)
Definition isLatinUpper (c : N) : bool := between 192 222 c && negb (c =? 215)%N.
Definition isLatinLower (c : N) : bool := between 224 254 c && negb (c =? 247)%N.

(** Whether the code unit [c] matches the pattern character [p], with or
    without the [i] flag.  The pattern characters of the source are ASCII
    or among U+201A, U+00C4, U+00EC, U+00EE, U+00A2: under the [i] flag the
    canonicalization of ECMAScript identifies such a letter with its other
    case and with nothing else (no code unit above 127 is identified with
    one below). *)
Definition eqChar (ignoreCase : bool) (p c : N) : bool :=
  (c =? p)%N ||
  (ignoreCase &&
   (((isUpper p || isLatinUpper p) && (c =? p + 32)%N) ||
    ((isLower p || isLatinLower p) && (c =? p - 32)%N))).

End Chars.

(** ** Strings *)

Module Str.

Import Chars.

Definition isEmpty (s : jsstring) : bool :=
  match s with [] => true | _ :: _ => false end.

Fixpoint startsWith (s t : jsstring) : bool :=
  match t, s with
  | [], _ => true
  | b :: t', a :: s' => (a =? b)%N && startsWith s' t'
  | _ :: _, [] => false
  end.

(** [s.includes(t)] *)
Fixpoint includes (s t : jsstring) : bool :=
  startsWith s t ||
  match s with
  | [] => false
  | _ :: s' => includes s' t
  end.

(** [s.toLowerCase()], see [toLowerUnit] *)
Definition toLowerCase (s : jsstring) : jsstring := flat_map toLowerUnit s.

Fixpoint dropWhile (p : N -> bool) (s : jsstring) : jsstring :=
  match s with
  | [] => []
  | c :: s' => if p c then dropWhile p s' else s
  end.

(** [s.trim()] *)
Definition trim (s : jsstring) : jsstring :=
  rev (dropWhile isSpaceChar (rev (dropWhile isSpaceChar s))).

(** Truthiness of a value that is a string, [null] or [undefined]. *)
Definition truthy (v : option jsstring) : bool :=
  match v with
  | Some s => negb (isEmpty s)
  | None => false
  end.

(** [a || b] on such values, as far as a later use tells them apart: the
    result is [a] when [a] is truthy and [b] otherwise. *)
Definition or_else (a b : option jsstring) : option jsstring :=
  if truthy a then a else b.

(** The value of a string that is known to be present. *)
Definition get (v : option jsstring) : jsstring := default [] v.

(** Whether a code unit is one of the characters of an ASCII literal. *)
Definition among (set : string) (c : N) : bool :=
  existsb (fun p => (c =? p)%N) (js set).

End Str.

(** [s.split(sep)] for a separator of one code unit; [piece] holds the
    current piece in reverse. *)
Fixpoint splitOnChar (sep : N) (piece : jsstring) (s : jsstring) : list jsstring :=
  match s with
  | [] => [rev piece]
  | c :: s' =>
      if (c =? sep)%N
      then rev piece :: splitOnChar sep [] s'
      else splitOnChar sep (c :: piece) s'
  end.

(** [parts.join(sep)] *)
Fixpoint joinWith (sep : jsstring) (parts : list jsstring) : jsstring :=
  match parts with
  | [] => []
  | [part] => part
  | part :: parts' => part ++ sep ++ joinWith sep parts'
  end.

(** ** Regular expressions

    The patterns of the source, with the matching order of ECMAScript: a
    backtracking matcher that tries the alternatives of [|] left to right,
    the iterations of a greedy quantifier longest first and those of a lazy
    one shortest first, and takes the first way that lets the rest of the
    pattern succeed. *)

Module Regex.

Import Chars.

Inductive regex : Type :=
| Eps
| Class (p : N -> bool)                 (* one code unit satisfying [p] *)
| Seq (r1 r2 : regex)
| Alt (r1 r2 : regex)
| Star (greedy : bool) (r : regex)      (* [r*] and [r*?] *)
| Group (i : nat) (r : regex)           (* the [i]th capturing group *)
| Bol                                   (* [^] *)
| Eol.                                  (* [$] *)

(** The captures of a match, latest first. *)
Definition captures : Type := list (nat * jsstring).

Fixpoint capture (i : nat) (c : captures) : option jsstring :=
  match c with
  | [] => None
  | (j, s) :: c' => if Nat.eqb i j then Some s else capture i c'
  end.

(** The first of two attempts that succeeds; the second is only made when
    the first fails. *)
Notation "a 'otherwise' b" :=
  (match a with Some x => Some x | None => b end)
  (at level 70, no associativity, only parsing).

(** [run r pos s c k]: match [r] at offset [pos] of the subject, [s] being
    what is left of the subject from there, then hand the new offset, the
    rest and the captures to the continuation [k].  An iteration of a
    quantifier that consumes nothing is refused, as in ECMAScript. *)
Fixpoint run {R : Type} (r : regex) (pos : nat) (s : jsstring) (c : captures)
    (k : nat -> jsstring -> captures -> option R) {struct r} : option R :=
  match r with
  | Eps => k pos s c
  | Class p =>
      match s with
      | a :: s' => if p a then k (S pos) s' c else None
      | [] => None
      end
  | Seq r1 r2 => run r1 pos s c (fun pos' s' c' => run r2 pos' s' c' k)
  | Alt r1 r2 => (run r1 pos s c k) otherwise (run r2 pos s c k)
  | Star greedy r' =>
      (fix iterate (n : nat) (pos : nat) (s : jsstring) (c : captures) : option R :=
         match n with
         | O => k pos s c
         | S n' =>
             let more (_ : unit) :=
               run r' pos s c
                 (fun pos' s' c' =>
                    if Nat.ltb pos pos' then iterate n' pos' s' c' else None) in
             if greedy then (more tt) otherwise (k pos s c)
             else (k pos s c) otherwise (more tt)
         end) (S (length s)) pos s c
  | Group i r' =>
      run r' pos s c
        (fun pos' s' c' => k pos' s' ((i, firstn (pos' - pos) s) :: c'))
  | Bol => if Nat.eqb pos 0 then k pos s c else None
  | Eol => match s with [] => k pos s c | _ :: _ => None end
  end.

(** A match: where it starts, where it ends, what it captured. *)
Record found : Type := Found { m_start : nat; m_end : nat; m_caps : captures }.

(** The match of [r] that starts at offset [pos] exactly. *)
Definition matchAt (r : regex) (pos : nat) (s : jsstring) : option found :=
  run r pos s [] (fun pos' _ c => Some (Found pos pos' c)).

(** The leftmost match at or after offset [pos] ([s] is the subject from
    [pos] on). *)
Fixpoint execFrom (r : regex) (pos : nat) (s : jsstring) : option found :=
  (matchAt r pos s) otherwise
    (match s with
     | [] => None
     | _ :: s' => execFrom r (S pos) s'
     end).

(** [s.match(r)] for a pattern without the [g] flag. *)
Definition exec (r : regex) (s : jsstring) : option found := execFrom r 0 s.

(** Truthiness of [s.match(r)]. *)
Definition test (r : regex) (s : jsstring) : bool :=
  match exec r s with Some _ => true | None => false end.

(** [s.replace(r, rep)] for a pattern without the [g] flag; [rep] builds the
    replacement from the captures. *)
Definition replace (r : regex) (rep : captures -> jsstring) (s : jsstring)
    : jsstring :=
  match exec r s with
  | None => s
  | Some m => firstn (m_start m) s ++ rep (m_caps m) ++ skipn (m_end m) s
  end.

(** [s.replace(r, rep)] for a pattern with the [g] flag.  [pos] is the offset
    of [s] in the subject; after an empty match the scan moves one code unit
    on. *)
Fixpoint replaceAllFrom (fuel : nat) (r : regex) (rep : jsstring) (pos : nat)
    (s : jsstring) : jsstring :=
  match fuel with
  | O => s
  | S fuel' =>
      match execFrom r pos s with
      | None => s
      | Some m =>
          let before := firstn (m_start m - pos) s in
          if Nat.ltb (m_start m) (m_end m)
          then before ++ rep ++
               replaceAllFrom fuel' r rep (m_end m) (skipn (m_end m - pos) s)
          else match skipn (m_start m - pos) s with
               | [] => before ++ rep
               | a :: s' =>
                   before ++ rep ++
                   a :: replaceAllFrom fuel' r rep (S (m_start m)) s'
               end
      end
  end.

Definition replaceAll (r : regex) (rep : jsstring) (s : jsstring) : jsstring :=
  replaceAllFrom (S (length s)) r rep 0 s.

(** [s.split(r)] for a pattern without capturing groups: [p] is where the
    current piece starts, [q >= p] where the separator is looked for, [piece]
    the code units from [p] to [q] in reverse and [s] the subject from [q]
    on.  A separator match that ends at [p] is skipped. *)
Fixpoint splitFrom (fuel : nat) (r : regex) (p q : nat) (piece : jsstring)
    (s : jsstring) : list jsstring :=
  match fuel with
  | O => [rev piece ++ s]
  | S fuel' =>
      match s with
      | [] => [rev piece]
      | a :: s' =>
          match matchAt r q s with
          | Some m =>
              if Nat.eqb (m_end m) p
              then splitFrom fuel' r p (S q) (a :: piece) s'
              else rev piece ::
                   splitFrom fuel' r (m_end m) (m_end m) []
                     (skipn (m_end m - q) s)
          | None => splitFrom fuel' r p (S q) (a :: piece) s'
          end
      end
  end.

Definition split (r : regex) (s : jsstring) : list jsstring :=
  match s with
  | [] => match matchAt r 0 s with Some _ => [] | None => [s] end
  | _ :: _ => splitFrom (S (length s)) r 0 0 [] s
  end.

(** *** Pattern combinators *)

Definition chr (ignoreCase : bool) (p : N) : regex :=
  Class (eqChar ignoreCase p).

(** A literal run of ASCII pattern characters. *)
Fixpoint lit (ignoreCase : bool) (t : string) : regex :=
  match t with
  | EmptyString => Eps
  | String p EmptyString => chr ignoreCase (N_of_ascii p)
  | String p t' => Seq (chr ignoreCase (N_of_ascii p)) (lit ignoreCase t')
  end.

(** [[...]] over the ASCII characters [t] and the code units [others] *)
Definition anyOf (ignoreCase : bool) (t : string) (others : list N) : regex :=
  Class (fun c => existsb (fun p => eqChar ignoreCase p c) (js t ++ others)).

(** [[...]] and [[^...]] over ASCII characters that are no letters *)
Definition oneOf (t : string) : regex := Class (Str.among t).
Definition noneOf (t : string) : regex := Class (fun c => negb (Str.among t c)).

Definition dot : regex := Class isDotChar.
Definition opt (r : regex) : regex := Alt r Eps.                  (* [r?] *)
Definition plus (r : regex) : regex := Seq r (Star true r).       (* [r+] *)
Definition plusLazy (r : regex) : regex := Seq r (Star false r).  (* [r+?] *)

Fixpoint seqs (rs : list regex) : regex :=
  match rs with
  | [] => Eps
  | [r] => r
  | r :: rs' => Seq r (seqs rs')
  end.

Fixpoint alts (rs : list regex) : regex :=
  match rs with
  | [] => Class (fun _ => false)
  | [r] => r
  | r :: rs' => Alt r (alts rs')
  end.

End Regex.

(** A call that returns or throws, a promise that resolves or rejects. *)
Inductive Res (A : Type) : Type :=
| Ok (a : A)
| Err (message : jsstring).
Arguments Ok {A} a.
Arguments Err {A} message.

(** ** The pure helpers of searchMode.js *)

Import Regex.

(** [/[^\w\s]/g] replaced by the empty string: every code unit that is
    neither a word character nor white space is deleted. *)
Definition isWordOrSpace (c : N) : bool :=
  Chars.isWordChar c || Chars.isSpaceChar c.

Definition stripNonWord (s : jsstring) : jsstring := List.filter isWordOrSpace s.

(** [s.toLowerCase().replace(/[^\w\s]/g, '')] *)
Definition cleanTitle (s : jsstring) : jsstring := stripNonWord (Str.toLowerCase s).

(** [/[\(\[]?feat\.?.*?[\)\]]/gi] and the same with [ft] *)
Definition featRegex (word : string) : regex :=
  seqs [opt (oneOf "(["); lit true word; opt (lit false ".");
        Star false dot; oneOf ")]"].

Definition cleanQuery (text : jsstring) : jsstring :=
  Str.trim
    (replaceAll (plus (Class Chars.isSpaceChar)) (js " ")
       (replaceAll (featRegex "ft") []
          (replaceAll (featRegex "feat") []
             (replaceAll (lit false "-") (js " ") text)))).

(** [isStrictMatch(resultTitle, targetTrackName, targetArtist = null)].
    The result title comes from a JSON document and may be missing. *)
Definition isStrictMatch (resultTitle : option jsstring) (targetTrackName : jsstring)
    (targetArtist : option jsstring) : bool :=
  match resultTitle with
  | None => false
  | Some resultTitle =>
      if Str.isEmpty resultTitle || Str.isEmpty targetTrackName then false
      else
        let cleanResult := cleanTitle resultTitle in
        let cleanTarget := cleanTitle targetTrackName in
        let trackMatches := Str.includes cleanResult cleanTarget in
        if Str.truthy targetArtist && (length cleanTarget <=? 3)%nat then
          let cleanArtist := cleanTitle (Str.get targetArtist) in
          let artistMatches := Str.includes cleanResult cleanArtist in
          trackMatches && artistMatches
        else if Str.truthy targetArtist && trackMatches then
          let cleanArtist := cleanTitle (Str.get targetArtist) in
          let artistMatches := Str.includes cleanResult cleanArtist in
          artistMatches || (3 <? length cleanTarget)%nat
        else trackMatches
  end.

(** A value of a JSON answer, as far as the handler tells values apart: the
    content of an array or of an object is never read. *)
Inductive JsonValue : Type :=
| JsonString (s : jsstring)
| JsonNumber (q : Q)
| JsonBool (b : bool)
| JsonNull                              (* [null], or the property is missing *)
| JsonArray
| JsonObject.

(** Truthiness of a value. *)
Definition jsTruthy (v : JsonValue) : bool :=
  match v with
  | JsonString s => negb (Str.isEmpty s)
  | JsonNumber q => negb (Qeq_bool q 0)
  | JsonBool b => b
  | JsonNull => false
  | JsonArray => true
  | JsonObject => true
  end.

(** The value as a string, when it is one. *)
Definition asString (v : JsonValue) : option jsstring :=
  match v with
  | JsonString s => Some s
  | _ => None
  end.

(** [isStrictMatch(resultTitle, targetTrackName)] on a title that is any
    value.  The guard returns [false] on a falsy title and on an empty track
    name; after it, [resultTitle.toLowerCase()] is a TypeError on a value
    that is no string. *)
Definition isStrictMatchValue (resultTitle : JsonValue) (targetTrackName : jsstring)
    : Res bool :=
  if negb (jsTruthy resultTitle) || Str.isEmpty targetTrackName then Ok false
  else
    match resultTitle with
    | JsonString s => Ok (isStrictMatch (Some s) targetTrackName None)
    | _ => Err (js "resultTitle.toLowerCase is not a function")
    end.

(** ** The world around the handler

    The handler talks to the chat transport, to web services, to the yt-dlp
    binary, to the muxer and to the file system.  The file system and the
    process-wide Spotify token cache are state; every other collaborator is
    an oracle of the [World], asked with the time of the call (the number of
    calls made so far), so that it may answer differently each time.
    [console.*] and the logger are not modelled: they return nothing and the
    handler never reads them back.

    A web service answers with what the handler reads of its JSON; an answer
    whose shape makes the handler throw into its own [catch] is an [Err], as
    a failed request is.  The title of an Archive.org document is the
    exception: it is given as the value it is, and the relevance check
    throws on it or not.  The synchronous file operations succeed.  A tool
    that writes a file writes the one it was given as output, nothing
    else.

    Every call settles: the promise resolves or rejects, the callback is
    called.  The tool and the requests to the catalogs are started without a
    timeout; a run in which one of them never settles waits for ever and
    has no final state.  What is said below of a run is said of a run that
    comes to an end. *)

(** The texts sent with [bot.sendMessage], one constructor per template. *)
Inductive Reply : Type :=
| NonMusicLink                          (* "Non-music links aren't supported..." *)
| LinkTypeUnsupported (linkType : jsstring) (* "Album/Playlist links aren't supported..." *)
| ReadingLinkMetadata                   (* "Reading link metadata..." *)
| SongSpotted                           (* "Song Spotted!" *)
| AmazonLinkUnreadable                  (* "Amazon Music links are tricky to read..." *)
| LinkUnreadable                        (* "Couldn't read link metadata..." *)
| ProcessingLink                        (* "Processing Link..." *)
| ProcessingYouTubeLink                 (* "Processing YouTube Link..." *)
| NoMatchFound                          (* "No match found..." *)
| FoundDownloading (videoTitle : option jsstring) (* "Found: ${videoTitle} Downloading..." *)
| Merging                               (* "Merging..." *)
| Uploading                             (* "Uploading..." *)
| ErrorReply (message : jsstring).        (* "Error: ${error.message}" *)

(** The calls to the collaborators, as the trace records them. *)
Inductive Call : Type :=
| SendMessage (chatId : Z) (reply : Reply)
| SendVideo (chatId : Z) (path : jsstring) (videoTitle : option jsstring)
| FetchPage (url : jsstring)                      (* axios.get(text) on a DSP link *)
| DownloadFile (url path : jsstring)              (* downloadFile(url, filepath) *)
| SpotifyTokenRequest (clientId clientSecret : jsstring)
| SpotifySearch (token query : jsstring)
| DeezerCoverSearch (query : jsstring)            (* the search of getDeezerCover *)
| DeezerTrackSearch (query : jsstring)            (* the search of downloadFromDeezer *)
| ArchiveSearch (query : jsstring)
| ExecFile (binaryPath : jsstring) (args : list jsstring)
| StartAnimation (chatId messageId : Z)
| StopAnimation
| MergeAudioImage (imagePath audioPath outputPath : jsstring).

(** What [JSON.parse] of yt-dlp's dump gives, as far as it is read. *)
Record YtDump : Type := {
  d_title : option jsstring;
  d_webpage_url : option jsstring;
  d_url : option jsstring;
  d_duration : option Q;
  d_extractor : option jsstring }.

(** What the callback of [execFile] receives, and the file that the tool
    left at its [--output] path, if any. *)
Record ExecResult : Type := {
  ex_error : option jsstring;       (* [error.message] when [error] is set *)
  ex_stdout : jsstring;
  ex_stderr : jsstring;
  ex_output : option jsstring }.

(** A hit of the Deezer search API. *)
Record DeezerTrack : Type := {
  dz_id : Z;
  dz_title : jsstring;
  dz_artist_name : jsstring;
  dz_duration : option Q;
  dz_cover_big : option jsstring }.

(** A hit of the Spotify search API: [track.album.images[i].url] and
    [track.artists[i].name]. *)
Record SpotifyTrack : Type := {
  sp_images : list (option jsstring);
  sp_artists : list (option jsstring) }.

(** A document of the Archive.org search. *)
Record ArchiveDoc : Type := {
  doc_identifier : jsstring;
  doc_title : JsonValue }.

(** How [downloadFile] ends.  [fs.createWriteStream] opens the file in the
    background and the response is piped into it.  When the promise resolves
    the file holds the response.  When it rejects, the file holds what had
    reached it if the stream had opened it by then ([written]), and is as it
    was, there or not, if the stream had not. *)
Inductive Download : Type :=
| Finished (content : jsstring)
| Failed (message : jsstring) (written : option jsstring).

Record SpotifyTokenResponse : Type := {
  access_token : option jsstring;
  expires_in : Z }.

Record World : Type := {
  (* configuration *)
  DEEZER_ARL : option jsstring;
  SPOTIFY_CLIENT_ID : option jsstring;
  SPOTIFY_CLIENT_SECRET : option jsstring;
  PROXY_URL : option jsstring;
  tmpdir : jsstring;                               (* os.tmpdir() *)
  ffmpegDir : jsstring;                            (* path.dirname(ffmpegPath) *)
  (* library functions taken as given *)
  he_decode : jsstring -> jsstring;
  JSON_parse : jsstring -> option YtDump;          (* [None]: it throws *)
  (* collaborators; the first argument is the time of the call *)
  Date_now : nat -> Z;
  Math_random : nat -> nat;
  bot_sendMessage : nat -> Z -> Reply -> Res Z;  (* the message id *)
  bot_sendVideo : nat -> Z -> jsstring -> option jsstring -> Res unit;
  axios_page : nat -> jsstring -> Res jsstring;
  axios_stream : nat -> jsstring -> Download;
  spotify_token : nat -> jsstring -> jsstring -> Res SpotifyTokenResponse;
  spotify_search : nat -> jsstring -> jsstring -> Res (list SpotifyTrack);
  deezer_search : nat -> jsstring -> Res (list DeezerTrack);
  archive_search : nat -> jsstring -> Res (list ArchiveDoc);
  execFile : nat -> jsstring -> list jsstring -> ExecResult;
  startAnimation : nat -> Z -> Z -> Res unit;
  mergeAudioImage : nat -> jsstring -> jsstring -> jsstring -> option jsstring * Res unit }.

Record State : Type := {
  files : gmap jsstring jsstring;          (* the files by path, with their content *)
  spotifyTokenCache : option jsstring;
  spotifyTokenExpiry : Z;
  calls : list Call;                   (* the calls made, oldest first *)
  clock : nat }.

Definition setFiles (f : gmap jsstring jsstring) (st : State) : State :=
  {| files := f; spotifyTokenCache := spotifyTokenCache st;
     spotifyTokenExpiry := spotifyTokenExpiry st;
     calls := calls st; clock := clock st |}.

Definition setToken (token : option jsstring) (expiry : Z) (st : State) : State :=
  {| files := files st; spotifyTokenCache := token;
     spotifyTokenExpiry := expiry;
     calls := calls st; clock := clock st |}.

Definition tick (st : State) : State :=
  {| files := files st; spotifyTokenCache := spotifyTokenCache st;
     spotifyTokenExpiry := spotifyTokenExpiry st;
     calls := calls st; clock := S (clock st) |}.

Definition recordCall (c : Call) (st : State) : State :=
  {| files := files st; spotifyTokenCache := spotifyTokenCache st;
     spotifyTokenExpiry := spotifyTokenExpiry st;
     calls := (calls st ++ [c])%list; clock := S (clock st) |}.

(** ** The monad of the handler: state, exceptions and [return] *)

Inductive Outcome (A : Type) : Type :=
| Normal (a : A)            (* the statement completed with a value *)
| Exit                      (* a [return;] of handleSearchMode was executed *)
| Thrown (message : jsstring). (* an exception is propagating *)
Arguments Normal {A} a.
Arguments Exit {A}.
Arguments Thrown {A} message.

Definition M (A : Type) : Type := State -> Outcome A * State.

Definition ret {A : Type} (a : A) : M A := fun st => (Normal a, st).

Definition bind {A B : Type} (m : M A) (f : A -> M B) : M B :=
  fun st =>
    match m st with
    | (Normal a, st') => f a st'
    | (Exit, st') => (Exit, st')
    | (Thrown e, st') => (Thrown e, st')
    end.

Definition exit {A : Type} : M A := fun st => (Exit, st).
Definition throw {A : Type} (message : jsstring) : M A :=
  fun st => (Thrown message, st).

(** [try { m } catch (e) { h e }] *)
Definition tryCatch {A : Type} (m : M A) (h : jsstring -> M A) : M A :=
  fun st =>
    match m st with
    | (Thrown e, st') => h e st'
    | r => r
    end.

(** The body of the function: a [return;] ends it normally. *)
Definition functionBody (m : M unit) : M unit :=
  fun st =>
    match m st with
    | (Exit, st') => (Normal tt, st')
    | r => r
    end.

Declare Scope js_scope.
Delimit Scope js_scope with run.
Notation "x <- m ;; k" := (bind m (fun x => k))
  (at level 100, m at next level, right associativity) : js_scope.
Notation "m ;;; k" := (bind m (fun _ => k))
  (at level 100, right associativity) : js_scope.
Local Open Scope js_scope.

(** A call to a collaborator: it is recorded, the clock moves on, and the
    oracle's answer at the time of the call comes back.  The call settles;
    one that never does is not a call of the model. *)
Definition call {A : Type} (c : Call) (answer : nat -> A) : M A :=
  fun st => (Normal (answer (clock st)), recordCall c st).

(** Reading a clock or a random number: not recorded, but time moves on. *)
Definition ask {A : Type} (answer : nat -> A) : M A :=
  fun st => (Normal (answer (clock st)), tick st).

(** [await] of a promise that may reject. *)
Definition await {A : Type} (m : M (Res A)) : M A :=
  r <- m;;
  match r with
  | Ok a => ret a
  | Err e => throw e
  end.

(** *** The file system *)

Definition existsSync (path : jsstring) : M bool :=
  fun st => (Normal (bool_decide (is_Some (files st !! path))), st).

Definition writeFileSync (path content : jsstring) : M unit :=
  fun st => (Normal tt, setFiles (<[path := content]> (files st)) st).

Definition unlinkSync (path : jsstring) : M unit :=
  fun st => (Normal tt, setFiles (delete path (files st)) st).

(** [fs.existsSync(p) && fs.statSync(p).size > 0] *)
Definition existsNonEmpty (path : jsstring) : M bool :=
  fun st =>
    (Normal match files st !! path with
            | Some content => negb (Str.isEmpty content)
            | None => false
            end, st).

(** [if (fs.existsSync(p)) fs.unlinkSync(p);] *)
Definition unlinkIfExists (path : jsstring) : M unit :=
  present <- existsSync path;;
  if present then unlinkSync path else ret tt.

(** *** The token cache: [spotifyTokenCache] and [spotifyTokenExpiry] *)

Definition readTokenCache : M (option jsstring * Z) :=
  fun st => (Normal (spotifyTokenCache st, spotifyTokenExpiry st), st).

Definition writeTokenCache (token : option jsstring) (expiry : Z) : M unit :=
  fun st => (Normal tt, setToken token expiry st).

(** *** Paths: [path.normalize] and [path.join] of POSIX *)

Module Path.

(** The segments of the normal form, from the segments between the
    separators of a path: an empty segment and [.] are dropped; [..] takes
    back the segment before it, and is kept when there is none to take back
    and the path is relative ([allowAboveRoot]).  [kept] holds the segments
    kept so far, the last one first. *)
Fixpoint normalizeSegments (allowAboveRoot : bool) (kept segments : list jsstring)
    : list jsstring :=
  match segments with
  | [] => rev kept
  | segment :: segments' =>
      if Str.isEmpty segment || bool_decide (segment = js ".")
      then normalizeSegments allowAboveRoot kept segments'
      else if bool_decide (segment = js "..") then
        match kept with
        | previous :: kept' =>
            if bool_decide (previous = js "..")
            then normalizeSegments allowAboveRoot
                   (if allowAboveRoot then segment :: kept else kept) segments'
            else normalizeSegments allowAboveRoot kept' segments'
        | [] =>
            normalizeSegments allowAboveRoot
              (if allowAboveRoot then [segment] else []) segments'
        end
      else normalizeSegments allowAboveRoot (segment :: kept) segments'
  end.

(** [path.normalize(path)] *)
Definition normalize (path : jsstring) : jsstring :=
  match path with
  | [] => js "."
  | first :: _ =>
      let isAbsolute := (first =? 47)%N in
      let trailingSeparator := (List.last path 0 =? 47)%N in
      let normalized :=
        joinWith (js "/")
          (normalizeSegments (negb isAbsolute) [] (splitOnChar 47 [] path)) in
      if Str.isEmpty normalized then
        if isAbsolute then js "/"
        else if trailingSeparator then js "./" else js "."
      else
        (if isAbsolute then js "/" else []) ++ normalized ++
        (if trailingSeparator then js "/" else [])
  end.

End Path.

(** [path.join(dir, name)]: the arguments that are not empty, with a
    separator between them, in normal form. *)
Definition path_join (dir name : jsstring) : jsstring :=
  Path.normalize
    (if Str.isEmpty dir then name
     else if Str.isEmpty name then dir
     else dir ++ js "/" ++ name).

(** ** The helpers of searchMode.js *)

Definition YTDLP_URL : jsstring :=
  (js "https://github.com/yt-dlp/yt-dlp/releases/latest/download/yt-dlp_linux").
Definition YTDLP_FILENAME : jsstring := js "yt-dlp_linux_new".

Definition USER_AGENT : jsstring :=
  (js "Mozilla/5.0 (Windows NT 10.0; Win64; x64) AppleWebKit/537.36 (KHTML, like Gecko) Chrome/91.0.4472.124 Safari/537.36").

(** [{title, url, duration, extractor}], the result of every audio source. *)
Record Metadata : Type := {
  title : option jsstring;
  url : option jsstring;
  duration : option Q;
  extractor : option jsstring }.

(** Truthiness of a number that may be missing. *)
Definition truthyNumber (v : option Q) : bool :=
  match v with
  | Some q => negb (Qeq_bool q 0)
  | None => false
  end.

Definition number_or_else (a b : option Q) : option Q :=
  if truthyNumber a then a else b.

(** [downloadFile(url, filepath)]: the request is made, the response is piped
    into the write stream, and the promise settles. *)
Definition downloadFile (w : World) (url filepath : jsstring) : M unit :=
  r <- call (DownloadFile url filepath) (fun t => axios_stream w t url);;
  match r with
  | Finished content => writeFileSync filepath content
  | Failed message written =>
      match written with
      | Some content => writeFileSync filepath content
      | None => ret tt
      end;;;
      throw message
  end.

(** [ensureYtDlp(tmpDir)]; [chmodSync] leaves the content as it is. *)
Definition ensureYtDlp (w : World) (tmpDir : jsstring) : M jsstring :=
  let binaryPath := path_join tmpDir YTDLP_FILENAME in
  present <- existsSync binaryPath;;
  (if present then ret tt else downloadFile w YTDLP_URL binaryPath);;;
  ret binaryPath.

(** [getDeezerCover(query)] *)
Definition getDeezerCover (w : World) (query : jsstring) : M (option jsstring) :=
  r <- call (DeezerCoverSearch query) (fun t => deezer_search w t query);;
  ret match r with
      | Ok (track :: _) => dz_cover_big track
      | Ok [] => None
      | Err _ => None
      end.

(** [getSpotifyToken()] *)
Definition requestSpotifyToken (w : World) (clientId clientSecret : jsstring)
    : M (option jsstring) :=
  r <- call (SpotifyTokenRequest clientId clientSecret)
            (fun t => spotify_token w t clientId clientSecret);;
  match r with
  | Ok response =>
      now <- ask (Date_now w);;
      writeTokenCache (access_token response)
                      (now + expires_in response * 1000 - 60000);;;
      ret (access_token response)
  | Err _ => ret None
  end.

Definition getSpotifyToken (w : World) : M (option jsstring) :=
  if negb (Str.truthy (SPOTIFY_CLIENT_ID w)) ||
     negb (Str.truthy (SPOTIFY_CLIENT_SECRET w))
  then ret None
  else
    let clientId := Str.get (SPOTIFY_CLIENT_ID w) in
    let clientSecret := Str.get (SPOTIFY_CLIENT_SECRET w) in
    cached <- readTokenCache;;
    if Str.truthy (fst cached) then
      now <- ask (Date_now w);;
      if (now <? snd cached)%Z then ret (fst cached)
      else requestSpotifyToken w clientId clientSecret
    else requestSpotifyToken w clientId clientSecret.

(** [getSpotifyCover(trackName, artistName)]; the [console.log] of the hit
    reads [track.artists[0].name], which throws into the [catch] when the
    track has no artist. *)
Definition getSpotifyCover (w : World) (trackName : jsstring)
    (artistName : option jsstring) : M (option jsstring) :=
  token <- getSpotifyToken w;;
  if negb (Str.truthy token) then ret None
  else
    let query :=
      if Str.truthy artistName
      then js "track:" ++ trackName ++ js " artist:" ++ Str.get artistName
      else trackName in
    r <- call (SpotifySearch (Str.get token) query)
              (fun t => spotify_search w t (Str.get token) query);;
    ret match r with
        | Ok (track :: _) =>
            let coverUrl :=
              match sp_images track with
              | image :: _ => image
              | [] => None
              end in
            if Str.truthy coverUrl
            then match sp_artists track with
                 | _ :: _ => coverUrl
                 | [] => None
                 end
            else None
        | Ok [] => None
        | Err _ => None
        end.

(** The result of [searchArchiveOrg]. *)
Record ArchiveHit : Type := {
  hit_title : option jsstring;
  hit_url : jsstring;
  hit_extractor : jsstring }.

(** The hit that [searchArchiveOrg] builds from a document; the title of a
    document that passed the check is a string. *)
Definition archiveHit (doc : ArchiveDoc) : ArchiveHit :=
  {| hit_title := asString (doc_title doc);
     hit_url := js "https://archive.org/details/" ++ doc_identifier doc;
     hit_extractor := js "archive.org" |}.

(** The [for] loop: the first document whose title passes the check, [null]
    after the last one; the loop ends with the exception when the check
    throws. *)
Fixpoint checkDocs (query : jsstring) (docs : list ArchiveDoc)
    : Res (option ArchiveHit) :=
  match docs with
  | [] => Ok None
  | doc :: docs' =>
      match isStrictMatchValue (doc_title doc) query with
      | Ok true => Ok (Some (archiveHit doc))
      | Ok false => checkDocs query docs'
      | Err e => Err e
      end
  end.

(** What the [try] block makes of the documents: the result of the loop, and
    [null] by way of the [catch] when the loop throws. *)
Definition firstRelevantDoc (query : jsstring) (docs : list ArchiveDoc)
    : option ArchiveHit :=
  match checkDocs query docs with
  | Ok hit => hit
  | Err _ => None
  end.

(** [searchArchiveOrg(query)] *)
Definition searchArchiveOrg (w : World) (query : jsstring) : M (option ArchiveHit) :=
  r <- call (ArchiveSearch query) (fun t => archive_search w t query);;
  ret match r with
      | Ok docs => firstRelevantDoc query docs
      | Err _ => None
      end.

Definition TAB : jsstring := [9%N].
Definition LF : jsstring := [10%N].

(** [createDeezerCookieFile(arl, tmpDir)] *)
Definition createDeezerCookieFile (w : World) (arl : option jsstring)
    (tmpDir : jsstring) : M (option jsstring) :=
  if negb (Str.truthy arl) then ret None
  else
    now <- ask (Date_now w);;
    let cookieFilePath :=
      path_join tmpDir (js "deezer_cookies_" ++ js (pretty now) ++ js ".txt") in
    let cookieContent :=
      js "# Netscape HTTP Cookie File" ++ LF ++
      js "# This file was generated for yt-dlp" ++ LF ++
      js ".deezer.com" ++ TAB ++ js "TRUE" ++ TAB ++ js "/" ++ TAB ++ js "TRUE" ++
      TAB ++ js "0" ++ TAB ++ js "arl" ++ TAB ++ Str.get arl in
    writeFileSync cookieFilePath cookieContent;;;
    ret (Some cookieFilePath).

(** [downloadFromDeezer(query, binaryPath, tmpDir)] *)
Definition downloadFromDeezer (w : World) (query binaryPath tmpDir : jsstring)
    : M (option Metadata) :=
  let arl := DEEZER_ARL w in
  if negb (Str.truthy arl) then ret None
  else
    searchRes <- call (DeezerTrackSearch query) (fun t => deezer_search w t query);;
    match searchRes with
    | Err _ => ret None
    | Ok [] => ret None
    | Ok (track :: _) =>
        let trackUrl := js "https://www.deezer.com/track/" ++ js (pretty (dz_id track)) in
        cookieFile <- createDeezerCookieFile w arl tmpDir;;
        match cookieFile with
        | None => ret None
        | Some cookieFile =>
            let args :=
              [trackUrl; js "--dump-json"; js "--no-playlist"; js "--cookies"; cookieFile;
               js "--no-check-certificate"; js "--geo-bypass";
               js "--user-agent"; USER_AGENT] in
            res <- call (ExecFile binaryPath args)
                        (fun t => execFile w t binaryPath args);;
            unlinkIfExists cookieFile;;;
            match ex_error res with
            | Some _ => ret None
            | None =>
                match JSON_parse w (ex_stdout res) with
                | None => ret None
                | Some data =>
                    ret (Some
                      {| title :=
                           Str.or_else (d_title data)
                             (Some (dz_artist_name track ++ js " - " ++ dz_title track));
                         url :=
                           Str.or_else (Str.or_else (d_webpage_url data) (d_url data))
                             (Some trackUrl);
                         duration :=
                           number_or_else (d_duration data) (dz_duration track);
                         extractor := Some (js "deezer") |})
                end
            end
        end
    end.

Inductive Source : Type := youtube | soundcloud | archive.

(** [/^(http|https):\/\//] *)
Definition schemeRegex : regex :=
  seqs [Bol; Group 1 (Alt (lit false "http") (lit false "https"));
        lit false "://"].

(** The [--proxy] arguments: one proxy of [PROXY_URL], picked at random. *)
Definition proxyArgs (w : World) : M (list jsstring) :=
  if Str.truthy (PROXY_URL w) then
    let proxies :=
      List.filter (fun p => negb (Str.isEmpty p))
        (List.map Str.trim (splitOnChar 44 [] (Str.get (PROXY_URL w)))) in
    if (0 <? length proxies)%nat then
      r <- ask (Math_random w);;
      ret [js "--proxy"; nth (r mod length proxies) proxies []]
    else ret []
  else ret [].

Definition isYouTubeUrl (s : jsstring) : bool :=
  Str.includes s (js "youtube.com") || Str.includes s (js "youtu.be").

(** [getMetadata(queryOrUrl, binaryPath, forceSource)] for a source that is
    not the archive. *)
Definition getMetadataFromTool (w : World) (queryOrUrl binaryPath : jsstring)
    (forceSource : option Source) : M (option Metadata) :=
  let searchPrefix :=
    match forceSource with
    | Some youtube => js "ytsearch1:"
    | Some soundcloud => js "scsearch1:"
    | _ => []
    end in
  let isUrl := test schemeRegex queryOrUrl in
  let finalQuery := if isUrl then queryOrUrl else searchPrefix ++ queryOrUrl in
  proxy <- proxyArgs w;;
  let android :=
    match forceSource with
    | Some youtube => true
    | _ => isUrl && isYouTubeUrl queryOrUrl
    end in
  let args :=
    ([finalQuery; js "--dump-json"; js "--no-playlist"; js "--no-check-certificate";
      js "--user-agent"; USER_AGENT] ++ proxy ++
     (if android then [js "--extractor-args"; js "youtube:player_client=android"]
      else []))%list in
  res <- call (ExecFile binaryPath args) (fun t => execFile w t binaryPath args);;
  match ex_error res with
  | Some _ => ret None
  | None =>
      match JSON_parse w (ex_stdout res) with
      | None => ret None
      | Some data =>
          ret (Some {| title := d_title data;
                       url := Str.or_else (d_webpage_url data) (d_url data);
                       duration := d_duration data;
                       extractor := d_extractor data |})
      end
  end.

(** [getMetadata(queryOrUrl, binaryPath, forceSource = null)] *)
Definition getMetadata (w : World) (queryOrUrl binaryPath : jsstring)
    (forceSource : option Source) : M (option Metadata) :=
  match forceSource with
  | Some archive =>
      archiveMeta <- searchArchiveOrg w queryOrUrl;;
      match archiveMeta with
      | Some hit => getMetadataFromTool w (hit_url hit) binaryPath None
      | None => ret None
      end
  | _ => getMetadataFromTool w queryOrUrl binaryPath forceSource
  end.

(** ** handleSearchMode *)

Record Message : Type := {
  chat_id : Z;                 (* msg.chat.id *)
  text : option jsstring }.      (* msg.text *)

(** [dspRegex] *)
Definition dspRegex : regex :=
  seqs [lit false "http"; opt (lit false "s"); lit false "://";
        Group 1 (alts [lit false "open.spotify.com";
                       Seq (lit false "www.deezer.") (Star true dot);
                       Seq (lit false "link.deezer.") (Star true dot);
                       lit false "music.apple.com";
                       lit false "tidal.com";
                       lit false "music.youtube.com";
                       Seq (lit false "music.amazon.") (Star true dot)])].

(** [urlRegex]: a scheme, [://], then one or more code units that are
    neither a space (32) nor a double quote (34), up to the end of the
    text. *)
Definition urlRegex : regex :=
  seqs [Bol; Group 1 (Alt (lit false "http") (lit false "https"));
        lit false "://";
        plus (Class (fun c => negb ((c =? 32)%N || (c =? 34)%N))); Eol].

(** [/youtube\.com|youtu\.be/] *)
Definition youtubeRegex : regex :=
  Alt (lit false "youtube.com") (lit false "youtu.be").

(** [/<title[^>]*>(.*?)<\/title>/i] *)
Definition titleRegex : regex :=
  seqs [lit true "<title"; Star true (noneOf ">"); lit true ">";
        Group 1 (Star false dot); lit true "</title>"].

(** What the source has where an en dash, an em dash and a bullet are meant. *)
Definition EN_DASH : list N := [8218; 196; 236]%N.
Definition EM_DASH : list N := [8218; 196; 238]%N.
Definition BULLET : list N := [8218; 196; 162]%N.

(** [/ [-..|] NAME.*/i], the dots being [EN_DASH] and [EM_DASH], and
    [/ on NAME.*/i] *)
Definition dashSuffix (name : string) : regex :=
  seqs [lit true " "; anyOf true "-|" (EN_DASH ++ EM_DASH);
        lit true (String " "%char name); Star true dot].
Definition onSuffix (name : string) : regex :=
  seqs [lit true (String.append " on " name); Star true dot].

Definition dropPattern (r : regex) (s : jsstring) : jsstring :=
  replace r (fun _ => []) s.

Definition dropPlatform (name : string) (s : jsstring) : jsstring :=
  dropPattern (onSuffix name) (dropPattern (dashSuffix name) s).

(** The chain of replacements on the decoded page title, in order. *)
Definition stripTitle (decoded : jsstring) : jsstring :=
  let s := replace
             (seqs [lit true " "; anyOf true "" (EN_DASH ++ EM_DASH);
                    lit true " Song by "; Group 1 (plusLazy dot); lit true " ";
                    anyOf true "" (EN_DASH ++ EM_DASH);
                    lit true " Apple Music"; Star true dot])
             (fun c => (js " by ") ++ Str.get (capture 1 c)) decoded in
  let s := dropPlatform "Spotify" s in
  let s := dropPlatform "Deezer" s in
  let s := dropPlatform "Apple Music" s in
  let s := dropPlatform "Tidal" s in
  let s := dropPlatform "Amazon Music" s in
  let s := replaceAll (lit true " song and lyrics by ") (js " ") s in
  let s := dropPattern (seqs [lit true " from "; Star true dot; Eol]) s in
  let s := dropPattern
             (seqs [lit true " - ";
                    Group 1 (alts [lit true "Single"; lit true "Album"; lit true "EP"]);
                    Star true dot]) s in
  let s := dropPattern
             (seqs [Bol;
                    plus (Class (fun c =>
                            Chars.between 8203 8205 c || (c =? 65279)%N ||
                            existsb (N.eqb c)
                              (45%N :: EN_DASH ++ EM_DASH ++ BULLET) ||
                            Chars.isSpaceChar c))])
             s in
  Str.trim s.

(** [/^(.+?)\s+(?:by|[-..])\s+(.+)$/i], the dots being [EN_DASH] *)
Definition byRegex : regex :=
  seqs [Bol; Group 1 (plusLazy dot); plus (Class Chars.isSpaceChar);
        Alt (lit true "by") (anyOf true "-" EN_DASH);
        plus (Class Chars.isSpaceChar); Group 2 (plus dot); Eol].

(** [/\s+(?:by|-|..)\s+/i], the dots being [EN_DASH] *)
Definition coverSplitRegex : regex :=
  seqs [plus (Class Chars.isSpaceChar);
        alts [lit true "by"; lit true "-";
              seqs (List.map (chr true) EN_DASH)];
        plus (Class Chars.isSpaceChar)].

(** The variables that step 1 leaves behind. *)
Record Input : Type := {
  query : jsstring;
  trackNameForCheck : jsstring;
  artistForCheck : option jsstring;
  isDspLink : bool;
  directUrl : option jsstring }.

Section Handler.

Variable w : World.
Variable chatId : Z.
Variable tmpDir : jsstring.
Variable lockFile : jsstring.

Definition sendMessage (reply : Reply) : M Z :=
  await (call (SendMessage chatId reply) (fun t => bot_sendMessage w t chatId reply)).

(** The [try] block that reads the metadata of a DSP link. *)
Definition readLinkTitle (text : jsstring) : M Input :=
  response <- await (call (FetchPage text) (fun t => axios_page w t text));;
  match exec titleRegex response with
  | Some titleMatch =>
      let inner := Str.get (capture 1 (m_caps titleMatch)) in
      if Str.isEmpty inner then throw (js "Could not parse title tag")
      else
        let rawTitle := stripTitle (he_decode w inner) in
        let input :=
          match exec byRegex rawTitle with
          | Some byMatch =>
              let track := Str.get (capture 1 (m_caps byMatch)) in
              let artist := Str.get (capture 2 (m_caps byMatch)) in
              {| query := cleanQuery (track ++ js " " ++ artist);
                 trackNameForCheck := Str.trim track;
                 artistForCheck := Some (Str.trim artist);
                 isDspLink := true; directUrl := None |}
          | None =>
              {| query := cleanQuery rawTitle;
                 trackNameForCheck := rawTitle;
                 artistForCheck := None;
                 isDspLink := true; directUrl := None |}
          end in
        sendMessage SongSpotted;;;
        ret input
  | None => throw (js "Could not parse title tag")
  end.

(** 1. Analyze Input *)
Definition analyzeInput (text : jsstring) : M Input :=
  if test urlRegex text && negb (test dspRegex text) then
    sendMessage NonMusicLink;;;
    unlinkIfExists lockFile;;;
    exit
  else if test dspRegex text then
    if Str.includes text (js "/album/") || Str.includes text (js "/playlist/") then
      let linkType := if Str.includes text (js "/album/") then js "album" else js "playlist" in
      sendMessage (LinkTypeUnsupported linkType);;;
      unlinkIfExists lockFile;;;
      exit
    else
      sendMessage ReadingLinkMetadata;;;
      tryCatch (readLinkTitle text)
        (fun _ =>
           (if Str.includes text (js "amazon")
            then sendMessage AmazonLinkUnreadable
            else sendMessage LinkUnreadable);;;
           unlinkIfExists lockFile;;;
           exit)
  else if test urlRegex text && negb (test youtubeRegex text) then
    sendMessage ProcessingLink;;;
    ret {| query := text; trackNameForCheck := text; artistForCheck := None;
           isDspLink := false; directUrl := Some text |}
  else if test youtubeRegex text then
    sendMessage ProcessingYouTubeLink;;;
    ret {| query := text; trackNameForCheck := text; artistForCheck := None;
           isDspLink := false; directUrl := Some text |}
  else
    ret {| query := cleanQuery text; trackNameForCheck := text;
           artistForCheck := None; isDspLink := false; directUrl := None |}.

(** A. Deezer (if ARL available) *)
Definition deezerTier (input : Input) (binaryPath : jsstring) : M (option Metadata) :=
  if Str.truthy (DEEZER_ARL w)
  then downloadFromDeezer w (query input) binaryPath tmpDir
  else ret None.

(** [meta.duration && meta.duration < 45] *)
Definition isPreview (meta : Metadata) : bool :=
  truthyNumber (duration meta) &&
  match duration meta with
  | Some d => negb (Qle_bool 45 d)
  | None => false
  end.

(** B. SoundCloud: [if (!meta) { ... }] *)
Definition soundcloudTier (input : Input) (binaryPath : jsstring)
    (meta : option Metadata) : M (option Metadata) :=
  match meta with
  | Some _ => ret meta
  | None =>
      meta <- getMetadata w (query input) binaryPath (Some soundcloud);;
      match meta with
      | Some found =>
          let isMatch :=
            isStrictMatch (title found) (trackNameForCheck input)
              (artistForCheck input) in
          if negb isMatch || isPreview found then ret None else ret (Some found)
      | None => ret None
      end
  end.

(** C. YouTube Fallback: [if (!meta) { ... }] *)
Definition youtubeTier (input : Input) (binaryPath : jsstring)
    (meta : option Metadata) : M (option Metadata) :=
  match meta with
  | Some _ => ret meta
  | None => getMetadata w (query input) binaryPath (Some youtube)
  end.

(** D. Internet Archive Fallback: [if (!meta) { ... }] *)
Definition archiveTier (input : Input) (binaryPath : jsstring)
    (meta : option Metadata) : M (option Metadata) :=
  match meta with
  | Some _ => ret meta
  | None => getMetadata w (query input) binaryPath (Some archive)
  end.

(** The end of the search: no match, or the video of the match. *)
Definition chooseVideo (meta : option Metadata)
    : M (option jsstring * option jsstring) :=
  match meta with
  | None =>
      sendMessage NoMatchFound;;;
      unlinkIfExists lockFile;;;
      exit
  | Some found => ret (url found, title found)
  end.

(** The branch [else] of step 2: Deezer, SoundCloud, YouTube, Archive. *)
Definition searchTiers (input : Input) (binaryPath : jsstring)
    : M (option jsstring * option jsstring) :=
  meta <- deezerTier input binaryPath;;
  meta <- soundcloudTier input binaryPath meta;;
  meta <- youtubeTier input binaryPath meta;;
  meta <- archiveTier input binaryPath meta;;
  chooseVideo meta.

(** 2. Resolve Audio: [(videoUrl, videoTitle)] *)
Definition resolveAudio (input : Input) (binaryPath : jsstring)
    : M (option jsstring * option jsstring) :=
  if Str.truthy (directUrl input) then
    meta <- getMetadata w (Str.get (directUrl input)) binaryPath None;;
    ret (directUrl input,
         match meta with
         | Some found => title found
         | None => Some (js "Unknown Track")
         end)
  else searchTiers input binaryPath.

Definition PLACEHOLDER_COVER : jsstring :=
  (js "https://placehold.co/600x600/1a1a1a/ffffff?text=No+Cover").

(** The track and the artist that the cover search reads off the query. *)
Definition splitQuery (query : jsstring) : option jsstring * option jsstring :=
  if Str.isEmpty query then (None, None)
  else
    match split coverSplitRegex query with
    | first :: (_ :: _) as rest =>
        (Some (Str.trim first), Some (Str.trim (joinWith (js " ") rest)))
    | _ => (Some (Str.trim query), None)
    end.

(** Find Cover Art *)
Definition findCover (query : jsstring) : M jsstring :=
  let names := splitQuery query in
  coverUrl <- (if Str.truthy (fst names)
               then getSpotifyCover w (Str.get (fst names)) (snd names)
               else ret None);;
  coverUrl <- (if Str.truthy coverUrl then ret coverUrl
               else getDeezerCover w query);;
  ret (if Str.truthy coverUrl then Str.get coverUrl else PLACEHOLDER_COVER).

(** The [try] block around the merge. *)
Definition mergeStep (imagePath audioPath outputPath : jsstring) : M unit :=
  tryCatch
    (merged <- call (MergeAudioImage imagePath audioPath outputPath)
                    (fun t => mergeAudioImage w t imagePath audioPath outputPath);;
     match fst merged with
     | Some content => writeFileSync outputPath content
     | None => ret tt
     end;;;
     match snd merged with
     | Ok _ => ret tt
     | Err e => throw e
     end;;;
     call StopAnimation (fun _ => tt);;;
     produced <- existsNonEmpty outputPath;;
     if produced then ret tt
     else throw (js "Merge completed but output file is missing or empty"))
    (fun mergeError =>
       call StopAnimation (fun _ => tt);;;
       throw mergeError).

(** Steps 3 to 7: download the assets, merge, send, clean up. *)
Definition deliver (binaryPath : jsstring) (videoUrl videoTitle : option jsstring)
    (coverUrl : jsstring) : M unit :=
  sendMessage (FoundDownloading videoTitle);;;
  t1 <- ask (Date_now w);;
  t2 <- ask (Date_now w);;
  t3 <- ask (Date_now w);;
  let audioPath := path_join tmpDir (js "audio_" ++ js (pretty t1) ++ js ".mp3") in
  let imagePath := path_join tmpDir (js "cover_" ++ js (pretty t2) ++ js ".jpg") in
  let outputPath := path_join tmpDir (js "output_" ++ js (pretty t3) ++ js ".mp4") in
  tryCatch (downloadFile w coverUrl imagePath) (fun _ => ret tt);;;
  proxy <- proxyArgs w;;
  match videoUrl with
  | None => throw (js "Cannot read properties of undefined (reading 'includes')")
  | Some videoUrl =>
      let args :=
        ([videoUrl; js "--extract-audio"; js "--audio-format"; js "mp3";
          js "--output"; audioPath; js "--no-playlist"; js "--no-check-certificate";
          js "--ffmpeg-location"; ffmpegDir w; js "--user-agent"; USER_AGENT]
         ++ proxy ++
         (if isYouTubeUrl videoUrl
          then [js "--extractor-args"; js "youtube:player_client=android"]
          else []))%list in
      res <- call (ExecFile binaryPath args) (fun t => execFile w t binaryPath args);;
      match ex_output res with
      | Some content => writeFileSync audioPath content
      | None => ret tt
      end;;;
      match ex_error res with
      | Some message =>
          throw (js "yt-dlp failed: " ++
                 (if Str.isEmpty (ex_stderr res) then message else ex_stderr res))
      | None => ret tt
      end;;;
      unlinkIfExists outputPath;;;
      audioExists <- existsNonEmpty audioPath;;
      imageExists <- existsNonEmpty imagePath;;
      if negb audioExists then throw (js "Audio download failed (empty or missing file).")
      else if negb imageExists
      then throw (js "Cover image download failed (empty or missing file).")
      else
        messageId <- sendMessage Merging;;
        await (call (StartAnimation chatId messageId)
                    (fun t => startAnimation w t chatId messageId));;;
        mergeStep imagePath audioPath outputPath;;;
        sendMessage Uploading;;;
        await (call (SendVideo chatId outputPath videoTitle)
                    (fun t => bot_sendVideo w t chatId outputPath videoTitle));;;
        unlinkIfExists imagePath;;;
        unlinkIfExists audioPath;;;
        unlinkIfExists outputPath;;;
        unlinkIfExists lockFile
  end.

(** The [try] block of handleSearchMode. *)
Definition pipeline (text : jsstring) : M unit :=
  input <- analyzeInput text;;
  binaryPath <- ensureYtDlp w tmpDir;;
  video <- resolveAudio input binaryPath;;
  coverUrl <- findCover (query input);;
  deliver binaryPath (fst video) (snd video) coverUrl.

(** The [catch] block of handleSearchMode. *)
Definition onError (message : jsstring) : M unit :=
  sendMessage (ErrorReply message);;;
  unlinkIfExists lockFile.

End Handler.

Definition lockFileOf (w : World) (chatId : Z) : jsstring :=
  path_join (tmpdir w) (js "lock_search_" ++ js (pretty chatId) ++ js ".lock").

(** [handleSearchMode(bot, msg)] *)
Definition handleSearchMode (w : World) (msg : Message) : M unit :=
  let chatId := chat_id msg in
  if negb (Str.truthy (text msg)) then ret tt
  else
    let text := Str.get (text msg) in
    let tmpDir := tmpdir w in
    let lockFile := lockFileOf w chatId in
    locked <- existsSync lockFile;;
    if locked then ret tt
    else
      writeFileSync lockFile (js "processing");;;
      functionBody
        (tryCatch (pipeline w chatId tmpDir lockFile text)
                  (onError w chatId lockFile)).

(** ** Definitions used by the statements *)

(** The matching rules as the specification words them: both strings
    lowercased and stripped; with an artist and a cleaned track of at most 3
    code units, track and artist must both be contained; with an artist and a
    contained track, the artist must be contained or the track be longer than
    3; otherwise the track must be contained. *)
Definition strictMatchRules (resultTitle targetTrack : jsstring)
    (targetArtist : option jsstring) : bool :=
  let cleanResult := cleanTitle resultTitle in
  let cleanTrack := cleanTitle targetTrack in
  match targetArtist with
  | Some artist =>
      let cleanArtist := cleanTitle artist in
      if (length cleanTrack <=? 3)%nat
      then Str.includes cleanResult cleanTrack && Str.includes cleanResult cleanArtist
      else if Str.includes cleanResult cleanTrack
      then Str.includes cleanResult cleanArtist || (3 <? length cleanTrack)%nat
      else Str.includes cleanResult cleanTrack
  | None => Str.includes cleanResult cleanTrack
  end.

(** A code unit that is neither a word character nor white space, and is
    not U+0130 (capital I with dot above) or U+212A (the Kelvin sign). *)
Definition plainSymbol (c : N) : bool :=
  negb (isWordOrSpace c) && negb (c =? 304)%N && negb (c =? 8490)%N.

(** Whether a call is a message to the user. *)
Definition isSendMessage (c : Call) : Prop :=
  match c with
  | SendMessage _ _ => True
  | _ => False
  end.

(** What a run does with a direct URL, in the words of the specification:
    no search tier, the metadata of that exact URL, no relevance filter. *)
Definition directPipeline (w : World) (chatId : Z) (tmpDir lockFile url : jsstring)
    : M unit :=
  binaryPath <- ensureYtDlp w tmpDir;;
  meta <- getMetadata w url binaryPath None;;
  coverUrl <- findCover w url;;
  deliver w chatId tmpDir lockFile binaryPath (Some url)
    match meta with
    | Some found => title found
    | None => Some (js "Unknown Track")
    end
    coverUrl.

(** The calls that a run on the direct URL [url] may make: the tool is only
    run on [url] itself, no page is read and no search tier is asked. *)
Definition directCall (url : jsstring) (c : Call) : Prop :=
  match c with
  | ExecFile _ args => hd_error args = Some url
  | DeezerTrackSearch _ => False
  | ArchiveSearch _ => False
  | FetchPage _ => False
  | _ => True
  end.

(** [m] moves every state to a state related to it by [R], however it
    ends. *)
Definition steps (R : State -> State -> Prop) {A : Type} (m : M A) : Prop :=
  forall st, R st (snd (m st)).

(** A relation between the state before and the state after that the
    bookkeeping of the model respects: it is a preorder, and it holds across
    a change of the files and across a tick of the clock. *)
Class Frame (R : State -> State -> Prop) : Prop := {
  frame_refl : forall st, R st st;
  frame_trans : forall st1 st2 st3, R st1 st2 -> R st2 st3 -> R st1 st3;
  frame_files : forall f st, R st (setFiles f st);
  frame_tick : forall st, R st (tick st) }.

(** [R] holds across the call [c]. *)
Definition callOk (R : State -> State -> Prop) (c : Call) : Prop :=
  forall st, R st (recordCall c st).

(** The later state has the calls of the earlier one, then calls that all
    satisfy [P]. *)
Definition extends (P : Call -> Prop) (st st' : State) : Prop :=
  exists new, calls st' = (calls st ++ new)%list /\ Forall P new.

(** [m] makes only calls that satisfy [P]. *)
Abbreviation emits P := (steps (extends P)).

(** The later state has the token cache of the earlier one. *)
Definition sameToken (st st' : State) : Prop :=
  spotifyTokenCache st' = spotifyTokenCache st /\
  spotifyTokenExpiry st' = spotifyTokenExpiry st.

(** [m] executes no [return;] of the handler. *)
Definition neverExits {A : Type} (m : M A) : Prop :=
  forall st, fst (m st) <> Exit.

(** The lock file is absent. *)
Definition unlocked (lockFile : jsstring) (st : State) : Prop :=
  files st !! lockFile = None.

(** When [m] executes a [return;] of the handler, the lock file is absent. *)
Definition exitsUnlocked (lockFile : jsstring) {A : Type} (m : M A) : Prop :=
  forall st, fst (m st) = Exit -> unlocked lockFile (snd (m st)).

(** When [m] completes or executes a [return;], the lock file is absent. *)
Definition endsUnlocked (lockFile : jsstring) {A : Type} (m : M A) : Prop :=
  forall st,
    match fst (m st) with
    | Thrown _ => True
    | _ => unlocked lockFile (snd (m st))
    end.

(** Everything a run has resolved when the downloads start. *)
Record Resolved : Type := {
  r_input : Input;
  r_binaryPath : jsstring;
  r_videoUrl : option jsstring;
  r_videoTitle : option jsstring;
  r_coverUrl : jsstring }.

(** The [try] block up to the cover selection. *)
Definition resolveAll (w : World) (chatId : Z) (tmpDir lockFile s : jsstring)
    : M Resolved :=
  input <- analyzeInput w chatId lockFile s;;
  binaryPath <- ensureYtDlp w tmpDir;;
  video <- resolveAudio w chatId tmpDir lockFile input binaryPath;;
  coverUrl <- findCover w (query input);;
  ret {| r_input := input; r_binaryPath := binaryPath;
         r_videoUrl := fst video; r_videoTitle := snd video;
         r_coverUrl := coverUrl |}.

(** Two worlds whose catalogs are configured alike and answer alike, at all
    times: the Spotify token endpoint, the Spotify search and the Deezer
    search. *)
Definition sameCatalogs (w1 w2 : World) : Prop :=
  SPOTIFY_CLIENT_ID w1 = SPOTIFY_CLIENT_ID w2 /\
  SPOTIFY_CLIENT_SECRET w1 = SPOTIFY_CLIENT_SECRET w2 /\
  (forall t1 t2 a b, spotify_token w1 t1 a b = spotify_token w2 t2 a b) /\
  (forall t1 t2 a b, spotify_search w1 t1 a b = spotify_search w2 t2 a b) /\
  (forall t1 t2 q, deezer_search w1 t1 q = deezer_search w2 t2 q).

(** The state in which a run looks for the cover: the one in which its
    audio resolution ended. *)
Definition coverLookupState (w : World) (chatId : Z) (tmpDir lockFile s : jsstring)
    (st : State) : State :=
  snd ((input <- analyzeInput w chatId lockFile s;;
        binaryPath <- ensureYtDlp w tmpDir;;
        resolveAudio w chatId tmpDir lockFile input binaryPath) st).

(** Whether a lookup of the token in state [st] finds a cached token that is
    still valid: [spotifyTokenCache && Date.now() < spotifyTokenExpiry]. *)
Definition findsTokenValid (w : World) (st : State) : bool :=
  Str.truthy (spotifyTokenCache st) &&
  (Date_now w (clock st) <? spotifyTokenExpiry st)%Z.

(** The URLs of the cover downloads among the calls of a run. *)
Definition coverDownloads (cs : list Call) : list jsstring :=
  flat_map (fun c =>
              match c with
              | DownloadFile url path =>
                  if Str.includes path (js "/cover_") then [url] else []
              | _ => []
              end) cs.

(** ** Example worlds, for the concrete runs *)

Module Example.

(** The tool prints its target as the title of what it found. *)
Definition parseDump (stdout : jsstring) : option YtDump :=
  if Str.isEmpty stdout then None
  else Some {| d_title := Some stdout;
               d_webpage_url := Some (js "https://media.example/" ++ stdout);
               d_url := None;
               d_duration := Some (200 # 1);
               d_extractor := Some (js "example") |}.

Definition toolOk (t : nat) (binaryPath : jsstring) (args : list jsstring) : ExecResult :=
  {| ex_error := None; ex_stdout := hd [] args; ex_stderr := [];
     ex_output := Some (js "audio") |}.

Definition botOk (t : nat) (chatId : Z) (reply : Reply) : Res Z := Ok (Z.of_nat t).

(** A chat that refuses every message, as when the user blocked the bot. *)
Definition botBlocked (t : nat) (chatId : Z) (reply : Reply) : Res Z :=
  Err (js "403 Forbidden: bot was blocked by the user").

Definition world (arl : option jsstring) (spotifyId : option jsstring)
    (bot : nat -> Z -> Reply -> Res Z)
    (tool : nat -> jsstring -> list jsstring -> ExecResult)
    (parse : jsstring -> option YtDump)
    (token : nat -> jsstring -> jsstring -> Res SpotifyTokenResponse)
    (spotify : nat -> jsstring -> jsstring -> Res (list SpotifyTrack))
    (deezer : nat -> jsstring -> Res (list DeezerTrack))
    (archiveDocs : nat -> jsstring -> Res (list ArchiveDoc)) : World :=
  {| DEEZER_ARL := arl;
     SPOTIFY_CLIENT_ID := spotifyId;
     SPOTIFY_CLIENT_SECRET := spotifyId;
     PROXY_URL := None;
     tmpdir := js "/tmp";
     ffmpegDir := js "/opt/ffmpeg";
     he_decode := fun s => s;
     JSON_parse := parse;
     Date_now := fun t => (1000 * Z.of_nat t)%Z;
     Math_random := fun t => t;
     bot_sendMessage := bot;
     bot_sendVideo := fun _ _ _ _ => Ok tt;
     axios_page := fun _ _ => Ok (js "<html><title>Song by Artist | Spotify</title></html>");
     axios_stream := fun _ _ => Finished (js "bytes");
     spotify_token := token;
     spotify_search := spotify;
     deezer_search := deezer;
     archive_search := archiveDocs;
     execFile := tool;
     startAnimation := fun _ _ _ => Ok tt;
     mergeAudioImage := fun _ _ _ _ => (Some (js "video"), Ok tt) |}.

(** No credentials, empty catalogs, every collaborator works. *)
Definition plain : World :=
  world None None botOk toolOk parseDump
    (fun _ _ _ => Err (js "no token")) (fun _ _ _ => Ok []) (fun _ _ => Ok [])
    (fun _ _ => Ok []).

(** A Deezer session is configured and the catalog knows one track. *)
Definition deezerHit : DeezerTrack :=
  {| dz_id := 3135556; dz_title := js "Harder, Better, Faster, Stronger";
     dz_artist_name := js "Daft Punk"; dz_duration := Some (224 # 1);
     dz_cover_big := Some (js "https://covers.example/discovery.jpg") |}.

Definition withDeezer : World :=
  world (Some (js "arl-session")) None botOk toolOk parseDump
    (fun _ _ _ => Err (js "no token")) (fun _ _ _ => Ok []) (fun _ _ => Ok [deezerHit])
    (fun _ _ => Ok []).

(** The tool reports the requested title with a duration of zero. *)
Definition parseZero (stdout : jsstring) : option YtDump :=
  Some {| d_title := Some (js "Hello World");
          d_webpage_url := Some (js "https://soundcloud.example/hello-world");
          d_url := None;
          d_duration := Some (0 # 1);
          d_extractor := Some (js "soundcloud") |}.

Definition zeroDuration : World :=
  world None None botOk toolOk parseZero
    (fun _ _ _ => Err (js "no token")) (fun _ _ _ => Ok []) (fun _ _ => Ok [])
    (fun _ _ => Ok []).

(** The archive ranks three documents; the second and the third are
    relevant to the query "blue moon". *)
Definition archiveDocs : list ArchiveDoc :=
  [ {| doc_identifier := js "a1"; doc_title := JsonString (js "Red Sun") |};
    {| doc_identifier := js "a2"; doc_title := JsonString (js "Blue Moon (1949)") |};
    {| doc_identifier := js "a3"; doc_title := JsonString (js "Blue Moon") |} ].

Definition withArchive : World :=
  world None None botOk toolOk parseDump
    (fun _ _ _ => Err (js "no token")) (fun _ _ _ => Ok []) (fun _ _ => Ok [])
    (fun _ _ => Ok archiveDocs).

Definition freeText (t : jsstring) : Input :=
  {| query := cleanQuery t; trackNameForCheck := t; artistForCheck := None;
     isDspLink := false; directUrl := None |}.

(** The tool reports the requested title with a duration of 30 seconds. *)
Definition parsePreview (stdout : jsstring) : option YtDump :=
  Some {| d_title := Some (js "Hello World");
          d_webpage_url := Some (js "https://soundcloud.example/hello-world");
          d_url := None;
          d_duration := Some (30 # 1);
          d_extractor := Some (js "soundcloud") |}.

Definition preview : World :=
  world None None botOk toolOk parsePreview
    (fun _ _ _ => Err (js "no token")) (fun _ _ _ => Ok []) (fun _ _ => Ok [])
    (fun _ _ => Ok []).

(** Two worlds with the same catalogs: Spotify is configured, its token
    endpoint is down, its search and the Deezer search know a cover each.
    They differ in the tool alone: in the second the SoundCloud search
    fails. *)
Definition spotifyHit : SpotifyTrack :=
  {| sp_images := [Some (js "https://covers.example/spotify.jpg")];
     sp_artists := [Some (js "Artist")] |}.

Definition deezerCoverHit : DeezerTrack :=
  {| dz_id := 1; dz_title := js "Hello World"; dz_artist_name := js "Artist";
     dz_duration := None;
     dz_cover_big := Some (js "https://covers.example/deezer.jpg") |}.

Definition toolNoSoundcloud (t : nat) (binaryPath : jsstring) (args : list jsstring)
    : ExecResult :=
  if Str.startsWith (hd [] args) (js "scsearch1:")
  then {| ex_error := Some (js "Command failed"); ex_stdout := [];
          ex_stderr := js "ERROR: unable to download"; ex_output := None |}
  else toolOk t binaryPath args.

Definition coverA : World :=
  world None (Some (js "client")) botOk toolOk parseDump
    (fun _ _ _ => Err (js "token endpoint down")) (fun _ _ _ => Ok [spotifyHit])
    (fun _ _ => Ok [deezerCoverHit]) (fun _ _ => Ok []).

Definition coverB : World :=
  world None (Some (js "client")) botOk toolNoSoundcloud parseDump
    (fun _ _ _ => Err (js "token endpoint down")) (fun _ _ _ => Ok [spotifyHit])
    (fun _ _ => Ok [deezerCoverHit]) (fun _ _ => Ok []).

(** A process that holds a Spotify token, good until time 2500. *)
Definition cachedToken : State :=
  {| files := ∅; spotifyTokenCache := Some (js "cached-token");
     spotifyTokenExpiry := 2500; calls := []; clock := 0 |}.

(** A process that holds a Spotify token, good until time 1000000. *)
Definition validToken : State :=
  {| files := ∅; spotifyTokenCache := Some (js "cached-token");
     spotifyTokenExpiry := 1000000; calls := []; clock := 0 |}.

(** The archive ranks a document with two titles, which come as an array,
    before a document that is relevant to the query "blue moon". *)
Definition untypedDocs : list ArchiveDoc :=
  [ {| doc_identifier := js "b1"; doc_title := JsonArray |};
    {| doc_identifier := js "b2"; doc_title := JsonString (js "Blue Moon") |} ].

Definition withUntypedTitle : World :=
  world None None botOk toolOk parseDump
    (fun _ _ _ => Err (js "no token")) (fun _ _ _ => Ok []) (fun _ _ => Ok [])
    (fun _ _ => Ok untypedDocs).

(** The chat transport fails from the fourth call of the run on. *)
Definition botOutage (t : nat) (chatId : Z) (reply : Reply) : Res Z :=
  if (t <? 3)%nat then Ok (Z.of_nat t)
  else Err (js "ETELEGRAM: 429 Too Many Requests").

Definition outage : World :=
  world None None botOutage toolOk parseDump
    (fun _ _ _ => Err (js "no token")) (fun _ _ _ => Ok []) (fun _ _ => Ok [])
    (fun _ _ => Ok []).

(** The same with a chat that refuses every message. *)
Definition blocked : World :=
  world None None botBlocked toolOk parseDump
    (fun _ _ _ => Err (js "no token")) (fun _ _ _ => Ok []) (fun _ _ => Ok [])
    (fun _ _ => Ok []).

Definition fresh : State :=
  {| files := ∅; spotifyTokenCache := None; spotifyTokenExpiry := 0;
     calls := []; clock := 0 |}.

(** A state in which chat 42 is being served. *)
Definition busy : State :=
  {| files := {[ (js "/tmp/lock_search_42.lock") := js "processing" ]};
     spotifyTokenCache := None; spotifyTokenExpiry := 0;
     calls := []; clock := 0 |}.

Definition message (t : jsstring) : Message := {| chat_id := 42; text := Some t |}.

End Example.

(** ** Definitions used by the further properties

    The matcher, step by step. *)

(** The iteration of a quantifier as [run] performs it, with at most [n]
    further rounds: [run (Star greedy r) pos s c k] is
    [iterate greedy r k (S (length s)) pos s c]. *)
Section Iterate.

Context {R : Type} (greedy : bool) (r : regex)
        (k : nat -> jsstring -> captures -> option R).

Fixpoint iterate (n : nat) (pos : nat) (s : jsstring) (c : captures)
    {struct n} : option R :=
  match n with
  | O => k pos s c
  | S n' =>
      let more (_ : unit) :=
        run r pos s c
          (fun pos' s' c' =>
             if Nat.ltb pos pos' then iterate n' pos' s' c' else None) in
      if greedy then (more tt) otherwise (k pos s c)
      else (k pos s c) otherwise (more tt)
  end.

End Iterate.

(** The length of the longest prefix of [s] whose code units satisfy [p]. *)
Fixpoint runLength (p : N -> bool) (s : jsstring) : nat :=
  match s with
  | [] => 0
  | c :: s' => if p c then S (runLength p s') else 0
  end.

(** Every maximal run of code units that satisfy [p] replaced by [rep];
    [inRun] tells that the code unit before satisfied [p]. *)
Fixpoint collapseRuns (p : N -> bool) (rep : jsstring) (inRun : bool)
    (s : jsstring) : jsstring :=
  match s with
  | [] => []
  | c :: s' =>
      if p c
      then if inRun then collapseRuns p rep true s'
           else rep ++ collapseRuns p rep true s'
      else c :: collapseRuns p rep false s'
  end.

(** [text.replace(/\s+/g, " ").trim()], the last two steps of [cleanQuery] *)
Definition normalizeSpaces (text : jsstring) : jsstring :=
  Str.trim (replaceAll (plus (Class Chars.isSpaceChar)) (js " ") text).

(** A text that does not start with a code unit of the class. *)
Definition startsOutside (p : N -> bool) (s : jsstring) : Prop :=
  match s with
  | [] => True
  | a :: _ => p a = false
  end.

(** A pattern that only matches where a code unit satisfying [q] occurs in
    what is left of the subject. *)
Definition needs (r : regex) (q : N -> bool) : Prop :=
  forall (R : Type) (pos : nat) (s : jsstring) (c : captures)
         (k : nat -> jsstring -> captures -> option R) (x : R),
    run r pos s c k = Some x -> exists a, In a s /\ q a = true.

(** A call that addresses no chat but [chatId]. *)
Definition toChat (chatId : Z) (c : Call) : Prop :=
  match c with
  | SendMessage id _ => id = chatId
  | SendVideo id _ _ => id = chatId
  | StartAnimation id _ => id = chatId
  | _ => True
  end.

(** The search of the Deezer catalog for a track to download. *)
Definition isDeezerTrackSearch (c : Call) : Prop :=
  match c with
  | DeezerTrackSearch _ => True
  | _ => False
  end.

(** A request to Spotify: for a token or for a track. *)
Definition isSpotifyCall (c : Call) : Prop :=
  match c with
  | SpotifyTokenRequest _ _ => True
  | SpotifySearch _ _ => True
  | _ => False
  end.

(** The title that the handler reads off the page of a link: what stands
    between the [title] tags, when the page was fetched, has a [title]
    element and the element is not empty. *)
Definition pageTitle (page : Res jsstring) : option jsstring :=
  match page with
  | Ok html =>
      match exec titleRegex html with
      | Some titleMatch =>
          let inner := Str.get (capture 1 (m_caps titleMatch)) in
          if Str.isEmpty inner then None else Some inner
      | None => None
      end
  | Err _ => None
  end.

(** The "Processing Link..." notice. *)
Definition isProcessingLink (c : Call) : Prop :=
  match c with
  | SendMessage _ ProcessingLink => True
  | _ => False
  end.

(** A lookup of the audio resolution: the Deezer track search, a run of the
    tool, the archive search. *)
Definition isAudioLookup (c : Call) : Prop :=
  match c with
  | DeezerTrackSearch _ => True
  | ExecFile _ _ => True
  | ArchiveSearch _ => True
  | _ => False
  end.

(** From [st] to [st'] only audio lookups were made, no file was added or
    changed, and the token cache was left alone. *)
Definition lookedUp (st st' : State) : Prop :=
  (exists tries,
     calls st' = (calls st ++ tries)%list /\ Forall isAudioLookup tries) /\
  files st' ⊆ files st /\
  spotifyTokenCache st' = spotifyTokenCache st /\
  spotifyTokenExpiry st' = spotifyTokenExpiry st.

(** Between [st] and [st'] a message was sent to the chat, or tried. *)
Definition spoke (chatId : Z) (st st' : State) : Prop :=
  exists before reply after,
    calls st' = (calls st ++ before ++ SendMessage chatId reply :: after)%list.

(** [m] sends a message to the chat, however it ends. *)
Definition speaks (chatId : Z) {A : Type} (m : M A) : Prop :=
  forall st, spoke chatId st (snd (m st)).

(** [m] has sent a message to the chat when it executes a [return;]. *)
Definition exitsSpoken (chatId : Z) {A : Type} (m : M A) : Prop :=
  forall st, fst (m st) = Exit -> spoke chatId st (snd (m st)).

(** [m] has sent a message to the chat unless it throws. *)
Definition answers (chatId : Z) {A : Type} (m : M A) : Prop :=
  forall st,
    match fst (m st) with
    | Thrown _ => True
    | _ => spoke chatId st (snd (m st))
    end.

(** Any call. *)
Definition anyCall (c : Call) : Prop := True.

(** The upload of a video. *)
Definition isSendVideo (c : Call) : bool :=
  match c with
  | SendVideo _ _ _ => true
  | _ => false
  end.

Definition notVideo (c : Call) : Prop := isSendVideo c = false.

(** [m] uploads at most one video. *)
Definition videoOnce {A : Type} (m : M A) : Prop :=
  forall st,
    exists new,
      calls (snd (m st)) = (calls st ++ new)%list /\
      (length (List.filter isSendVideo new) <= 1)%nat.

(** *** Where a computation writes

    A relation between the state before and the state after that only looks
    at the files: it is a preorder and holds between two states with the
    same files. *)
Class Footprint (R : State -> State -> Prop) : Prop := {
  footprint_refl : forall st, R st st;
  footprint_trans : forall st1 st2 st3, R st1 st2 -> R st2 st3 -> R st1 st3;
  footprint_same : forall st st', files st' = files st -> R st st' }.

(** [R] holds across a write to [path], and across its removal. *)
Definition mayWrite (R : State -> State -> Prop) (path : jsstring) : Prop :=
  forall st content, R st (setFiles (<[path := content]> (files st)) st).

Definition mayRemove (R : State -> State -> Prop) (path : jsstring) : Prop :=
  forall st, R st (setFiles (delete path (files st)) st).

(** From [st] to [st'] no file was created, changed or removed but at the
    paths that satisfy [allowed]. *)
Definition touching (allowed : jsstring -> Prop) (st st' : State) : Prop :=
  forall path, files st' !! path = files st !! path \/ allowed path.

(** From [st] to [st'] no file was created or changed but the one at
    [keep]: every other file of [st'] was in [st], with the same content. *)
Definition shrinking (keep : jsstring) (st st' : State) : Prop :=
  forall path content,
    files st' !! path = Some content ->
    path = keep \/ files st !! path = Some content.

(** A path below the directory [dir]. *)
Definition inDirectory (dir path : jsstring) : Prop :=
  Str.startsWith path (dir ++ js "/") = true.

(** A file name: one segment of a path, other than [.] and [..]. *)
Definition isFileName (name : jsstring) : bool :=
  negb (Str.isEmpty name) && negb (bool_decide (name = js ".")) &&
  negb (bool_decide (name = js "..")) &&
  forallb (fun c => negb (c =? 47)%N) name.

(** A directory in normal form that is neither the root nor the current
    directory: [path.normalize] leaves it as it is, and it does not end
    with a separator. *)
Definition isNormalDir (dir : jsstring) : bool :=
  bool_decide (Path.normalize dir = dir) && negb (bool_decide (dir = js ".")) &&
  negb (List.last dir 0 =? 47)%N.

(** What [path.join(dir, name)] puts before a file name: the normal form of
    the directory with a separator after each of its segments. *)
Definition joinPrefix (dir : jsstring) : jsstring :=
  match dir with
  | [] => []
  | first :: _ =>
      (if (first =? 47)%N then js "/" else []) ++
      concat (List.map (fun segment => segment ++ js "/")
                (Path.normalizeSegments (negb (first =? 47)%N) []
                   (splitOnChar 47 [] dir)))
  end.

(** When [m] completes, the states before and after are related by [R]. *)
Definition normally (R : State -> State -> Prop) {A : Type} (m : M A) : Prop :=
  forall st a st', m st = (Normal a, st') -> R st st'.

(** Every file of [st'] was in [st], with the same content, and none is at
    a path that satisfies [gone]. *)
Definition cleared (gone : jsstring -> Prop) (st st' : State) : Prop :=
  forall path content,
    files st' !! path = Some content ->
    files st !! path = Some content /\ ~ gone path.

(** The last call made is a message to the user. *)
Definition lastIsMessage (st : State) : Prop :=
  exists before chatId reply,
    calls st = (before ++ [SendMessage chatId reply])%list.

(** When [m] executes a [return;], the last call made is a message to the
    user. *)
Definition exitsOnMessage {A : Type} (m : M A) : Prop :=
  forall st, fst (m st) = Exit -> lastIsMessage (snd (m st)).

(** The temporary files of step 3: the cover, the audio and the video. *)
Definition temporary (imagePath audioPath outputPath path : jsstring) : Prop :=
  path = imagePath \/ path = audioPath \/ path = outputPath.

(** ** Further example worlds *)

Module Scene.

(** Spotify is configured; its token endpoint hands out a token that is good
    for an hour, its search knows nothing. *)
Definition spotify : World :=
  Example.world None (Some (js "client")) Example.botOk Example.toolOk
    Example.parseDump
    (fun _ _ _ => Ok {| access_token := Some (js "token-1"); expires_in := 3600 |})
    (fun _ _ _ => Ok []) (fun _ _ => Ok []) (fun _ _ => Ok []).

(** The world [w] with another answer of the pages of links. *)
Definition withPage (w : World) (page : nat -> jsstring -> Res jsstring) : World :=
  {| DEEZER_ARL := DEEZER_ARL w;
     SPOTIFY_CLIENT_ID := SPOTIFY_CLIENT_ID w;
     SPOTIFY_CLIENT_SECRET := SPOTIFY_CLIENT_SECRET w;
     PROXY_URL := PROXY_URL w;
     tmpdir := tmpdir w;
     ffmpegDir := ffmpegDir w;
     he_decode := he_decode w;
     JSON_parse := JSON_parse w;
     Date_now := Date_now w;
     Math_random := Math_random w;
     bot_sendMessage := bot_sendMessage w;
     bot_sendVideo := bot_sendVideo w;
     axios_page := page;
     axios_stream := axios_stream w;
     spotify_token := spotify_token w;
     spotify_search := spotify_search w;
     deezer_search := deezer_search w;
     archive_search := archive_search w;
     execFile := execFile w;
     startAnimation := startAnimation w;
     mergeAudioImage := mergeAudioImage w |}.

(** The pages of links cannot be fetched. *)
Definition offline : World :=
  withPage Example.plain
    (fun _ _ => Err (js "Request failed with status code 403")).

(** The world [w] with another answer of the downloads. *)
Definition withStream (w : World) (stream : nat -> jsstring -> Download) : World :=
  {| DEEZER_ARL := DEEZER_ARL w;
     SPOTIFY_CLIENT_ID := SPOTIFY_CLIENT_ID w;
     SPOTIFY_CLIENT_SECRET := SPOTIFY_CLIENT_SECRET w;
     PROXY_URL := PROXY_URL w;
     tmpdir := tmpdir w;
     ffmpegDir := ffmpegDir w;
     he_decode := he_decode w;
     JSON_parse := JSON_parse w;
     Date_now := Date_now w;
     Math_random := Math_random w;
     bot_sendMessage := bot_sendMessage w;
     bot_sendVideo := bot_sendVideo w;
     axios_page := axios_page w;
     axios_stream := stream;
     spotify_token := spotify_token w;
     spotify_search := spotify_search w;
     deezer_search := deezer_search w;
     archive_search := archive_search w;
     execFile := execFile w;
     startAnimation := startAnimation w;
     mergeAudioImage := mergeAudioImage w |}.

(** Every download is refused at once, before the stream has opened its
    file. *)
Definition unreachable : World :=
  withStream Example.plain (fun _ _ => Failed (js "connect ECONNREFUSED") None).

(** The tool cannot be run. *)
Definition brokenTool (t : nat) (binaryPath : jsstring) (args : list jsstring)
    : ExecResult :=
  {| ex_error := Some (js "spawn EACCES"); ex_stdout := []; ex_stderr := [];
     ex_output := None |}.

Definition broken : World :=
  Example.world None None Example.botOk brokenTool Example.parseDump
    (fun _ _ _ => Err (js "no token")) (fun _ _ _ => Ok []) (fun _ _ => Ok [])
    (fun _ _ => Ok Example.archiveDocs).

(** A process in which a file is where the tool should be. *)
Definition installed : State :=
  {| files := {[ js "/tmp/yt-dlp_linux_new" := [] ]};
     spotifyTokenCache := None; spotifyTokenExpiry := 0;
     calls := []; clock := 0 |}.

End Scene.

(** * Properties *)

(** ** The helpers on sample inputs *)

Example urlRegex_bare_url : test urlRegex (js "https://example.com/a?b=c") = true.
Proof. reflexivity. Qed.

Example urlRegex_url_in_text : test urlRegex (js "see https://example.com") = false.
Proof. reflexivity. Qed.

Example dspRegex_youtube_music :
  test dspRegex (js "https://music.youtube.com/watch?v=1") = true /\
  test dspRegex (js "https://www.youtube.com/watch?v=1") = false.
Proof. split; reflexivity. Qed.

Example cleanQuery_featuring :
  cleanQuery (js "Song-Name (feat. X)  [ft Y] z") = (js "Song Name z").
Proof. reflexivity. Qed.

Example stripTitle_spotify :
  stripTitle (js "Bohemian Rhapsody - Remastered 2011 - song and lyrics by Queen | Spotify")
  = (js "Bohemian Rhapsody - Remastered 2011 - Queen").
Proof. reflexivity. Qed.

Example splitQuery_by : splitQuery (js "40 by Kijan Boone") = (Some (js "40"), Some (js "Kijan Boone")).
Proof. reflexivity. Qed.

(** A request that goes through: the SoundCloud search answers, the video is
    sent, and the lock file is gone. *)
Example successful_run :
  let final := handleSearchMode Example.plain (Example.message (js "Hello World"))
                 Example.fresh in
  fst final = Normal tt /\
  last (calls (snd final)) =
    Some (SendVideo 42 (js "/tmp/output_6000.mp4") (Some (js "scsearch1:Hello World"))) /\
  files (snd final) !! (js "/tmp/lock_search_42.lock") = None.
Proof. repeat split; vm_compute; reflexivity. Qed.

(** ** Strings *)

Lemma includes_empty (s : jsstring) : Str.includes s [] = true.
Proof. destruct s; reflexivity. Qed.

Lemma filter_none (p : N -> bool) (s : jsstring) :
  forallb (fun c => negb (p c)) s = true -> List.filter p s = [].
Proof.
  induction s as [|c s IH]; cbn [forallb List.filter]; [reflexivity|].
  intros H. apply andb_true_iff in H as [Hc Hs].
  apply negb_true_iff in Hc. rewrite Hc. auto.
Qed.

(** A code unit that is neither a word character nor white space, and whose
    lower case has none either: every such unit but U+0130 and U+212A. *)
Lemma toLowerUnit_symbol (c : N) :
  isWordOrSpace c = false -> (c =? 304)%N = false -> (c =? 8490)%N = false ->
  Chars.toLowerUnit c = [c].
Proof.
  intros Hclass H304 H8490. unfold Chars.toLowerUnit. rewrite H304, H8490.
  unfold isWordOrSpace, Chars.isWordChar in Hclass.
  destruct (Chars.isUpper c); [|reflexivity].
  rewrite orb_true_r in Hclass. discriminate.
Qed.

Lemma cleanTitle_symbols (s : jsstring) :
  forallb plainSymbol s = true -> cleanTitle s = [].
Proof.
  unfold cleanTitle, stripNonWord, Str.toLowerCase.
  induction s as [|c s IH]; cbn [forallb flat_map]; [reflexivity|].
  intros H. apply andb_true_iff in H as [Hc Hs].
  unfold plainSymbol in Hc.
  apply andb_true_iff in Hc as [Hc H8490]. apply andb_true_iff in Hc as [Hc H304].
  apply negb_true_iff in Hc, H304, H8490.
  rewrite (toLowerUnit_symbol c Hc H304 H8490). cbn [app List.filter].
  rewrite Hc. apply IH, Hs.
Qed.

(** *** Deleting a class of code units with a global replace

    [stripNonWord] deletes code units one by one; the same comes out of the
    matcher when the pattern [/[^\w\s]/g] is replaced by the empty string. *)

Lemma execFrom_class_start (p : N -> bool) (s : jsstring) (pos : nat) (m : found) :
  execFrom (Class p) pos s = Some m ->
  (pos <= m_start m)%nat /\ (m_start m < m_end m)%nat.
Proof.
  revert pos. induction s as [|d s IH]; intros pos Hexec; [discriminate|].
  cbn [execFrom] in Hexec. unfold matchAt in Hexec. cbn [run] in Hexec.
  destruct (p d).
  - injection Hexec as <-. cbn. lia.
  - apply IH in Hexec. lia.
Qed.

Lemma replaceAllFrom_class (p : N -> bool) (fuel : nat) (s : jsstring)
    (pos : nat) :
  (length s < fuel)%nat ->
  replaceAllFrom fuel (Class p) [] pos s = List.filter (fun c => negb (p c)) s.
Proof.
  revert s pos. induction fuel as [|fuel IH]; intros s pos Hlen; [lia|].
  induction s as [|c s IHs] in pos, Hlen |- *; [reflexivity|].
  cbn [length] in Hlen.
  cbn [replaceAllFrom execFrom]. unfold matchAt at 1. cbn [run List.filter].
  destruct (p c) eqn:Hc; cbn [negb].
  - (* the match is here: the code unit goes and the scan resumes after it *)
    cbn [m_start m_end].
    replace (pos <? S pos)%nat with true by (symmetry; apply Nat.ltb_lt; lia).
    rewrite Nat.sub_diag. replace (S pos - pos)%nat with 1%nat by lia.
    cbn [firstn skipn app]. apply IH. lia.
  - (* no match here: what the scan finds later is found in the tail *)
    specialize (IHs (S pos) ltac:(lia)).
    cbn [replaceAllFrom] in IHs.
    destruct (execFrom (Class p) (S pos) s) as [m|] eqn:Hexec.
    + destruct (execFrom_class_start p s (S pos) m Hexec) as [Hle Hlt].
      pose proof (proj2 (Nat.ltb_lt _ _) Hlt) as Hltb. rewrite Hltb in IHs |- *.
      replace (m_start m - pos)%nat with (S (m_start m - S pos)) by lia.
      replace (m_end m - pos)%nat with (S (m_end m - S pos)) by lia.
      cbn [firstn skipn]. rewrite <- IHs. reflexivity.
    + f_equal. exact IHs.
Qed.

Lemma stripNonWord_replaceAll (s : jsstring) :
  replaceAll (Class (fun c => negb (isWordOrSpace c))) [] s = stripNonWord s.
Proof.
  unfold replaceAll, stripNonWord.
  rewrite replaceAllFrom_class by lia.
  induction s as [|c s IH]; [reflexivity|].
  cbn [List.filter]. rewrite negb_involutive, IH. reflexivity.
Qed.

(** ** The relevance matcher *)

(** C2, as stated, fails: the rules of the claim accept a result for an empty
    target track (every string contains the empty string), while
    [isStrictMatch] answers [false] as soon as a raw argument is empty. *)
Lemma C2_empty_track_counterexample :
  isStrictMatch (Some (js "abc")) [] None = false /\
  strictMatchRules (js "abc") [] None = true.
Proof. split; reflexivity. Qed.

(** C2, amended: [isStrictMatch] is [false] when the result title or the
    target track is empty, and follows the rules of the claim otherwise; the
    three examples of the claim evaluate as it says. *)
Theorem C2_isStrictMatch_rules :
  (forall (resultTitle targetTrack : jsstring) (targetArtist : option jsstring),
     isStrictMatch (Some resultTitle) targetTrack targetArtist =
     negb (Str.isEmpty resultTitle) && negb (Str.isEmpty targetTrack) &&
     strictMatchRules resultTitle targetTrack targetArtist) /\
  isStrictMatch (Some (js "40 - Someone Else")) (js "40") (Some (js "Kijan Boone"))
    = false /\
  isStrictMatch (Some (js "40 - Kijan Boone")) (js "40") (Some (js "Kijan Boone"))
    = true /\
  isStrictMatch (Some (js "Bohemian Rhapsody (Live)")) (js "Bohemian Rhapsody")
    (Some (js "Someone Else")) = true.
Proof.
  split; [|repeat split; reflexivity].
  intros r t a. unfold isStrictMatch, strictMatchRules.
  destruct (Str.isEmpty r) eqn:Er; [reflexivity|].
  destruct (Str.isEmpty t) eqn:Et; [reflexivity|].
  cbn [orb negb andb].
  destruct a as [artist|]; cbn [Str.truthy Str.get default from_option id];
    [|reflexivity].
  destruct (Str.isEmpty artist) eqn:Ea; cbn [negb andb].
  - (* an empty artist counts as none in the code, and is contained in
       every result in the rules *)
    destruct artist; [|discriminate].
    change (cleanTitle []) with (@nil N). rewrite includes_empty.
    destruct (length (cleanTitle t) <=? 3)%nat;
      destruct (Str.includes (cleanTitle r) (cleanTitle t)); reflexivity.
  - destruct (length (cleanTitle t) <=? 3)%nat; [reflexivity|].
    destruct (Str.includes (cleanTitle r) (cleanTitle t)); reflexivity.
Qed.

(** C10, as stated, fails: the Kelvin sign U+212A is neither a word character
    nor white space, and its lower case is the letter [k]; a target track
    made of it cleans to [k] and is not matched by a result without [k]. *)
Lemma C10_kelvin_sign_counterexample :
  js "abc" <> [] /\
  [8490%N] <> [] /\
  forallb (fun c => negb (isWordOrSpace c)) [8490%N] = true /\
  cleanTitle [8490%N] = js "k" /\
  isStrictMatch (Some (js "abc")) [8490%N] None = false.
Proof. repeat split; discriminate. Qed.

(** C10, amended: a non-empty target track made only of characters that are
    neither word characters nor white space, and that are not U+0130 or
    U+212A (the two whose lower case has a letter of [a-z]), cleans to the
    empty string, so that, without an artist, every non-empty result title
    matches it. *)
Theorem C10_symbol_only_track_matches (resultTitle targetTrackName : jsstring) :
  resultTitle <> [] ->
  targetTrackName <> [] ->
  forallb plainSymbol targetTrackName = true ->
  cleanTitle targetTrackName = [] /\
  isStrictMatch (Some resultTitle) targetTrackName None = true.
Proof.
  intros Hr Ht Hsym.
  pose proof (cleanTitle_symbols _ Hsym) as Hclean.
  split; [exact Hclean|].
  unfold isStrictMatch.
  destruct resultTitle; [congruence|].
  destruct targetTrackName; [congruence|].
  cbn [Str.isEmpty orb Str.truthy andb].
  rewrite Hclean. apply includes_empty.
Qed.

Lemma C10_witness :
  cleanTitle (js "?!?") = [] /\
  isStrictMatch (Some (js "Some Song")) (js "?!?") None = true.
Proof.
  apply (C10_symbol_only_track_matches (js "Some Song") (js "?!?"));
    [discriminate | discriminate | reflexivity].
Defined.

(** ** Laws of the monad, pointwise *)

Lemma bind_ret_l {A B : Type} (a : A) (f : A -> M B) (st : State) :
  bind (ret a) f st = f a st.
Proof. reflexivity. Qed.

Lemma bind_assoc {A B C : Type} (m : M A) (f : A -> M B) (g : B -> M C)
    (st : State) :
  bind (bind m f) g st = bind m (fun a => bind (f a) g) st.
Proof. unfold bind. destruct (m st) as [[a| |e] st1]; reflexivity. Qed.

Lemma bind_ext {A B : Type} (m : M A) (f g : A -> M B) (st : State) :
  (forall a st', f a st' = g a st') -> bind m f st = bind m g st.
Proof. intros H. unfold bind. destruct (m st) as [[a| |e] st1]; auto. Qed.

Lemma bind_Normal {A B : Type} (m : M A) (f : A -> M B) (st st1 : State) (a : A) :
  m st = (Normal a, st1) -> bind m f st = f a st1.
Proof. intros H. unfold bind. rewrite H. reflexivity. Qed.

(** ** What a computation does to the state *)

Section Steps.

Context {R : State -> State -> Prop} {HR : Frame R}.

Lemma steps_ret {A : Type} (a : A) : steps R (ret a).
Proof. intros st. apply frame_refl. Qed.

Lemma steps_exit {A : Type} : steps R (@exit A).
Proof. intros st. apply frame_refl. Qed.

Lemma steps_throw {A : Type} (e : jsstring) : steps R (@throw A e).
Proof. intros st. apply frame_refl. Qed.

Lemma steps_call {A : Type} (c : Call) (answer : nat -> A) :
  callOk R c -> steps R (call c answer).
Proof. intros Hc st. apply Hc. Qed.

Lemma steps_ask {A : Type} (answer : nat -> A) : steps R (ask answer).
Proof. intros st. apply frame_tick. Qed.

Lemma steps_bind {A B : Type} (m : M A) (f : A -> M B) :
  steps R m -> (forall a, steps R (f a)) -> steps R (bind m f).
Proof.
  intros Hm Hf st. unfold bind. pose proof (Hm st) as H1.
  destruct (m st) as [[a| |e] st1]; cbn [snd] in *; [|exact H1|exact H1].
  eapply frame_trans; [exact H1|apply Hf].
Qed.

Lemma steps_tryCatch {A : Type} (m : M A) (h : jsstring -> M A) :
  steps R m -> (forall e, steps R (h e)) -> steps R (tryCatch m h).
Proof.
  intros Hm Hh st. unfold tryCatch. pose proof (Hm st) as H1.
  destruct (m st) as [[a| |e] st1]; cbn [snd] in *; [exact H1|exact H1|].
  eapply frame_trans; [exact H1|apply Hh].
Qed.

Lemma steps_functionBody (m : M unit) : steps R m -> steps R (functionBody m).
Proof.
  intros Hm st. unfold functionBody. pose proof (Hm st) as H1.
  destruct (m st) as [[a| |e] st1]; exact H1.
Qed.

Lemma steps_await {A : Type} (m : M (Res A)) : steps R m -> steps R (await m).
Proof.
  intros Hm. unfold await. apply steps_bind; [exact Hm|].
  intros [a|e]; [apply steps_ret|apply steps_throw].
Qed.

Lemma steps_existsSync (path : jsstring) : steps R (existsSync path).
Proof. intros st. apply frame_refl. Qed.

Lemma steps_existsNonEmpty (path : jsstring) : steps R (existsNonEmpty path).
Proof. intros st. apply frame_refl. Qed.

Lemma steps_writeFileSync (path content : jsstring) :
  steps R (writeFileSync path content).
Proof. intros st. apply frame_files. Qed.

Lemma steps_unlinkSync (path : jsstring) : steps R (unlinkSync path).
Proof. intros st. apply frame_files. Qed.

Lemma steps_unlinkIfExists (path : jsstring) : steps R (unlinkIfExists path).
Proof.
  unfold unlinkIfExists. apply steps_bind; [apply steps_existsSync|].
  intros []; [apply steps_unlinkSync|apply steps_ret].
Qed.

Lemma steps_readTokenCache : steps R readTokenCache.
Proof. intros st. apply frame_refl. Qed.

End Steps.

#[global] Instance extends_frame (P : Call -> Prop) : Frame (extends P).
Proof.
  split.
  - intros st. exists []. rewrite app_nil_r. split; [reflexivity|constructor].
  - intros st1 st2 st3 (n1 & E1 & F1) (n2 & E2 & F2).
    exists (n1 ++ n2)%list. rewrite E2, E1, app_assoc.
    split; [reflexivity|]. apply Forall_app; split; assumption.
  - intros f st. exists []. cbn [setFiles calls]. rewrite app_nil_r.
    split; [reflexivity|constructor].
  - intros st. exists []. cbn [tick calls]. rewrite app_nil_r.
    split; [reflexivity|constructor].
Qed.

#[global] Instance sameToken_frame : Frame sameToken.
Proof.
  split.
  - intros st. split; reflexivity.
  - intros st1 st2 st3 [E1 F1] [E2 F2]. split; congruence.
  - intros f st. split; reflexivity.
  - intros st. split; reflexivity.
Qed.

Lemma callOk_extends (P : Call -> Prop) (c : Call) : P c -> callOk (extends P) c.
Proof.
  intros Hc st. exists [c]. split; [reflexivity|].
  constructor; [exact Hc|constructor].
Qed.

Lemma callOk_sameToken (c : Call) : callOk sameToken c.
Proof. intros st. split; reflexivity. Qed.

Lemma steps_writeTokenCache_extends (P : Call -> Prop) (token : option jsstring)
    (expiry : Z) :
  emits P (writeTokenCache token expiry).
Proof.
  intros st. exists []. cbn [writeTokenCache snd setToken calls].
  rewrite app_nil_r. split; [reflexivity|constructor].
Qed.

(** One step of a proof of [steps]: the structure of the computation is
    followed and a branch on a value is split; what a call must satisfy is
    left to be checked. *)
Ltac steps_step :=
  lazymatch goal with
  | |- steps _ (bind _ _) => apply steps_bind; [|intros ?]
  | |- steps _ (ret _) => apply steps_ret
  | |- steps _ exit => apply steps_exit
  | |- steps _ (throw _) => apply steps_throw
  | |- steps _ (call _ _) =>
      apply steps_call;
      first [apply callOk_sameToken | apply callOk_extends | idtac]
  | |- steps _ (ask _) => apply steps_ask
  | |- steps _ (await _) => apply steps_await
  | |- steps _ (tryCatch _ _) => apply steps_tryCatch; [|intros ?]
  | |- steps _ (functionBody _) => apply steps_functionBody
  | |- steps _ (existsSync _) => apply steps_existsSync
  | |- steps _ (existsNonEmpty _) => apply steps_existsNonEmpty
  | |- steps _ (writeFileSync _ _) => apply steps_writeFileSync
  | |- steps _ (unlinkSync _) => apply steps_unlinkSync
  | |- steps _ (unlinkIfExists _) => apply steps_unlinkIfExists
  | |- steps _ readTokenCache => apply steps_readTokenCache
  | |- steps (extends _) (writeTokenCache _ _) => apply steps_writeTokenCache_extends
  | |- steps _ (if ?b then _ else _) => destruct b
  | |- steps _ (match ?x with _ => _ end) => destruct x
  end.

Ltac steps_auto := repeat steps_step.

(** *** The helpers, for a relation that holds across every call *)

Section StepsHelpers.

Context {R : State -> State -> Prop} {HR : Frame R}.
Hypothesis every_call : forall c, callOk R c.
Variable w : World.

Lemma steps_sendMessage (chatId : Z) (reply : Reply) :
  steps R (sendMessage w chatId reply).
Proof. unfold sendMessage. steps_auto; apply every_call. Qed.

Lemma steps_downloadFile (url path : jsstring) : steps R (downloadFile w url path).
Proof. unfold downloadFile. steps_auto; apply every_call. Qed.

Lemma steps_ensureYtDlp (tmpDir : jsstring) : steps R (ensureYtDlp w tmpDir).
Proof. unfold ensureYtDlp. steps_auto. apply steps_downloadFile. Qed.

Lemma steps_proxyArgs : steps R (proxyArgs w).
Proof. unfold proxyArgs. steps_auto. Qed.

Lemma steps_getMetadataFromTool (queryOrUrl binaryPath : jsstring)
    (forceSource : option Source) :
  steps R (getMetadataFromTool w queryOrUrl binaryPath forceSource).
Proof.
  unfold getMetadataFromTool.
  apply steps_bind; [apply steps_proxyArgs|intros proxy].
  steps_auto; apply every_call.
Qed.

Lemma steps_searchArchiveOrg (query : jsstring) : steps R (searchArchiveOrg w query).
Proof. unfold searchArchiveOrg. steps_auto; apply every_call. Qed.

Lemma steps_getMetadata (queryOrUrl binaryPath : jsstring)
    (forceSource : option Source) :
  steps R (getMetadata w queryOrUrl binaryPath forceSource).
Proof.
  unfold getMetadata. destruct forceSource as [[]|];
    try apply steps_getMetadataFromTool.
  apply steps_bind; [apply steps_searchArchiveOrg|intros [hit|]];
    [apply steps_getMetadataFromTool|apply steps_ret].
Qed.

Lemma steps_createDeezerCookieFile (arl : option jsstring) (tmpDir : jsstring) :
  steps R (createDeezerCookieFile w arl tmpDir).
Proof. unfold createDeezerCookieFile. steps_auto. Qed.

Lemma steps_downloadFromDeezer (query binaryPath tmpDir : jsstring) :
  steps R (downloadFromDeezer w query binaryPath tmpDir).
Proof.
  unfold downloadFromDeezer.
  destruct (negb _); [apply steps_ret|].
  apply steps_bind; [steps_auto; apply every_call|intros [[|track tracks]|e]];
    try apply steps_ret.
  apply steps_bind; [apply steps_createDeezerCookieFile|intros [cookieFile|]];
    [|apply steps_ret].
  steps_auto; apply every_call.
Qed.

Section WithChat.

Variable chatId : Z.
Variable tmpDir lockFile : jsstring.

Lemma steps_readLinkTitle (s : jsstring) : steps R (readLinkTitle w chatId s).
Proof.
  unfold readLinkTitle.
  apply steps_bind; [steps_auto; apply every_call|intros response].
  destruct (exec titleRegex response); [|apply steps_throw].
  destruct (Str.isEmpty _); [apply steps_throw|].
  apply steps_bind; [apply steps_sendMessage|intros; apply steps_ret].
Qed.

Lemma steps_analyzeInput (s : jsstring) : steps R (analyzeInput w chatId lockFile s).
Proof.
  unfold analyzeInput.
  repeat lazymatch goal with
    | |- steps _ (if ?b then _ else _) => destruct b
    end;
    repeat first
      [ apply steps_sendMessage
      | apply steps_readLinkTitle
      | steps_step ].
Qed.

Lemma steps_searchTiers (input : Input) (binaryPath : jsstring) :
  steps R (searchTiers w chatId tmpDir lockFile input binaryPath).
Proof.
  unfold searchTiers, deezerTier, soundcloudTier, youtubeTier, archiveTier,
    chooseVideo.
  repeat first
    [ apply steps_sendMessage
    | apply steps_downloadFromDeezer
    | apply steps_getMetadata
    | steps_step ].
Qed.

Lemma steps_resolveAudio (input : Input) (binaryPath : jsstring) :
  steps R (resolveAudio w chatId tmpDir lockFile input binaryPath).
Proof.
  unfold resolveAudio. destruct (Str.truthy _); [|apply steps_searchTiers].
  apply steps_bind; [apply steps_getMetadata|intros; apply steps_ret].
Qed.

End WithChat.

End StepsHelpers.

(** *** The helpers, call by call *)

Section EmitsHelpers.

Variable P : Call -> Prop.
Variable w : World.

Lemma emits_sendMessage (chatId : Z) (reply : Reply) :
  P (SendMessage chatId reply) -> emits P (sendMessage w chatId reply).
Proof. intros H. unfold sendMessage. steps_auto. exact H. Qed.

Lemma emits_downloadFile (url path : jsstring) :
  P (DownloadFile url path) -> emits P (downloadFile w url path).
Proof. intros H. unfold downloadFile. steps_auto. exact H. Qed.

Lemma emits_ensureYtDlp (tmpDir : jsstring) :
  (forall url path, P (DownloadFile url path)) -> emits P (ensureYtDlp w tmpDir).
Proof.
  intros H. unfold ensureYtDlp. steps_auto. apply emits_downloadFile, H.
Qed.

Lemma emits_proxyArgs : emits P (proxyArgs w).
Proof. unfold proxyArgs. steps_auto. Qed.

Lemma emits_getSpotifyToken :
  (forall a b, P (SpotifyTokenRequest a b)) -> emits P (getSpotifyToken w).
Proof.
  intros H. unfold getSpotifyToken, requestSpotifyToken. steps_auto; apply H.
Qed.

Lemma emits_getSpotifyCover (trackName : jsstring) (artistName : option jsstring) :
  (forall a b, P (SpotifyTokenRequest a b)) ->
  (forall a b, P (SpotifySearch a b)) ->
  emits P (getSpotifyCover w trackName artistName).
Proof.
  intros H1 H2. unfold getSpotifyCover.
  apply steps_bind; [apply emits_getSpotifyToken, H1|intros token].
  steps_auto. apply H2.
Qed.

Lemma emits_getDeezerCover (query : jsstring) :
  P (DeezerCoverSearch query) -> emits P (getDeezerCover w query).
Proof. intros H. unfold getDeezerCover. steps_auto. exact H. Qed.

Lemma emits_findCover (query : jsstring) :
  (forall a b, P (SpotifyTokenRequest a b)) ->
  (forall a b, P (SpotifySearch a b)) ->
  (forall q, P (DeezerCoverSearch q)) ->
  emits P (findCover w query).
Proof.
  intros H1 H2 H3. unfold findCover.
  apply steps_bind; [|intros coverUrl; apply steps_bind; [|intros; apply steps_ret]].
  - destruct (Str.truthy _); [apply emits_getSpotifyCover; assumption|apply steps_ret].
  - destruct (Str.truthy _); [apply steps_ret|apply emits_getDeezerCover, H3].
Qed.

End EmitsHelpers.

(** ** The lock *)

Ltac unfold_monad :=
  cbv beta iota delta
    [bind ret exit throw tryCatch functionBody call ask await
     existsSync writeFileSync unlinkSync unlinkIfExists existsNonEmpty
     readTokenCache writeTokenCache sendMessage fst snd].

Lemma truthy_text (msg : Message) (s : jsstring) :
  text msg = Some s -> s <> [] -> Str.truthy (text msg) = true.
Proof. intros -> Hs. destruct s; [congruence|reflexivity]. Qed.

Lemma handleSearchMode_locked (w : World) (msg : Message) (st : State) :
  is_Some (files st !! lockFileOf w (chat_id msg)) ->
  handleSearchMode w msg st = (Normal tt, st).
Proof.
  intros Hlock. unfold handleSearchMode.
  destruct (Str.truthy (text msg)); [|reflexivity].
  cbn [negb]. unfold_monad.
  rewrite bool_decide_eq_true_2 by exact Hlock. reflexivity.
Qed.

(** C9: a message for a chat whose lock file is present is dropped: the
    handler returns at once and the state (files, token cache, calls made,
    clock) is the state it was entered with. *)
Theorem C9_locked_chat_is_ignored (w : World) (msg : Message) (st : State) :
  is_Some (files st !! lockFileOf w (chat_id msg)) ->
  handleSearchMode w msg st = (Normal tt, st).
Proof. apply handleSearchMode_locked. Qed.

Lemma C9_witness :
  handleSearchMode Example.plain (Example.message (js "Hello")) Example.busy =
  (Normal tt, Example.busy).
Proof.
  apply (C9_locked_chat_is_ignored Example.plain (Example.message (js "Hello")) Example.busy).
  exists (js "processing"). vm_compute. reflexivity.
Defined.

(** ** Classification of the input *)

Lemma test_nonempty (r : regex) (s : jsstring) :
  test r [] = false -> test r s = true -> s <> [].
Proof. intros H0 H1 ->. congruence. Qed.

(** C7: a text that matches the URL pattern and not the DSP pattern is
    rejected at once.  Every call of the run is a message to the user, so
    that no resolver, download or cover lookup is invoked; in a run that
    takes the lock the first call sends the explanation, and when the chat
    accepts it that is the only call, the run ends normally and the lock is
    gone again. *)
Theorem C7_non_dsp_url_is_rejected (w : World) (msg : Message) (st : State)
    (s : jsstring) :
  text msg = Some s ->
  test urlRegex s = true ->
  test dspRegex s = false ->
  let final := snd (handleSearchMode w msg st) in
  (exists new,
     calls final = (calls st ++ new)%list /\ Forall isSendMessage new) /\
  (files st !! lockFileOf w (chat_id msg) = None ->
   exists rest,
     calls final = (calls st ++ SendMessage (chat_id msg) NonMusicLink :: rest)%list) /\
  (files st !! lockFileOf w (chat_id msg) = None ->
   forall mid,
     bot_sendMessage w (clock st) (chat_id msg) NonMusicLink = Ok mid ->
     handleSearchMode w msg st =
       (Normal tt,
        {| files := files st;
           spotifyTokenCache := spotifyTokenCache st;
           spotifyTokenExpiry := spotifyTokenExpiry st;
           calls := (calls st ++ [SendMessage (chat_id msg) NonMusicLink])%list;
           clock := S (clock st) |})).
Proof.
  intros Htext Hurl Hdsp.
  destruct (files st !! lockFileOf w (chat_id msg)) as [content|] eqn:Hfree.
  { (* the chat is locked: nothing is called *)
    cbn zeta.
    rewrite (handleSearchMode_locked w msg st) by (rewrite Hfree; eauto).
    cbn [snd]. split; [|split; intros H; discriminate].
    exists []. rewrite app_nil_r. split; [reflexivity|constructor]. }
  assert (Hne : s <> []) by (eapply test_nonempty; [|exact Hurl]; reflexivity).
  unfold handleSearchMode.
  rewrite (truthy_text msg s Htext Hne), Htext. cbn [negb Str.get default from_option id].
  unfold pipeline, analyzeInput. rewrite Hurl, Hdsp. cbn [andb negb].
  unfold_monad. cbn [files setFiles recordCall clock calls].
  rewrite bool_decide_eq_false_2 by (rewrite Hfree; apply is_Some_None).
  cbn [files setFiles recordCall clock calls].
  destruct (bot_sendMessage w (clock st) (chat_id msg) NonMusicLink) as [mid|e] eqn:Hsend.
  - cbn [files setFiles recordCall clock calls].
    rewrite bool_decide_eq_true_2 by (rewrite lookup_insert_eq; eauto).
    cbn [files setFiles recordCall clock calls snd].
    split; [|split].
    + exists [SendMessage (chat_id msg) NonMusicLink].
      split; [reflexivity|repeat constructor].
    + intros _. exists []. reflexivity.
    + intros _ mid' _. f_equal. unfold setFiles. cbn. f_equal.
      rewrite delete_insert_eq. apply delete_id. exact Hfree.
  - unfold onError. unfold_monad. cbn [files setFiles recordCall clock calls].
    destruct (bot_sendMessage w (S (clock st)) (chat_id msg) (ErrorReply e));
      cbn [files setFiles recordCall clock calls snd];
      [match goal with |- context [bool_decide ?P] => destruct (bool_decide P) end;
       cbn [files setFiles recordCall clock calls snd]|];
      (split; [|split; [|intros _ mid' H; discriminate]];
       [exists [SendMessage (chat_id msg) NonMusicLink;
                SendMessage (chat_id msg) (ErrorReply e)];
        split; [rewrite <- app_assoc; reflexivity|repeat constructor]
       |intros _; exists [SendMessage (chat_id msg) (ErrorReply e)];
        rewrite <- app_assoc; reflexivity]).
Qed.

Lemma C7_witness :
  handleSearchMode Example.plain (Example.message (js "https://example.com/page"))
    Example.fresh =
  (Normal tt,
   {| files := files Example.fresh;
      spotifyTokenCache := None; spotifyTokenExpiry := 0;
      calls := [SendMessage 42 NonMusicLink]; clock := 1 |}).
Proof.
  refine (proj2 (proj2 (C7_non_dsp_url_is_rejected Example.plain
                          (Example.message (js "https://example.com/page"))
                          Example.fresh (js "https://example.com/page") _ _ _))
            _ 0%Z _);
    vm_compute; reflexivity.
Defined.

(** C1 fails on the code.  A bare YouTube URL matches the URL pattern and not
    the DSP pattern, and the guard that rejects the URLs that are no DSP
    links comes before the branch for YouTube links and makes no exception
    for them: the only call of the run is the rejection as a non-music
    link, no metadata is fetched.  The branch for YouTube links, which
    treats its text as a direct URL, is only reached by a text that does not
    match the URL pattern (see [youtube_text_outside_url_pattern]). *)
Theorem C1_bare_youtube_url_is_rejected :
  test urlRegex (js "https://www.youtube.com/watch?v=dQw4w9WgXcQ") = true /\
  test youtubeRegex (js "https://www.youtube.com/watch?v=dQw4w9WgXcQ") = true /\
  test dspRegex (js "https://www.youtube.com/watch?v=dQw4w9WgXcQ") = false /\
  handleSearchMode Example.plain
    (Example.message (js "https://www.youtube.com/watch?v=dQw4w9WgXcQ")) Example.fresh =
  (Normal tt,
   {| files := ∅; spotifyTokenCache := None; spotifyTokenExpiry := 0;
      calls := [SendMessage 42 NonMusicLink]; clock := 1 |}).
Proof. repeat split; vm_compute; reflexivity. Qed.

(** ** Direct URLs *)

Section Direct.

Variable w : World.
Variable chatId : Z.
Variable tmpDir lockFile : jsstring.
Variable s : jsstring.

Lemma emits_getMetadata_direct (binaryPath : jsstring) :
  emits (directCall s) (getMetadata w s binaryPath None).
Proof.
  unfold getMetadata, getMetadataFromTool.
  apply steps_bind; [apply emits_proxyArgs|intros proxy].
  steps_auto. cbn [directCall app hd_error].
  destruct (test schemeRegex s); reflexivity.
Qed.

Lemma emits_mergeStep (imagePath audioPath outputPath : jsstring) :
  emits (directCall s) (mergeStep w imagePath audioPath outputPath).
Proof. unfold mergeStep. steps_auto; exact I. Qed.

Lemma emits_deliver_direct (binaryPath : jsstring) (videoTitle : option jsstring)
    (coverUrl : jsstring) :
  emits (directCall s)
    (deliver w chatId tmpDir lockFile binaryPath (Some s) videoTitle coverUrl).
Proof.
  unfold deliver.
  apply steps_bind; [apply emits_sendMessage; exact I|intros _].
  do 3 (apply steps_bind; [apply steps_ask|intros ?]).
  apply steps_bind.
  { apply steps_tryCatch; [apply emits_downloadFile; exact I|intros; apply steps_ret]. }
  intros _. apply steps_bind; [apply emits_proxyArgs|intros proxy].
  apply steps_bind; [apply steps_call, callOk_extends; reflexivity|intros res].
  apply steps_bind; [steps_auto|intros _].
  apply steps_bind; [steps_auto|intros _].
  apply steps_bind; [steps_auto|intros _].
  apply steps_bind; [steps_auto|intros audioExists].
  apply steps_bind; [steps_auto|intros imageExists].
  destruct (negb audioExists); [apply steps_throw|].
  destruct (negb imageExists); [apply steps_throw|].
  apply steps_bind; [apply emits_sendMessage; exact I|intros messageId].
  apply steps_bind; [steps_auto; exact I|intros _].
  apply steps_bind; [apply emits_mergeStep|intros _].
  apply steps_bind; [apply emits_sendMessage; exact I|intros _].
  steps_auto. exact I.
Qed.

Lemma emits_onError (P : Call -> Prop) (message : jsstring) :
  P (SendMessage chatId (ErrorReply message)) ->
  emits P (onError w chatId lockFile message).
Proof.
  intros H. unfold onError.
  apply steps_bind; [apply emits_sendMessage, H|intros; apply steps_unlinkIfExists].
Qed.

Lemma emits_directPipeline :
  emits (directCall s) (directPipeline w chatId tmpDir lockFile s).
Proof.
  unfold directPipeline.
  apply steps_bind; [apply emits_ensureYtDlp; intros; exact I|intros binaryPath].
  apply steps_bind; [apply emits_getMetadata_direct|intros meta].
  apply steps_bind; [apply emits_findCover; intros; exact I|intros coverUrl].
  apply emits_deliver_direct.
Qed.

(** With a text that contains a YouTube host and matches neither the URL
    pattern nor the DSP pattern, step 1 announces a YouTube link and the rest
    of the [try] block is the pipeline of a direct URL. *)
Lemma pipeline_youtube_text (st : State) :
  s <> [] ->
  test youtubeRegex s = true ->
  test urlRegex s = false ->
  test dspRegex s = false ->
  pipeline w chatId tmpDir lockFile s st =
  (sendMessage w chatId ProcessingYouTubeLink;;;
   directPipeline w chatId tmpDir lockFile s) st.
Proof.
  intros Hne Hyt Hurl Hdsp.
  unfold pipeline, analyzeInput, directPipeline.
  rewrite Hyt, Hurl, Hdsp. cbn [andb negb].
  rewrite bind_assoc. apply bind_ext. intros _ st1.
  rewrite bind_ret_l. apply bind_ext. intros binaryPath st2.
  unfold resolveAudio. cbn [directUrl query Str.truthy default Str.get].
  destruct s; [congruence|]. cbn [Str.isEmpty negb].
  rewrite bind_assoc. apply bind_ext. intros meta st3.
  rewrite bind_ret_l. reflexivity.
Qed.

End Direct.

Lemma sendMessage_run (w : World) (chatId : Z) (reply : Reply) (st : State) :
  sendMessage w chatId reply st =
  match bot_sendMessage w (clock st) chatId reply with
  | Ok mid => (Normal mid, recordCall (SendMessage chatId reply) st)
  | Err e => (Thrown e, recordCall (SendMessage chatId reply) st)
  end.
Proof.
  unfold sendMessage, await, bind, call, ret, throw.
  destruct (bot_sendMessage w (clock st) chatId reply); reflexivity.
Qed.

Lemma tryCatch_bind_Normal {A B : Type} (m : M A) (k : A -> M B)
    (h : jsstring -> M B) (st st1 : State) (a : A) :
  m st = (Normal a, st1) -> tryCatch (bind m k) h st = tryCatch (k a) h st1.
Proof. intros H. unfold tryCatch, bind. rewrite H. reflexivity. Qed.

Lemma tryCatch_bind_Thrown {A B : Type} (m : M A) (k : A -> M B)
    (h : jsstring -> M B) (st st1 : State) (e : jsstring) :
  m st = (Thrown e, st1) -> tryCatch (bind m k) h st = h e st1.
Proof. intros H. unfold tryCatch, bind. rewrite H. reflexivity. Qed.

(** The run of a message with a text, for a chat that is not locked: the
    lock is written and the [try] block runs. *)
Lemma handleSearchMode_unlocked (w : World) (msg : Message) (st : State)
    (s : jsstring) :
  text msg = Some s ->
  s <> [] ->
  files st !! lockFileOf w (chat_id msg) = None ->
  handleSearchMode w msg st =
  functionBody
    (tryCatch (pipeline w (chat_id msg) (tmpdir w) (lockFileOf w (chat_id msg)) s)
              (onError w (chat_id msg) (lockFileOf w (chat_id msg))))
    (setFiles (<[lockFileOf w (chat_id msg) := (js "processing")]> (files st)) st).
Proof.
  intros Htext Hne Hfree. unfold handleSearchMode.
  rewrite (truthy_text msg s Htext Hne), Htext. cbn [negb Str.get default from_option id].
  unfold bind at 1. unfold existsSync.
  rewrite bool_decide_eq_false_2 by (rewrite Hfree; apply is_Some_None).
  reflexivity.
Qed.

(** The branch for YouTube links.  A text that contains [youtube.com] or
    [youtu.be], is no DSP link and does not match the URL pattern (a link
    without scheme, or with words around it) is treated as a direct URL.
    The run, once it has the lock, announces a YouTube link and goes on as
    the pipeline of a direct URL: the metadata of that exact text, no
    search tier, no relevance filter.  Every later call of the run is a call
    of that pipeline or the error reply: the tool is only ever run on the
    text itself, and neither the Deezer track search nor the Archive search
    is asked. *)
Lemma youtube_text_outside_url_pattern (w : World) (msg : Message) (st : State)
    (s : jsstring) :
  text msg = Some s ->
  test youtubeRegex s = true ->
  test urlRegex s = false ->
  test dspRegex s = false ->
  files st !! lockFileOf w (chat_id msg) = None ->
  let chatId := chat_id msg in
  let lockFile := lockFileOf w chatId in
  handleSearchMode w msg st =
    functionBody
      (tryCatch (sendMessage w chatId ProcessingYouTubeLink;;;
                 directPipeline w chatId (tmpdir w) lockFile s)
                (onError w chatId lockFile))
      (setFiles (<[lockFile := (js "processing")]> (files st)) st) /\
  exists rest,
    calls (snd (handleSearchMode w msg st)) =
      (calls st ++ SendMessage chatId ProcessingYouTubeLink :: rest)%list /\
    Forall (directCall s) rest.
Proof.
  intros Htext Hyt Hurl Hdsp Hfree chatId lockFile.
  assert (Hne : s <> []) by (eapply test_nonempty; [|exact Hyt]; reflexivity).
  assert (Hrun : handleSearchMode w msg st =
    functionBody
      (tryCatch (sendMessage w chatId ProcessingYouTubeLink;;;
                 directPipeline w chatId (tmpdir w) lockFile s)
                (onError w chatId lockFile))
      (setFiles (<[lockFile := (js "processing")]> (files st)) st)).
  { rewrite (handleSearchMode_unlocked w msg st s Htext Hne Hfree).
    unfold functionBody, tryCatch. fold chatId lockFile.
    rewrite (pipeline_youtube_text w chatId (tmpdir w) lockFile s _ Hne Hyt Hurl Hdsp).
    reflexivity. }
  split; [exact Hrun|]. rewrite Hrun.
  set (locked := setFiles (<[lockFile := (js "processing")]> (files st)) st).
  pose proof (sendMessage_run w chatId ProcessingYouTubeLink locked) as Hsend.
  assert (Hdirect : emits (directCall s)
            (functionBody (tryCatch (directPipeline w chatId (tmpdir w) lockFile s)
                                    (onError w chatId lockFile)))).
  { apply steps_functionBody, steps_tryCatch;
      [apply emits_directPipeline|intros e; apply emits_onError; exact I]. }
  assert (Hfailed : forall e, emits (directCall s)
            (functionBody (onError w chatId lockFile e))).
  { intros e. apply steps_functionBody, emits_onError. exact I. }
  unfold functionBody at 1.
  destruct (bot_sendMessage w (clock locked) chatId ProcessingYouTubeLink) as [mid|e].
  - rewrite (tryCatch_bind_Normal _ _ _ _ _ _ Hsend).
    destruct (Hdirect (recordCall (SendMessage chatId ProcessingYouTubeLink) locked))
      as (rest & Hcalls & Hrest).
    exists rest. split; [|exact Hrest].
    unfold functionBody in Hcalls. rewrite Hcalls.
    cbn [recordCall calls locked setFiles]. rewrite <- app_assoc. reflexivity.
  - rewrite (tryCatch_bind_Thrown _ _ _ _ _ _ Hsend).
    destruct (Hfailed e (recordCall (SendMessage chatId ProcessingYouTubeLink) locked))
      as (rest & Hcalls & Hrest).
    exists rest. split; [|exact Hrest].
    unfold functionBody in Hcalls. rewrite Hcalls.
    cbn [recordCall calls locked setFiles]. rewrite <- app_assoc. reflexivity.
Qed.

Lemma youtube_text_outside_url_pattern_example :
  exists rest,
    calls (snd (handleSearchMode Example.plain (Example.message (js "youtu.be/dQw4w9WgXcQ"))
                  Example.fresh)) =
      ([] ++ SendMessage 42 ProcessingYouTubeLink :: rest)%list /\
    Forall (directCall (js "youtu.be/dQw4w9WgXcQ")) rest.
Proof.
  refine (proj2 (youtube_text_outside_url_pattern Example.plain
                   (Example.message (js "youtu.be/dQw4w9WgXcQ")) Example.fresh
                   (js "youtu.be/dQw4w9WgXcQ") _ _ _ _ _));
    vm_compute; reflexivity.
Defined.

(** ** The resolution tiers *)

Section Tiers.

Variable w : World.
Variable chatId : Z.
Variable tmpDir lockFile : jsstring.

(** C4: with the Deezer credential configured, a metadata result of
    [downloadFromDeezer] for the query is the answer of the resolution, be
    its title relevant to the request or not; the state in which the answer
    is given is the state in which [downloadFromDeezer] returned, so that
    nothing was called after it: no SoundCloud, YouTube or Archive
    resolver. *)
Theorem C4_deezer_result_is_the_answer (input : Input) (binaryPath : jsstring)
    (st st1 : State) (meta : Metadata) :
  Str.truthy (DEEZER_ARL w) = true ->
  Str.truthy (directUrl input) = false ->
  downloadFromDeezer w (query input) binaryPath tmpDir st = (Normal (Some meta), st1) ->
  resolveAudio w chatId tmpDir lockFile input binaryPath st =
    (Normal (url meta, title meta), st1) /\
  searchTiers w chatId tmpDir lockFile input binaryPath st =
    (Normal (url meta, title meta), st1) /\
  calls (snd (resolveAudio w chatId tmpDir lockFile input binaryPath st)) =
    calls (snd (downloadFromDeezer w (query input) binaryPath tmpDir st)).
Proof.
  intros Harl Hdirect Hdeezer.
  assert (Hsearch : searchTiers w chatId tmpDir lockFile input binaryPath st =
                    (Normal (url meta, title meta), st1)).
  { unfold searchTiers, deezerTier. rewrite Harl.
    rewrite (bind_Normal _ _ _ _ _ Hdeezer). reflexivity. }
  assert (Hresolve : resolveAudio w chatId tmpDir lockFile input binaryPath st =
                     (Normal (url meta, title meta), st1)).
  { unfold resolveAudio. rewrite Hdirect. exact Hsearch. }
  repeat split; [exact Hresolve|exact Hsearch|].
  rewrite Hresolve, Hdeezer. reflexivity.
Qed.

(** C5, as stated, fails: a SoundCloud result whose title is the requested
    one and whose reported duration is 0 seconds, under 45, is kept. *)
Lemma C5_zero_duration_counterexample :
  let input := Example.freeText (js "Hello World") in
  let found :=
    {| title := Some (js "Hello World");
       url := Some (js "https://soundcloud.example/hello-world");
       duration := Some (0 # 1);
       extractor := Some (js "soundcloud") |} in
  let st1 := snd (getMetadata Example.zeroDuration (query input) (js "/tmp/yt-dlp")
                    (Some soundcloud) Example.fresh) in
  getMetadata Example.zeroDuration (query input) (js "/tmp/yt-dlp") (Some soundcloud)
    Example.fresh = (Normal (Some found), st1) /\
  isStrictMatch (title found) (trackNameForCheck input) (artistForCheck input) = true /\
  (0 # 1 < 45)%Q /\
  soundcloudTier Example.zeroDuration input (js "/tmp/yt-dlp") None Example.fresh =
    (Normal (Some found), st1).
Proof. repeat split. Qed.

(** C5, amended: a SoundCloud result is cleared, so that the pipeline goes on
    to YouTube, if and only if it fails [isStrictMatch] against the track and
    artist of the request or reports a duration that is not zero and is under
    45 seconds; otherwise it is kept.  When it is cleared after Deezer gave
    nothing, the search continues with the YouTube fetch from the state the
    SoundCloud fetch left.  A result of 30 seconds is cleared whatever its
    title. *)
Theorem C5_soundcloud_result_is_filtered (input : Input) (binaryPath : jsstring)
    (st st1 : State) (found : Metadata) :
  getMetadata w (query input) binaryPath (Some soundcloud) st =
    (Normal (Some found), st1) ->
  let cleared :=
    isStrictMatch (title found) (trackNameForCheck input) (artistForCheck input)
      = false \/
    exists d, duration found = Some d /\ ~ (d == 0)%Q /\ (d < 45)%Q in
  (cleared ->
   soundcloudTier w input binaryPath None st = (Normal None, st1)) /\
  (~ cleared ->
   soundcloudTier w input binaryPath None st = (Normal (Some found), st1)) /\
  (soundcloudTier w input binaryPath None st = (Normal None, st1) -> cleared) /\
  (forall st0,
     deezerTier w tmpDir input binaryPath st0 = (Normal None, st) ->
     cleared ->
     searchTiers w chatId tmpDir lockFile input binaryPath st0 =
       (meta <- getMetadata w (query input) binaryPath (Some youtube);;
        meta <- archiveTier w input binaryPath meta;;
        chooseVideo w chatId lockFile meta) st1) /\
  ((exists d, duration found = Some d /\ (d == 30)%Q) ->
   soundcloudTier w input binaryPath None st = (Normal None, st1)).
Proof.
  intros Hsc cleared.
  assert (Hcode : soundcloudTier w input binaryPath None st =
    (Normal (if negb (isStrictMatch (title found) (trackNameForCheck input)
                        (artistForCheck input)) || isPreview found
             then None else Some found), st1)).
  { unfold soundcloudTier. rewrite (bind_Normal _ _ _ _ _ Hsc).
    destruct (negb _ || isPreview found); reflexivity. }
  assert (Hiff : negb (isStrictMatch (title found) (trackNameForCheck input)
                         (artistForCheck input)) || isPreview found = true
                 <-> cleared).
  { unfold cleared, isPreview, truthyNumber.
    destruct (isStrictMatch _ _ _); cbn [negb orb].
    - destruct (duration found) as [d|].
      + split.
        * intros H. apply andb_true_iff in H as [Hnz Hlt]. right. exists d.
          split; [reflexivity|]. split.
          -- intros Heq. apply Qeq_bool_iff in Heq. rewrite Heq in Hnz. discriminate.
          -- apply Qnot_le_lt. intros Hle. apply Qle_bool_iff in Hle.
             rewrite Hle in Hlt. discriminate.
        * intros [H|(d' & Hd & Hnz & Hlt)]; [discriminate|].
          injection Hd as <-. apply andb_true_iff. split.
          -- apply negb_true_iff. destruct (Qeq_bool d 0) eqn:E; [|reflexivity].
             apply Qeq_bool_iff in E. contradiction.
          -- apply negb_true_iff. destruct (Qle_bool 45 d) eqn:E; [|reflexivity].
             apply Qle_bool_iff in E. apply Qle_not_lt in E. contradiction.
      + split; [discriminate|].
        intros [H|(d' & Hd & _)]; discriminate.
    - split; [left; reflexivity|reflexivity]. }
  assert (Hyes : cleared -> soundcloudTier w input binaryPath None st = (Normal None, st1)).
  { intros Hc. apply Hiff in Hc. rewrite Hcode, Hc. reflexivity. }
  split; [exact Hyes|]. split; [|split; [|split]].
  - intros Hc. rewrite Hcode.
    destruct (negb _ || isPreview found) eqn:E; [|reflexivity].
    exfalso. apply Hc, Hiff. reflexivity.
  - rewrite Hcode. destruct (negb _ || isPreview found) eqn:E.
    + intros _. apply Hiff. reflexivity.
    + intros H. discriminate.
  - intros st0 Hdeezer Hc. unfold searchTiers.
    rewrite (bind_Normal _ _ _ _ _ Hdeezer).
    rewrite (bind_Normal _ _ _ _ _ (Hyes Hc)). reflexivity.
  - intros (d & Hd & H30). apply Hyes. right. exists d.
    split; [exact Hd|]. rewrite H30. split; [intros H; discriminate|reflexivity].
Qed.

End Tiers.

Lemma checkDocs_first (query : jsstring) (before after : list ArchiveDoc)
    (doc : ArchiveDoc) :
  Forall (fun d => isStrictMatchValue (doc_title d) query = Ok false) before ->
  isStrictMatchValue (doc_title doc) query = Ok true ->
  checkDocs query (before ++ doc :: after) = Ok (Some (archiveHit doc)).
Proof.
  intros Hbefore Hdoc.
  induction Hbefore as [|d before Hd _ IH]; cbn [app checkDocs].
  - rewrite Hdoc. reflexivity.
  - rewrite Hd. exact IH.
Qed.

Lemma firstRelevantDoc_first (query : jsstring) (before after : list ArchiveDoc)
    (doc : ArchiveDoc) :
  Forall (fun d => isStrictMatchValue (doc_title d) query = Ok false) before ->
  isStrictMatchValue (doc_title doc) query = Ok true ->
  firstRelevantDoc query (before ++ doc :: after) = Some (archiveHit doc).
Proof.
  intros Hbefore Hdoc. unfold firstRelevantDoc.
  rewrite (checkDocs_first query before after doc Hbefore Hdoc). reflexivity.
Qed.

Lemma firstRelevantDoc_none (query : jsstring) (docs : list ArchiveDoc) :
  Forall (fun d => isStrictMatchValue (doc_title d) query <> Ok true) docs ->
  firstRelevantDoc query docs = None.
Proof.
  intros Hall. unfold firstRelevantDoc.
  induction Hall as [|d rest Hd _ IH]; cbn [checkDocs]; [reflexivity|].
  destruct (isStrictMatchValue (doc_title d) query) as [[|]|e];
    [congruence|exact IH|reflexivity].
Qed.

(** The check on a title that is a string or a falsy value is the check of
    [isStrictMatch] on the string, or on a missing title: it does not
    throw. *)
Lemma isStrictMatchValue_text (resultTitle : JsonValue) (query : jsstring) :
  (exists s, resultTitle = JsonString s) \/ jsTruthy resultTitle = false ->
  isStrictMatchValue resultTitle query =
  Ok (isStrictMatch (asString resultTitle) query None).
Proof.
  intros [[s ->]|Hfalsy]; unfold isStrictMatchValue.
  - cbn [jsTruthy asString isStrictMatch].
    destruct s as [|c s]; [reflexivity|]. cbn [Str.isEmpty negb orb].
    destruct query; reflexivity.
  - rewrite Hfalsy. cbn [negb orb].
    destruct resultTitle as [s| | | | |]; cbn [asString isStrictMatch]; try reflexivity.
    destruct s; [reflexivity|discriminate].
Qed.

(** C6, as stated, fails: the title of a document is not always a string.
    The archive answers with two documents; the title of the first is an
    array, the title of the second passes the check.  The check throws on
    the first, the [catch] takes over, and the result is [null]: the second
    document is not returned. *)
Lemma C6_untyped_title_counterexample :
  archive_search Example.withUntypedTitle (clock Example.fresh) (js "blue moon") =
    Ok [ {| doc_identifier := js "b1"; doc_title := JsonArray |};
         {| doc_identifier := js "b2"; doc_title := JsonString (js "Blue Moon") |} ] /\
  isStrictMatchValue JsonArray (js "blue moon") =
    Err (js "resultTitle.toLowerCase is not a function") /\
  isStrictMatchValue (JsonString (js "Blue Moon")) (js "blue moon") = Ok true /\
  searchArchiveOrg Example.withUntypedTitle (js "blue moon") Example.fresh =
    (Normal None, recordCall (ArchiveSearch (js "blue moon")) Example.fresh).
Proof. repeat split; vm_compute; reflexivity. Qed.

(** C6, amended: [searchArchiveOrg] returns the first document of the
    answer, in the order of the answer, whose title passes [isStrictMatch]
    against the query, whatever documents follow it, provided the check
    returns [false] on every document before it (it does not throw there:
    it does not on a title that is a string or a falsy value); and it
    returns [null] when no document of the answer passes. *)
Theorem C6_archive_takes_first_relevant (w : World) (query : jsstring)
    (st : State) (docs : list ArchiveDoc) :
  archive_search w (clock st) query = Ok docs ->
  (forall before doc after,
     docs = (before ++ doc :: after)%list ->
     Forall (fun d => isStrictMatchValue (doc_title d) query = Ok false) before ->
     isStrictMatchValue (doc_title doc) query = Ok true ->
     fst (searchArchiveOrg w query st) = Normal (Some (archiveHit doc))) /\
  (Forall (fun d => isStrictMatchValue (doc_title d) query <> Ok true) docs ->
   fst (searchArchiveOrg w query st) = Normal None) /\
  (forall d,
     (exists s, doc_title d = JsonString s) \/ jsTruthy (doc_title d) = false ->
     isStrictMatchValue (doc_title d) query =
     Ok (isStrictMatch (asString (doc_title d)) query None)).
Proof.
  intros Hdocs.
  assert (Hrun : fst (searchArchiveOrg w query st) = Normal (firstRelevantDoc query docs)).
  { unfold searchArchiveOrg, bind, call, ret. cbn [fst]. rewrite Hdocs. reflexivity. }
  rewrite Hrun. split; [|split].
  - intros before doc after -> Hbefore Hdoc. f_equal.
    apply firstRelevantDoc_first; assumption.
  - intros Hall. f_equal. apply firstRelevantDoc_none, Hall.
  - intros d Hd. apply isStrictMatchValue_text, Hd.
Qed.

Lemma C4_witness :
  exists meta st1,
    resolveAudio Example.withDeezer 42 (js "/tmp") (js "/tmp/lock_search_42.lock")
      (Example.freeText (js "harder better faster stronger")) (js "/tmp/yt-dlp_linux_new")
      Example.fresh = (Normal (url meta, title meta), st1) /\
    extractor meta = Some (js "deezer") /\
    isStrictMatch (title meta) (js "harder better faster stronger") None = false.
Proof.
  eexists _, _. split; [|split].
  - refine (proj1 (C4_deezer_result_is_the_answer Example.withDeezer 42 (js "/tmp")
                     (js "/tmp/lock_search_42.lock")
                     (Example.freeText (js "harder better faster stronger"))
                     (js "/tmp/yt-dlp_linux_new") Example.fresh _ _ _ _ _));
      vm_compute; reflexivity.
  - reflexivity.
  - reflexivity.
Defined.

Lemma C5_witness :
  exists st1,
    soundcloudTier Example.preview (Example.freeText (js "Hello World"))
      (js "/tmp/yt-dlp_linux_new") None Example.fresh = (Normal None, st1).
Proof.
  eexists.
  refine (proj2 (proj2 (proj2 (proj2
            (C5_soundcloud_result_is_filtered Example.preview 42 (js "/tmp")
               (js "/tmp/lock_search_42.lock") (Example.freeText (js "Hello World"))
               (js "/tmp/yt-dlp_linux_new") Example.fresh _
               {| title := Some (js "Hello World");
                  url := Some (js "https://soundcloud.example/hello-world");
                  duration := Some (30 # 1);
                  extractor := Some (js "soundcloud") |} _)))) _).
  - vm_compute. reflexivity.
  - exists (30 # 1). split; reflexivity.
Defined.

Lemma C6_witness :
  fst (searchArchiveOrg Example.withArchive (js "blue moon") Example.fresh) =
  Normal (Some {| hit_title := Some (js "Blue Moon (1949)");
                  hit_url := js "https://archive.org/details/a2";
                  hit_extractor := js "archive.org" |}).
Proof.
  refine (proj1 (C6_archive_takes_first_relevant Example.withArchive (js "blue moon")
                   Example.fresh Example.archiveDocs _)
            [ {| doc_identifier := js "a1"; doc_title := JsonString (js "Red Sun") |} ]
            {| doc_identifier := js "a2";
               doc_title := JsonString (js "Blue Moon (1949)") |}
            [ {| doc_identifier := js "a3"; doc_title := JsonString (js "Blue Moon") |} ]
            _ _ _).
  - reflexivity.
  - reflexivity.
  - constructor; [reflexivity|constructor].
  - reflexivity.
Defined.

(** ** The cover *)

Lemma bind_Normal_inv {A B : Type} (m : M A) (f : A -> M B) (st st' : State)
    (b : B) :
  bind m f st = (Normal b, st') ->
  exists a st1, m st = (Normal a, st1) /\ f a st1 = (Normal b, st').
Proof.
  unfold bind. destruct (m st) as [[a| |e] st1]; [|discriminate|discriminate].
  intros H. exists a, st1. split; [reflexivity|exact H].
Qed.

(** Two computations whose first parts end alike and whose continuations end
    alike from any two states end alike. *)
Lemma bind_agree {A B : Type} (m1 m2 : M A) (f1 f2 : A -> M B) (s1 s2 : State) :
  fst (m1 s1) = fst (m2 s2) ->
  (forall a s1' s2', fst (f1 a s1') = fst (f2 a s2')) ->
  fst (bind m1 f1 s1) = fst (bind m2 f2 s2).
Proof.
  intros Hm Hf. unfold bind.
  destruct (m1 s1) as [o1 s1'], (m2 s2) as [o2 s2']. cbn [fst] in Hm. subst o2.
  destruct o1 as [a| |e]; [apply Hf|reflexivity|reflexivity].
Qed.

(** The [try] block resolves everything, then delivers. *)
Lemma pipeline_resolveAll (w : World) (chatId : Z) (tmpDir lockFile s : jsstring)
    (st : State) :
  pipeline w chatId tmpDir lockFile s st =
  (r <- resolveAll w chatId tmpDir lockFile s;;
   deliver w chatId tmpDir lockFile (r_binaryPath r) (r_videoUrl r)
     (r_videoTitle r) (r_coverUrl r)) st.
Proof.
  unfold pipeline, resolveAll.
  rewrite bind_assoc. apply bind_ext. intros input st1.
  rewrite bind_assoc. apply bind_ext. intros binaryPath st2.
  rewrite bind_assoc. apply bind_ext. intros video st3.
  rewrite bind_assoc. apply bind_ext. intros coverUrl st4.
  rewrite bind_ret_l. reflexivity.
Qed.

Section Cover.

Variables w1 w2 : World.
Hypothesis catalogs : sameCatalogs w1 w2.

Lemma getSpotifyToken_agree (s1 s2 : State) :
  spotifyTokenCache s1 = spotifyTokenCache s2 ->
  findsTokenValid w1 s1 = findsTokenValid w2 s2 ->
  fst (getSpotifyToken w1 s1) = fst (getSpotifyToken w2 s2).
Proof.
  intros Hcache Hvalid.
  destruct catalogs as (Hid & Hsecret & Htoken & _).
  unfold getSpotifyToken. rewrite <- Hid, <- Hsecret.
  destruct (negb _ || negb _); [reflexivity|].
  assert (Hrequest : forall a b s1' s2',
            fst (requestSpotifyToken w1 a b s1') = fst (requestSpotifyToken w2 a b s2')).
  { intros a b s1' s2'. unfold requestSpotifyToken, bind, call, ask, ret,
      writeTokenCache. cbn [fst snd].
    rewrite (Htoken (clock s1') (clock s2') a b).
    destruct (spotify_token w2 (clock s2') a b); reflexivity. }
  unfold findsTokenValid in Hvalid. rewrite <- Hcache in Hvalid.
  unfold bind at 1 3. unfold readTokenCache. cbn [fst snd]. rewrite <- Hcache.
  destruct (Str.truthy (spotifyTokenCache s1)) eqn:Htruthy; [|apply Hrequest].
  cbn [andb] in Hvalid.
  unfold bind, ask. cbn [fst snd]. rewrite Hvalid.
  destruct (Date_now w2 (clock s2) <? spotifyTokenExpiry s2)%Z;
    [reflexivity|apply Hrequest].
Qed.

Lemma getSpotifyCover_agree (trackName : jsstring) (artistName : option jsstring)
    (s1 s2 : State) :
  spotifyTokenCache s1 = spotifyTokenCache s2 ->
  findsTokenValid w1 s1 = findsTokenValid w2 s2 ->
  fst (getSpotifyCover w1 trackName artistName s1) =
  fst (getSpotifyCover w2 trackName artistName s2).
Proof.
  intros Hcache Hvalid. destruct catalogs as (_ & _ & _ & Hsearch & _).
  unfold getSpotifyCover.
  apply bind_agree; [apply getSpotifyToken_agree; assumption|].
  intros token s1' s2'.
  destruct (negb (Str.truthy token)); [reflexivity|].
  unfold bind, call, ret. cbn [fst].
  rewrite (Hsearch (clock s1') (clock s2')). reflexivity.
Qed.

Lemma getDeezerCover_agree (query : jsstring) (s1 s2 : State) :
  fst (getDeezerCover w1 query s1) = fst (getDeezerCover w2 query s2).
Proof.
  destruct catalogs as (_ & _ & _ & _ & Hdeezer).
  unfold getDeezerCover, bind, call, ret. cbn [fst].
  rewrite (Hdeezer (clock s1) (clock s2)). reflexivity.
Qed.

Lemma findCover_agree (query : jsstring) (s1 s2 : State) :
  spotifyTokenCache s1 = spotifyTokenCache s2 ->
  findsTokenValid w1 s1 = findsTokenValid w2 s2 ->
  fst (findCover w1 query s1) = fst (findCover w2 query s2).
Proof.
  intros Hcache Hvalid. unfold findCover.
  apply bind_agree.
  { destruct (Str.truthy _); [apply getSpotifyCover_agree; assumption|reflexivity]. }
  intros coverUrl s1' s2'.
  apply bind_agree; [|reflexivity].
  destruct (Str.truthy coverUrl); [reflexivity|apply getDeezerCover_agree].
Qed.

End Cover.

(** The cover is looked up in the state in which the audio resolution ended,
    and up to there the token cache is left alone. *)
Lemma resolveAll_cover (w : World) (chatId : Z) (tmpDir lockFile s : jsstring)
    (st st' : State) (r : Resolved) :
  resolveAll w chatId tmpDir lockFile s st = (Normal r, st') ->
  sameToken st (coverLookupState w chatId tmpDir lockFile s st) /\
  fst (findCover w (query (r_input r))
         (coverLookupState w chatId tmpDir lockFile s st)) = Normal (r_coverUrl r).
Proof.
  intros H. unfold resolveAll in H. unfold coverLookupState.
  apply bind_Normal_inv in H as (input & sa & Ha & H).
  apply bind_Normal_inv in H as (binaryPath & sb & Hb & H).
  apply bind_Normal_inv in H as (video & sc & Hc & H).
  apply bind_Normal_inv in H as (coverUrl & sd & Hd & H).
  injection H as <- _.
  rewrite (bind_Normal _ _ _ _ _ Ha), (bind_Normal _ _ _ _ _ Hb), Hc.
  cbn [snd r_input r_coverUrl]. rewrite Hd. split; [|reflexivity].
  pose proof (steps_analyzeInput callOk_sameToken w chatId lockFile s st) as Sa.
  pose proof (steps_ensureYtDlp callOk_sameToken w tmpDir sa) as Sb.
  pose proof (steps_resolveAudio callOk_sameToken w chatId tmpDir lockFile input
                binaryPath sb) as Sc.
  rewrite Ha in Sa. rewrite Hb in Sb. rewrite Hc in Sc. cbn [snd] in *.
  eapply frame_trans; [exact Sa|]. eapply frame_trans; [exact Sb|exact Sc].
Qed.

(** C8, as stated, fails: the cached Spotify token has an expiry, and a run
    whose audio search takes one more call reaches the cover lookup later.
    Two runs on the same text, from the same state, in worlds that differ
    only in the answer of the SoundCloud search and whose catalogs answer
    alike, select different covers: the first still holds a valid token and
    takes the Spotify cover, the second finds it expired, cannot renew it and
    takes the Deezer cover. *)
Lemma C8_token_expiry_counterexample :
  sameCatalogs Example.coverA Example.coverB /\
  (exists r1 r2 st1 st2,
     resolveAll Example.coverA 42 (js "/tmp") (js "/tmp/lock_search_42.lock") (js "Hello World")
       Example.cachedToken = (Normal r1, st1) /\
     resolveAll Example.coverB 42 (js "/tmp") (js "/tmp/lock_search_42.lock") (js "Hello World")
       Example.cachedToken = (Normal r2, st2) /\
     query (r_input r1) = query (r_input r2) /\
     r_videoUrl r1 <> r_videoUrl r2 /\
     r_coverUrl r1 = (js "https://covers.example/spotify.jpg") /\
     r_coverUrl r2 = (js "https://covers.example/deezer.jpg")) /\
  coverDownloads
    (calls (snd (handleSearchMode Example.coverA (Example.message (js "Hello World"))
                   Example.cachedToken))) =
    [js "https://covers.example/spotify.jpg"] /\
  coverDownloads
    (calls (snd (handleSearchMode Example.coverB (Example.message (js "Hello World"))
                   Example.cachedToken))) =
    [js "https://covers.example/deezer.jpg"].
Proof.
  split; [repeat split|]. split; [|split; vm_compute; reflexivity].
  eexists _, _, _, _.
  split; [vm_compute; reflexivity|]. split; [vm_compute; reflexivity|].
  repeat split; try reflexivity. cbn. discriminate.
Qed.

(** C8, amended: the cover selection of a run is a function of the normalized
    query, of the catalog responses and of the validity of the cached Spotify
    token when it is looked up.  The [try] block resolves everything and then
    delivers; of two runs that get as far as the cover, with the same
    normalized query, catalogs that are configured and answer alike, and the
    same cached token, which both find valid or both find expired when they
    look for the cover, the selected cover is the same, whatever the audio
    resolution gave and whatever else differs between the two worlds. *)
Theorem C8_cover_ignores_audio_resolution :
  (forall w chatId tmpDir lockFile s st,
     pipeline w chatId tmpDir lockFile s st =
     (r <- resolveAll w chatId tmpDir lockFile s;;
      deliver w chatId tmpDir lockFile (r_binaryPath r) (r_videoUrl r)
        (r_videoTitle r) (r_coverUrl r)) st) /\
  (forall w1 w2 chat1 chat2 tmp1 tmp2 lock1 lock2 text1 text2
          st1 st2 st1' st2' r1 r2,
     sameCatalogs w1 w2 ->
     spotifyTokenCache st1 = spotifyTokenCache st2 ->
     findsTokenValid w1 (coverLookupState w1 chat1 tmp1 lock1 text1 st1) =
     findsTokenValid w2 (coverLookupState w2 chat2 tmp2 lock2 text2 st2) ->
     resolveAll w1 chat1 tmp1 lock1 text1 st1 = (Normal r1, st1') ->
     resolveAll w2 chat2 tmp2 lock2 text2 st2 = (Normal r2, st2') ->
     query (r_input r1) = query (r_input r2) ->
     r_coverUrl r1 = r_coverUrl r2).
Proof.
  split; [intros; apply pipeline_resolveAll|].
  intros w1 w2 chat1 chat2 tmp1 tmp2 lock1 lock2 text1 text2
         st1 st2 st1' st2' r1 r2 Hcat Hcache Hvalid H1 H2 Hquery.
  apply resolveAll_cover in H1 as ([T1 _] & C1).
  apply resolveAll_cover in H2 as ([T2 _] & C2).
  assert (Hlookup :
            spotifyTokenCache (coverLookupState w1 chat1 tmp1 lock1 text1 st1) =
            spotifyTokenCache (coverLookupState w2 chat2 tmp2 lock2 text2 st2))
    by (rewrite T1, T2; exact Hcache).
  pose proof (findCover_agree w1 w2 Hcat (query (r_input r1)) _ _ Hlookup Hvalid)
    as Hsame.
  rewrite C1, Hquery, C2 in Hsame. injection Hsame as ->. reflexivity.
Qed.

(** Two runs on the same text that start with a token good until time
    1000000: the first resolves the audio on SoundCloud, the second on
    YouTube and later; both find the token valid and select the cover of
    Spotify. *)
Lemma C8_witness :
  exists r1 r2 st1 st2,
    resolveAll Example.coverA 42 (js "/tmp") (js "/tmp/lock_search_42.lock") (js "Hello World")
      Example.validToken = (Normal r1, st1) /\
    resolveAll Example.coverB 42 (js "/tmp") (js "/tmp/lock_search_42.lock") (js "Hello World")
      Example.validToken = (Normal r2, st2) /\
    r_videoUrl r1 <> r_videoUrl r2 /\
    clock st1 <> clock st2 /\
    r_coverUrl r1 = js "https://covers.example/spotify.jpg" /\
    r_coverUrl r1 = r_coverUrl r2.
Proof.
  eexists _, _, _, _.
  split; [vm_compute; reflexivity|]. split; [vm_compute; reflexivity|].
  split; [cbn; discriminate|]. split; [cbn; discriminate|].
  split; [reflexivity|].
  refine (proj2 C8_cover_ignores_audio_resolution Example.coverA Example.coverB
            42%Z 42%Z (js "/tmp") (js "/tmp") (js "/tmp/lock_search_42.lock")
            (js "/tmp/lock_search_42.lock")
            (js "Hello World") (js "Hello World") Example.validToken
            Example.validToken _ _ _ _ _ _ _ _ _ _).
  - repeat split.
  - reflexivity.
  - vm_compute. reflexivity.
  - vm_compute. reflexivity.
  - vm_compute. reflexivity.
  - reflexivity.
Defined.

(** ** The lock, when the chat refuses the error reply *)

(** C3 fails on the code.  The [catch] block sends the error reply before it
    removes the lock file, and the reply is awaited: when the chat refuses
    it, the handler ends with the lock file in place.  First run: a non-music
    link, in a chat that refuses every message (the early rejection throws,
    then the error reply throws).  Second run: a song request, with a chat
    transport that fails from the fourth call on (the notice that the track
    was found throws in the middle of the pipeline, then the error reply
    throws). *)
Theorem C3_lock_left_behind_when_error_reply_is_refused :
  let lockFile := js "/tmp/lock_search_42.lock" in
  let rejected :=
    handleSearchMode Example.blocked (Example.message (js "https://example.com/page"))
      Example.fresh in
  let failed :=
    handleSearchMode Example.outage (Example.message (js "Hello World")) Example.fresh in
  lockFileOf Example.blocked 42 = lockFile /\
  lockFileOf Example.outage 42 = lockFile /\
  files Example.fresh !! lockFile = None /\
  fst rejected = Thrown (js "403 Forbidden: bot was blocked by the user") /\
  calls (snd rejected) =
    [SendMessage 42 NonMusicLink;
     SendMessage 42 (ErrorReply (js "403 Forbidden: bot was blocked by the user"))] /\
  files (snd rejected) !! lockFile = Some (js "processing") /\
  fst failed = Thrown (js "ETELEGRAM: 429 Too Many Requests") /\
  last (calls (snd failed)) =
    Some (SendMessage 42 (ErrorReply (js "ETELEGRAM: 429 Too Many Requests"))) /\
  files (snd failed) !! lockFile = Some (js "processing").
Proof. repeat split; vm_compute; reflexivity. Qed.

(** ** The lock, when the chat accepts the error reply *)

Section NeverExits.

Lemma neverExits_ret {A : Type} (a : A) : neverExits (ret a).
Proof. intros st. discriminate. Qed.

Lemma neverExits_throw {A : Type} (e : jsstring) : neverExits (@throw A e).
Proof. intros st. discriminate. Qed.

Lemma neverExits_call {A : Type} (c : Call) (answer : nat -> A) :
  neverExits (call c answer).
Proof. intros st. discriminate. Qed.

Lemma neverExits_ask {A : Type} (answer : nat -> A) : neverExits (ask answer).
Proof. intros st. discriminate. Qed.

Lemma neverExits_bind {A B : Type} (m : M A) (f : A -> M B) :
  neverExits m -> (forall a, neverExits (f a)) -> neverExits (bind m f).
Proof.
  intros Hm Hf st. unfold bind. pose proof (Hm st) as H1.
  destruct (m st) as [[a| |e] st1]; cbn [fst] in *;
    [apply Hf|congruence|discriminate].
Qed.

Lemma neverExits_tryCatch {A : Type} (m : M A) (h : jsstring -> M A) :
  neverExits m -> (forall e, neverExits (h e)) -> neverExits (tryCatch m h).
Proof.
  intros Hm Hh st. unfold tryCatch. pose proof (Hm st) as H1.
  destruct (m st) as [[a| |e] st1]; cbn [fst] in *;
    [discriminate|congruence|apply Hh].
Qed.

Lemma neverExits_await {A : Type} (m : M (Res A)) :
  neverExits m -> neverExits (await m).
Proof.
  intros Hm. unfold await. apply neverExits_bind; [exact Hm|].
  intros [a|e]; [apply neverExits_ret|apply neverExits_throw].
Qed.

Lemma neverExits_existsSync (path : jsstring) : neverExits (existsSync path).
Proof. intros st. discriminate. Qed.

Lemma neverExits_existsNonEmpty (path : jsstring) : neverExits (existsNonEmpty path).
Proof. intros st. discriminate. Qed.

Lemma neverExits_writeFileSync (path content : jsstring) :
  neverExits (writeFileSync path content).
Proof. intros st. discriminate. Qed.

Lemma neverExits_unlinkSync (path : jsstring) : neverExits (unlinkSync path).
Proof. intros st. discriminate. Qed.

Lemma neverExits_unlinkIfExists (path : jsstring) : neverExits (unlinkIfExists path).
Proof.
  unfold unlinkIfExists. apply neverExits_bind; [apply neverExits_existsSync|].
  intros []; [apply neverExits_unlinkSync|apply neverExits_ret].
Qed.

Lemma neverExits_readTokenCache : neverExits readTokenCache.
Proof. intros st. discriminate. Qed.

Lemma neverExits_writeTokenCache (token : option jsstring) (expiry : Z) :
  neverExits (writeTokenCache token expiry).
Proof. intros st. discriminate. Qed.

End NeverExits.

Create HintDb noexit discriminated.

#[local] Hint Resolve neverExits_ret neverExits_throw neverExits_call
  neverExits_ask neverExits_await neverExits_existsSync
  neverExits_existsNonEmpty neverExits_writeFileSync neverExits_unlinkSync
  neverExits_unlinkIfExists neverExits_readTokenCache
  neverExits_writeTokenCache : noexit.

(** A proof that a computation has no [return;]: its structure is followed,
    its branches are split, and the helpers proved so far are used. *)
Ltac noexit :=
  repeat first
    [ solve [auto with noexit nocore]
    | lazymatch goal with
      | |- neverExits (bind _ _) => apply neverExits_bind; [|intros ?]
      | |- neverExits (tryCatch _ _) => apply neverExits_tryCatch; [|intros ?]
      | |- neverExits (if ?b then _ else _) => destruct b
      | |- neverExits (match ?x with _ => _ end) => destruct x
      end ].

Section NeverExitsHelpers.

Variable w : World.

Lemma neverExits_sendMessage (chatId : Z) (reply : Reply) :
  neverExits (sendMessage w chatId reply).
Proof. unfold sendMessage. noexit. Qed.

Lemma neverExits_downloadFile (url path : jsstring) :
  neverExits (downloadFile w url path).
Proof. unfold downloadFile. noexit. Qed.

Hint Resolve neverExits_sendMessage neverExits_downloadFile : noexit.

Lemma neverExits_ensureYtDlp (tmpDir : jsstring) : neverExits (ensureYtDlp w tmpDir).
Proof. unfold ensureYtDlp. noexit. Qed.

Lemma neverExits_proxyArgs : neverExits (proxyArgs w).
Proof. unfold proxyArgs. noexit. Qed.

Hint Resolve neverExits_ensureYtDlp neverExits_proxyArgs : noexit.

Lemma neverExits_getMetadataFromTool (queryOrUrl binaryPath : jsstring)
    (forceSource : option Source) :
  neverExits (getMetadataFromTool w queryOrUrl binaryPath forceSource).
Proof. unfold getMetadataFromTool. noexit. Qed.

Lemma neverExits_searchArchiveOrg (query : jsstring) :
  neverExits (searchArchiveOrg w query).
Proof. unfold searchArchiveOrg. noexit. Qed.

Hint Resolve neverExits_getMetadataFromTool neverExits_searchArchiveOrg : noexit.

Lemma neverExits_getMetadata (queryOrUrl binaryPath : jsstring)
    (forceSource : option Source) :
  neverExits (getMetadata w queryOrUrl binaryPath forceSource).
Proof. unfold getMetadata. noexit. Qed.

Lemma neverExits_createDeezerCookieFile (arl : option jsstring) (tmpDir : jsstring) :
  neverExits (createDeezerCookieFile w arl tmpDir).
Proof. unfold createDeezerCookieFile. noexit. Qed.

Hint Resolve neverExits_getMetadata neverExits_createDeezerCookieFile : noexit.

Lemma neverExits_downloadFromDeezer (query binaryPath tmpDir : jsstring) :
  neverExits (downloadFromDeezer w query binaryPath tmpDir).
Proof. unfold downloadFromDeezer. noexit. Qed.

Lemma neverExits_getSpotifyToken : neverExits (getSpotifyToken w).
Proof. unfold getSpotifyToken, requestSpotifyToken. noexit. Qed.

Hint Resolve neverExits_downloadFromDeezer neverExits_getSpotifyToken : noexit.

Lemma neverExits_getSpotifyCover (trackName : jsstring) (artistName : option jsstring) :
  neverExits (getSpotifyCover w trackName artistName).
Proof. unfold getSpotifyCover. noexit. Qed.

Lemma neverExits_getDeezerCover (query : jsstring) : neverExits (getDeezerCover w query).
Proof. unfold getDeezerCover. noexit. Qed.

Hint Resolve neverExits_getSpotifyCover neverExits_getDeezerCover : noexit.

Lemma neverExits_findCover (query : jsstring) : neverExits (findCover w query).
Proof. unfold findCover. noexit. Qed.

Lemma neverExits_mergeStep (imagePath audioPath outputPath : jsstring) :
  neverExits (mergeStep w imagePath audioPath outputPath).
Proof. unfold mergeStep. noexit. Qed.

Lemma neverExits_readLinkTitle (chatId : Z) (s : jsstring) :
  neverExits (readLinkTitle w chatId s).
Proof. unfold readLinkTitle. noexit. Qed.

End NeverExitsHelpers.

Section Lock.

Variable w : World.
Variable chatId : Z.
Variable tmpDir lockFile : jsstring.

Hint Resolve neverExits_sendMessage neverExits_downloadFile
  neverExits_ensureYtDlp neverExits_proxyArgs neverExits_getMetadata
  neverExits_downloadFromDeezer neverExits_findCover neverExits_mergeStep
  neverExits_readLinkTitle : noexit.

Lemma unlinkIfExists_unlocked (st : State) :
  unlocked lockFile (snd (unlinkIfExists lockFile st)).
Proof.
  unfold unlocked, unlinkIfExists, bind, existsSync, unlinkSync, ret.
  destruct (bool_decide (is_Some (files st !! lockFile))) eqn:E;
    cbn [snd setFiles files].
  - apply lookup_delete_eq.
  - apply bool_decide_eq_false in E. apply eq_None_not_Some. exact E.
Qed.

Lemma exitsUnlocked_of_neverExits {A : Type} (m : M A) :
  neverExits m -> exitsUnlocked lockFile m.
Proof. intros H st Hexit. destruct (H st Hexit). Qed.

Lemma exitsUnlocked_bind {A B : Type} (m : M A) (f : A -> M B) :
  exitsUnlocked lockFile m -> (forall a, exitsUnlocked lockFile (f a)) ->
  exitsUnlocked lockFile (bind m f).
Proof.
  intros Hm Hf st. unfold bind. pose proof (Hm st) as H1.
  destruct (m st) as [[a| |e] st1]; cbn [fst snd] in *;
    [apply Hf|intros _; apply H1; reflexivity|discriminate].
Qed.

Lemma exitsUnlocked_tryCatch {A : Type} (m : M A) (h : jsstring -> M A) :
  exitsUnlocked lockFile m -> (forall e, exitsUnlocked lockFile (h e)) ->
  exitsUnlocked lockFile (tryCatch m h).
Proof.
  intros Hm Hh st. unfold tryCatch. pose proof (Hm st) as H1.
  destruct (m st) as [[a| |e] st1]; cbn [fst snd] in *;
    [discriminate|intros _; apply H1; reflexivity|apply Hh].
Qed.

(** [if (fs.existsSync(lockFile)) fs.unlinkSync(lockFile); return;] *)
Lemma exitsUnlocked_unlink_exit {A : Type} :
  exitsUnlocked lockFile (unlinkIfExists lockFile;;; @exit A).
Proof.
  intros st _. unfold bind.
  pose proof (unlinkIfExists_unlocked st) as H.
  pose proof (neverExits_unlinkIfExists lockFile st) as Hn.
  destruct (unlinkIfExists lockFile st) as [[[]| |e] st1]; cbn [fst snd] in *;
    [exact H|congruence|exact H].
Qed.

Lemma exitsUnlocked_reject {A : Type} (reply : Reply) :
  exitsUnlocked lockFile
    (sendMessage w chatId reply;;; unlinkIfExists lockFile;;; @exit A).
Proof.
  apply exitsUnlocked_bind;
    [apply exitsUnlocked_of_neverExits, neverExits_sendMessage
    |intros _; apply exitsUnlocked_unlink_exit].
Qed.

Lemma exitsUnlocked_analyzeInput (s : jsstring) :
  exitsUnlocked lockFile (analyzeInput w chatId lockFile s).
Proof.
  unfold analyzeInput.
  destruct (test urlRegex s && negb (test dspRegex s));
    [apply exitsUnlocked_reject|].
  destruct (test dspRegex s).
  - destruct (Str.includes s (js "/album/") || Str.includes s (js "/playlist/"));
      [apply exitsUnlocked_reject|].
    apply exitsUnlocked_bind;
      [apply exitsUnlocked_of_neverExits, neverExits_sendMessage|intros _].
    apply exitsUnlocked_tryCatch;
      [apply exitsUnlocked_of_neverExits, neverExits_readLinkTitle|intros e].
    destruct (Str.includes s (js "amazon")); apply exitsUnlocked_reject.
  - apply exitsUnlocked_of_neverExits. noexit.
Qed.

Lemma exitsUnlocked_resolveAudio (input : Input) (binaryPath : jsstring) :
  exitsUnlocked lockFile (resolveAudio w chatId tmpDir lockFile input binaryPath).
Proof.
  unfold resolveAudio.
  destruct (Str.truthy (directUrl input));
    [apply exitsUnlocked_of_neverExits; noexit|].
  unfold searchTiers.
  apply exitsUnlocked_bind;
    [apply exitsUnlocked_of_neverExits; unfold deezerTier; noexit|intros m1].
  apply exitsUnlocked_bind;
    [apply exitsUnlocked_of_neverExits; unfold soundcloudTier; noexit|intros m2].
  apply exitsUnlocked_bind;
    [apply exitsUnlocked_of_neverExits; unfold youtubeTier; noexit|intros m3].
  apply exitsUnlocked_bind;
    [apply exitsUnlocked_of_neverExits; unfold archiveTier; noexit|intros m4].
  unfold chooseVideo. destruct m4 as [found|];
    [apply exitsUnlocked_of_neverExits; noexit|apply exitsUnlocked_reject].
Qed.

Lemma endsUnlocked_bind {A B : Type} (m : M A) (f : A -> M B) :
  exitsUnlocked lockFile m -> (forall a, endsUnlocked lockFile (f a)) ->
  endsUnlocked lockFile (bind m f).
Proof.
  intros Hm Hf st. unfold bind. pose proof (Hm st) as H1.
  destruct (m st) as [[a| |e] st1]; cbn [fst snd] in *;
    [apply Hf|apply H1; reflexivity|exact I].
Qed.

Lemma endsUnlocked_throw {A : Type} (e : jsstring) : endsUnlocked lockFile (@throw A e).
Proof. intros st. exact I. Qed.

Lemma endsUnlocked_unlink : endsUnlocked lockFile (unlinkIfExists lockFile).
Proof.
  intros st. pose proof (unlinkIfExists_unlocked st) as H.
  destruct (fst (unlinkIfExists lockFile st)); [exact H|exact H|exact I].
Qed.

(** A step of [deliver] that has no [return;], then the rest. *)
Ltac deliver_step :=
  apply endsUnlocked_bind;
    [apply exitsUnlocked_of_neverExits; noexit|intros ?].

Lemma endsUnlocked_deliver (binaryPath : jsstring) (videoUrl videoTitle : option jsstring)
    (coverUrl : jsstring) :
  endsUnlocked lockFile
    (deliver w chatId tmpDir lockFile binaryPath videoUrl videoTitle coverUrl).
Proof.
  unfold deliver. do 6 deliver_step.
  destruct videoUrl as [videoUrl|]; [|apply endsUnlocked_throw].
  do 6 deliver_step.
  destruct (negb _); [apply endsUnlocked_throw|].
  destruct (negb _); [apply endsUnlocked_throw|].
  do 8 deliver_step.
  apply endsUnlocked_unlink.
Qed.

Lemma endsUnlocked_pipeline (s : jsstring) :
  endsUnlocked lockFile (pipeline w chatId tmpDir lockFile s).
Proof.
  unfold pipeline.
  apply endsUnlocked_bind; [apply exitsUnlocked_analyzeInput|intros input].
  apply endsUnlocked_bind;
    [apply exitsUnlocked_of_neverExits, neverExits_ensureYtDlp|intros binaryPath].
  apply endsUnlocked_bind; [apply exitsUnlocked_resolveAudio|intros video].
  apply endsUnlocked_bind;
    [apply exitsUnlocked_of_neverExits, neverExits_findCover|intros coverUrl].
  apply endsUnlocked_deliver.
Qed.

End Lock.

Lemma unlinkIfExists_run (path : jsstring) (st : State) :
  fst (unlinkIfExists path st) = Normal tt.
Proof.
  unfold unlinkIfExists, bind, existsSync, unlinkSync, ret.
  destruct (bool_decide _); reflexivity.
Qed.

(** The [catch] block, when the chat accepts the error reply. *)
Lemma onError_accepted (w : World) (chatId : Z) (lockFile e : jsstring)
    (st : State) (mid : Z) :
  bot_sendMessage w (clock st) chatId (ErrorReply e) = Ok mid ->
  exists st', onError w chatId lockFile e st = (Normal tt, st') /\
              unlocked lockFile st'.
Proof.
  intros Hmid. unfold onError.
  pose proof (sendMessage_run w chatId (ErrorReply e) st) as Hsend.
  rewrite Hmid in Hsend. rewrite (bind_Normal _ _ _ _ _ Hsend).
  set (st1 := recordCall _ st).
  pose proof (unlinkIfExists_run lockFile st1) as Hrun.
  pose proof (unlinkIfExists_unlocked lockFile st1) as Hgone.
  destruct (unlinkIfExists lockFile st1) as [o st2]. cbn [fst snd] in *.
  subst o. exists st2. split; [reflexivity|exact Hgone].
Qed.

(** What remains of C3: the lock file is absent at the end of every run that
    took it, on every path, provided that the chat accepts the error reply of
    the [catch] block: on a normal end, on every early [return;], and on
    every error thrown in the [try] block, in the middle of the pipeline
    too. *)
Lemma lock_released_when_error_reply_is_accepted (w : World) (msg : Message)
    (st : State) (s : jsstring) :
  text msg = Some s ->
  s <> [] ->
  files st !! lockFileOf w (chat_id msg) = None ->
  (forall t e, exists mid,
     bot_sendMessage w t (chat_id msg) (ErrorReply e) = Ok mid) ->
  fst (handleSearchMode w msg st) = Normal tt /\
  files (snd (handleSearchMode w msg st)) !! lockFileOf w (chat_id msg) = None.
Proof.
  intros Htext Hne Hfree Hreply.
  rewrite (handleSearchMode_unlocked w msg st s Htext Hne Hfree).
  set (locked := setFiles _ st).
  pose proof (endsUnlocked_pipeline w (chat_id msg) (tmpdir w)
                (lockFileOf w (chat_id msg)) s locked) as Hends.
  unfold functionBody, tryCatch.
  destruct (pipeline w (chat_id msg) (tmpdir w) (lockFileOf w (chat_id msg)) s locked)
    as [[[]| |e] st1]; cbn [fst snd] in *.
  - split; [reflexivity|exact Hends].
  - split; [reflexivity|exact Hends].
  - destruct (Hreply (clock st1) e) as [mid Hmid].
    destruct (onError_accepted w (chat_id msg) (lockFileOf w (chat_id msg)) e st1
                mid Hmid) as (st2 & -> & H).
    split; [reflexivity|exact H].
Qed.
(** * Further properties *)

(** ** The matcher *)

Lemma run_Star {R : Type} (greedy : bool) (r : regex) (pos : nat) (s : jsstring)
    (c : captures) (k : nat -> jsstring -> captures -> option R) :
  run (Star greedy r) pos s c k = iterate greedy r k (S (length s)) pos s c.
Proof. reflexivity. Qed.

Lemma run_Seq {R : Type} (r1 r2 : regex) (pos : nat) (s : jsstring)
    (c : captures) (k : nat -> jsstring -> captures -> option R) :
  run (Seq r1 r2) pos s c k =
  run r1 pos s c (fun pos' s' c' => run r2 pos' s' c' k).
Proof. reflexivity. Qed.

Lemma run_Class {R : Type} (p : N -> bool) (pos : nat) (s : jsstring)
    (c : captures) (k : nat -> jsstring -> captures -> option R) :
  run (Class p) pos s c k =
  match s with
  | a :: s' => if p a then k (S pos) s' c else None
  | [] => None
  end.
Proof. reflexivity. Qed.

(** A successful match hands the continuation an offset further on in the
    subject, and what is left of the subject from there. *)
Lemma run_inv {R : Type} (r : regex) :
  forall (pos : nat) (s : jsstring) (c : captures)
         (k : nat -> jsstring -> captures -> option R) (x : R),
    run r pos s c k = Some x ->
    exists pos' c',
      k pos' (skipn (pos' - pos) s) c' = Some x /\
      (pos <= pos' <= pos + length s)%nat.
Proof.
  induction r as [|p|r1 IH1 r2 IH2|r1 IH1 r2 IH2|greedy r IH|i r IH| |];
    intros pos s c k x Hrun.
  - exists pos, c. rewrite Nat.sub_diag. cbn in *. split; [exact Hrun|lia].
  - cbn [run] in Hrun. destruct s as [|a s]; [discriminate|].
    destruct (p a); [|discriminate].
    exists (S pos), c. replace (S pos - pos)%nat with 1%nat by lia.
    cbn [skipn length]. split; [exact Hrun|lia].
  - cbn [run] in Hrun. apply IH1 in Hrun as (pos1 & c1 & Hrun & Hpos1).
    apply IH2 in Hrun as (pos2 & c2 & Hk & Hpos2).
    rewrite length_skipn in Hpos2. rewrite skipn_skipn in Hk.
    exists pos2, c2. split; [|lia].
    replace (pos2 - pos)%nat with (pos2 - pos1 + (pos1 - pos))%nat by lia.
    exact Hk.
  - cbn [run] in Hrun.
    destruct (run r1 pos s c k) as [y|] eqn:H1.
    + injection Hrun as <-. apply IH1 in H1. exact H1.
    + apply IH2 in Hrun. exact Hrun.
  - rewrite run_Star in Hrun. revert Hrun.
    generalize (S (length s)) as n. revert pos s c x.
    intros pos s c x n. revert pos s c x.
    induction n as [|n IHn]; intros pos s c x Hrun.
    + cbn [iterate] in Hrun. exists pos, c. rewrite Nat.sub_diag.
      split; [exact Hrun|lia].
    + cbn [iterate] in Hrun.
      assert (Hmore : forall y,
                 run r pos s c
                   (fun pos' s' c' =>
                      if (pos <? pos')%nat then iterate greedy r k n pos' s' c'
                      else None) = Some y ->
                 exists pos' c',
                   k pos' (skipn (pos' - pos) s) c' = Some y /\
                   (pos <= pos' <= pos + length s)%nat).
      { intros y Hy. apply IH in Hy as (pos1 & c1 & Hy & Hpos1).
        destruct (pos <? pos1)%nat; [|discriminate].
        apply IHn in Hy as (pos2 & c2 & Hk & Hpos2).
        rewrite length_skipn in Hpos2. rewrite skipn_skipn in Hk.
        exists pos2, c2. split; [|lia].
        replace (pos2 - pos)%nat with (pos2 - pos1 + (pos1 - pos))%nat by lia.
        exact Hk. }
      assert (Hstop : forall y,
                 k pos s c = Some y ->
                 exists pos' c',
                   k pos' (skipn (pos' - pos) s) c' = Some y /\
                   (pos <= pos' <= pos + length s)%nat).
      { intros y Hy. exists pos, c. rewrite Nat.sub_diag. split; [exact Hy|lia]. }
      destruct greedy.
      * destruct (run r pos s c _) as [y|] eqn:Hy.
        -- injection Hrun as <-. apply Hmore. reflexivity.
        -- apply Hstop, Hrun.
      * destruct (k pos s c) as [y|] eqn:Hy.
        -- injection Hrun as <-. apply Hstop. reflexivity.
        -- apply Hmore, Hrun.
  - cbn [run] in Hrun. apply IH in Hrun as (pos1 & c1 & Hk & Hpos1).
    exists pos1, ((i, firstn (pos1 - pos) s) :: c1). split; [exact Hk|lia].
  - cbn [run] in Hrun. destruct (pos =? 0)%nat; [|discriminate].
    exists pos, c. rewrite Nat.sub_diag. split; [exact Hrun|lia].
  - cbn [run] in Hrun. destruct s as [|a s]; [|discriminate].
    exists pos, c. rewrite Nat.sub_diag. split; [exact Hrun|cbn; lia].
Qed.

Lemma matchAt_inv (r : regex) (pos : nat) (s : jsstring) (m : found) :
  matchAt r pos s = Some m ->
  m_start m = pos /\ (pos <= m_end m <= pos + length s)%nat.
Proof.
  unfold matchAt. intros H. apply run_inv in H as (pos' & c' & H & Hpos).
  injection H as <-. cbn. split; [reflexivity|exact Hpos].
Qed.

Lemma execFrom_inv (r : regex) (s : jsstring) :
  forall (pos : nat) (m : found),
    execFrom r pos s = Some m ->
    (pos <= m_start m <= m_end m)%nat /\ (m_end m <= pos + length s)%nat.
Proof.
  induction s as [|a s IH]; intros pos m H; cbn [execFrom] in H.
  - destruct (matchAt r pos []) as [m'|] eqn:Hm; [|discriminate].
    injection H as <-. apply matchAt_inv in Hm. lia.
  - destruct (matchAt r pos (a :: s)) as [m'|] eqn:Hm.
    + injection H as <-. apply matchAt_inv in Hm. lia.
    + apply IH in H. cbn [length]. lia.
Qed.

(** Every code unit of the result of a global replace is one of the subject
    or one of the replacement. *)
Lemma replaceAllFrom_In (r : regex) (rep : jsstring) (x : N) (fuel : nat) :
  forall (pos : nat) (s : jsstring),
    In x (replaceAllFrom fuel r rep pos s) -> In x s \/ In x rep.
Proof.
  induction fuel as [|fuel IH]; intros pos s H; cbn [replaceAllFrom] in H;
    [left; exact H|].
  destruct (execFrom r pos s) as [m|]; [|left; exact H].
  assert (Hfirst : forall n, In x (firstn n s) -> In x s).
  { intros n Hn. rewrite <- (firstn_skipn n s). apply in_or_app. left. exact Hn. }
  assert (Hskip : forall n, In x (skipn n s) -> In x s).
  { intros n Hn. rewrite <- (firstn_skipn n s). apply in_or_app. right. exact Hn. }
  destruct (m_start m <? m_end m)%nat.
  - apply in_app_or in H as [H|H]; [left; eapply Hfirst, H|].
    apply in_app_or in H as [H|H]; [right; exact H|].
    apply IH in H as [H|H]; [left; eapply Hskip, H|right; exact H].
  - destruct (skipn (m_start m - pos) s) as [|a s'] eqn:Hs.
    + apply in_app_or in H as [H|H]; [left; eapply Hfirst, H|right; exact H].
    + apply in_app_or in H as [H|H]; [left; eapply Hfirst, H|].
      apply in_app_or in H as [H|H]; [right; exact H|].
      destruct H as [<-|H].
      * left. apply (Hskip (m_start m - pos)%nat). rewrite Hs. left. reflexivity.
      * apply IH in H as [H|H]; [|right; exact H].
        left. apply (Hskip (m_start m - pos)%nat). rewrite Hs. right. exact H.
Qed.

(** Where the pattern does not match at the head of the subject, the head
    stays and the replacement goes on behind it. *)
Lemma replaceAllFrom_skip (r : regex) (rep : jsstring) (fuel pos : nat) (a : N)
    (s : jsstring) :
  matchAt r pos (a :: s) = None ->
  replaceAllFrom (S fuel) r rep pos (a :: s) =
  a :: replaceAllFrom (S fuel) r rep (S pos) s.
Proof.
  intros Hnone. cbn [replaceAllFrom execFrom]. rewrite Hnone.
  destruct (execFrom r (S pos) s) as [m|] eqn:Hexec; [|reflexivity].
  apply execFrom_inv in Hexec as [Hle Hend].
  replace (m_start m - pos)%nat with (S (m_start m - S pos)) by lia.
  cbn [firstn skipn].
  destruct (m_start m <? m_end m)%nat eqn:Hlt.
  - apply Nat.ltb_lt in Hlt.
    replace (m_end m - pos)%nat with (S (m_end m - S pos)) by lia.
    reflexivity.
  - destruct (skipn (m_start m - S pos) s); reflexivity.
Qed.

Lemma replaceAllFrom_none (r : regex) (rep : jsstring) (fuel pos : nat)
    (s : jsstring) :
  execFrom r pos s = None -> replaceAllFrom fuel r rep pos s = s.
Proof.
  intros H. destruct fuel; [reflexivity|]. cbn [replaceAllFrom]. rewrite H.
  reflexivity.
Qed.

(** A global replace of single code units. *)
Lemma replaceAllFrom_class_by (p : N -> bool) (rep : jsstring) (fuel : nat) :
  forall (s : jsstring) (pos : nat),
    (length s < fuel)%nat ->
    replaceAllFrom fuel (Class p) rep pos s =
    flat_map (fun c => if p c then rep else [c]) s.
Proof.
  induction fuel as [|fuel IH]; intros s pos Hlen; [lia|].
  induction s as [|a s IHs] in pos, Hlen |- *; [reflexivity|].
  cbn [length] in Hlen. cbn [flat_map].
  destruct (p a) eqn:Ha.
  - cbn [replaceAllFrom execFrom]. unfold matchAt. cbn [run]. rewrite Ha.
    cbn [m_start m_end].
    replace (pos <? S pos)%nat with true by (symmetry; apply Nat.ltb_lt; lia).
    rewrite Nat.sub_diag. replace (S pos - pos)%nat with 1%nat by lia.
    cbn [firstn skipn app]. f_equal. apply IH. lia.
  - rewrite replaceAllFrom_skip by (unfold matchAt; cbn [run]; rewrite Ha; reflexivity).
    cbn [app]. f_equal. apply IHs. lia.
Qed.

(** *** A greedy run of a class *)

Lemma skipn_runLength (p : N -> bool) (s : jsstring) :
  skipn (runLength p s) s = Str.dropWhile p s.
Proof.
  induction s as [|a s IH]; [reflexivity|].
  cbn [runLength Str.dropWhile]. destruct (p a); [exact IH|reflexivity].
Qed.

Lemma runLength_le (p : N -> bool) (s : jsstring) :
  (runLength p s <= length s)%nat.
Proof.
  induction s as [|a s IH]; cbn [runLength length]; [lia|].
  destruct (p a); lia.
Qed.

(** With a continuation that accepts whatever it is given, a greedy
    quantifier over a class takes the whole run. *)
Lemma iterate_class_greedy {R : Type} (p : N -> bool)
    (k : nat -> jsstring -> captures -> option R) :
  (forall pos s c, k pos s c <> None) ->
  forall (n pos : nat) (s : jsstring) (c : captures),
    (length s < n)%nat ->
    iterate true (Class p) k n pos s c =
    k (pos + runLength p s)%nat (Str.dropWhile p s) c.
Proof.
  intros Hk. induction n as [|n IH]; intros pos s c Hlen; [lia|].
  cbn [iterate run]. destruct s as [|a s].
  - cbn [runLength Str.dropWhile]. rewrite Nat.add_0_r. reflexivity.
  - cbn [runLength Str.dropWhile length] in *. destruct (p a).
    + replace (pos <? S pos)%nat with true by (symmetry; apply Nat.ltb_lt; lia).
      rewrite IH by lia.
      replace (S pos + runLength p s)%nat with (pos + S (runLength p s))%nat by lia.
      destruct (k _ _ c) eqn:Hsome; [reflexivity|].
      exfalso. eapply Hk, Hsome.
    + rewrite Nat.add_0_r. reflexivity.
Qed.

Lemma matchAt_plus_class (p : N -> bool) (pos : nat) (s : jsstring) :
  matchAt (plus (Class p)) pos s =
  match s with
  | a :: s' =>
      if p a then Some (Found pos (S pos + runLength p s') []) else None
  | [] => None
  end.
Proof.
  unfold matchAt, plus. rewrite run_Seq, run_Class.
  destruct s as [|a s]; [reflexivity|].
  destruct (p a); [|reflexivity].
  rewrite run_Star, iterate_class_greedy by (discriminate || lia).
  reflexivity.
Qed.

Lemma collapseRuns_dropWhile (p : N -> bool) (rep s : jsstring) :
  collapseRuns p rep true s = collapseRuns p rep false (Str.dropWhile p s).
Proof.
  induction s as [|a s IH]; [reflexivity|].
  cbn [collapseRuns Str.dropWhile]. destruct (p a) eqn:Ha; [exact IH|].
  cbn [collapseRuns]. rewrite Ha. reflexivity.
Qed.

Lemma dropWhile_length (p : N -> bool) (s : jsstring) :
  (length (Str.dropWhile p s) <= length s)%nat.
Proof.
  induction s as [|a s IH]; cbn [Str.dropWhile length]; [lia|].
  destruct (p a); cbn [length]; lia.
Qed.

(** [s.replace(/[class]+/g, rep)] replaces every maximal run of the class. *)
Lemma replaceAllFrom_plus_class (p : N -> bool) (rep : jsstring) (fuel : nat) :
  forall (s : jsstring) (pos : nat),
    (length s < fuel)%nat ->
    replaceAllFrom fuel (plus (Class p)) rep pos s = collapseRuns p rep false s.
Proof.
  induction fuel as [|fuel IH]; intros s pos Hlen; [lia|].
  induction s as [|a s IHs] in pos, Hlen |- *; [reflexivity|].
  cbn [length] in Hlen. cbn [collapseRuns].
  destruct (p a) eqn:Ha.
  - cbn [replaceAllFrom execFrom]. rewrite matchAt_plus_class, Ha.
    cbn [m_start m_end].
    replace (pos <? S pos + runLength p s)%nat with true
      by (symmetry; apply Nat.ltb_lt; lia).
    rewrite Nat.sub_diag.
    replace (S pos + runLength p s - pos)%nat with (S (runLength p s)) by lia.
    cbn [firstn skipn app]. f_equal.
    rewrite skipn_runLength, collapseRuns_dropWhile. apply IH.
    pose proof (dropWhile_length p s). lia.
  - rewrite replaceAllFrom_skip by (rewrite matchAt_plus_class, Ha; reflexivity).
    f_equal. apply IHs. lia.
Qed.

Lemma replaceAll_spaces (rep s : jsstring) :
  replaceAll (plus (Class Chars.isSpaceChar)) rep s =
  collapseRuns Chars.isSpaceChar rep false s.
Proof. unfold replaceAll. apply replaceAllFrom_plus_class. lia. Qed.

(** ** Strings, continued *)

Lemma startsWith_iff (s t : jsstring) :
  Str.startsWith s t = true <-> exists post, s = (t ++ post)%list.
Proof.
  revert s. induction t as [|b t IH]; intros s; cbn [Str.startsWith].
  - split; [intros _; exists s; reflexivity|destruct s; reflexivity].
  - destruct s as [|a s].
    + split; [discriminate|intros [post H]; discriminate].
    + cbn [Str.startsWith]. rewrite andb_true_iff, N.eqb_eq, IH. split.
      * intros [-> [post ->]]. exists post. reflexivity.
      * intros [post H]. injection H as -> ->. split; [reflexivity|eauto].
Qed.

Lemma includes_iff (s t : jsstring) :
  Str.includes s t = true <-> exists pre post, s = (pre ++ t ++ post)%list.
Proof.
  induction s as [|a s IH]; cbn [Str.includes]; rewrite orb_true_iff.
  - rewrite startsWith_iff. split.
    + intros [[post H]|H]; [|discriminate]. exists [], post. exact H.
    + intros (pre & post & H). left. destruct pre; [|discriminate].
      exists post. exact H.
  - rewrite startsWith_iff, IH. split.
    + intros [[post H]|(pre & post & H)].
      * exists [], post. exact H.
      * exists (a :: pre), post. rewrite H. reflexivity.
    + intros (pre & post & H). destruct pre as [|a' pre].
      * left. exists post. exact H.
      * right. injection H as -> ->. eauto.
Qed.

Lemma includes_refl (s : jsstring) : Str.includes s s = true.
Proof. apply includes_iff. exists [], []. rewrite app_nil_r. reflexivity. Qed.

Lemma dropWhile_suffix (p : N -> bool) (s : jsstring) :
  exists pre, s = (pre ++ Str.dropWhile p s)%list.
Proof.
  induction s as [|a s [pre IH]]; [exists []; reflexivity|].
  cbn [Str.dropWhile]. destruct (p a).
  - exists (a :: pre). cbn [app]. f_equal. exact IH.
  - exists []. reflexivity.
Qed.

(** What [trim] leaves is a piece of the text. *)
Lemma trim_infix (s : jsstring) :
  exists pre post, s = (pre ++ Str.trim s ++ post)%list.
Proof.
  unfold Str.trim.
  destruct (dropWhile_suffix Chars.isSpaceChar s) as [pre Hpre].
  destruct (dropWhile_suffix Chars.isSpaceChar
              (rev (Str.dropWhile Chars.isSpaceChar s))) as [post Hpost].
  exists pre, (rev post). rewrite Hpre at 1. f_equal.
  rewrite <- rev_app_distr, <- Hpost, rev_involutive. reflexivity.
Qed.

Lemma trim_In (s : jsstring) (x : N) : In x (Str.trim s) -> In x s.
Proof.
  intros H. destruct (trim_infix s) as (pre & post & E). rewrite E.
  apply in_or_app. right. apply in_or_app. left. exact H.
Qed.

Lemma trim_includes (s t : jsstring) :
  Str.includes (Str.trim s) t = true -> Str.includes s t = true.
Proof.
  rewrite !includes_iff. intros (pre & post & E).
  destruct (trim_infix s) as (pre' & post' & E').
  exists (pre' ++ pre)%list, (post ++ post')%list.
  rewrite E' at 1. rewrite E, <- !app_assoc. reflexivity.
Qed.

Lemma dropWhile_startsOutside (p : N -> bool) (s : jsstring) :
  startsOutside p (Str.dropWhile p s).
Proof.
  induction s as [|a s IH]; [exact I|].
  cbn [Str.dropWhile]. destruct (p a) eqn:Ha; [exact IH|exact Ha].
Qed.

Lemma dropWhile_id (p : N -> bool) (s : jsstring) :
  startsOutside p s -> Str.dropWhile p s = s.
Proof.
  destruct s as [|a s]; [reflexivity|]. cbn [startsOutside Str.dropWhile].
  intros ->. reflexivity.
Qed.

Lemma dropWhile_snoc (p : N -> bool) (s : jsstring) (a : N) :
  p a = false -> Str.dropWhile p (s ++ [a]) = (Str.dropWhile p s ++ [a])%list.
Proof.
  intros Ha. induction s as [|b s IH]; cbn [app Str.dropWhile].
  - rewrite Ha. reflexivity.
  - destruct (p b); [exact IH|reflexivity].
Qed.

Lemma rev_dropWhile_rev_startsOutside (p : N -> bool) (s : jsstring) :
  startsOutside p s -> startsOutside p (rev (Str.dropWhile p (rev s))).
Proof.
  destruct s as [|a s]; [intros _; exact I|].
  cbn [startsOutside rev]. intros Ha.
  rewrite dropWhile_snoc by exact Ha.
  rewrite rev_app_distr. exact Ha.
Qed.

(** A trimmed text neither starts nor ends with white space: trimming it
    again changes nothing. *)
Lemma trim_trim (s : jsstring) : Str.trim (Str.trim s) = Str.trim s.
Proof.
  unfold Str.trim.
  set (y := Str.dropWhile Chars.isSpaceChar s).
  assert (Hy : startsOutside Chars.isSpaceChar y)
    by apply dropWhile_startsOutside.
  rewrite (dropWhile_id _ (rev (Str.dropWhile _ (rev y))))
    by (apply rev_dropWhile_rev_startsOutside, Hy).
  rewrite rev_involutive.
  rewrite (dropWhile_id _ (Str.dropWhile _ (rev y)))
    by apply dropWhile_startsOutside.
  reflexivity.
Qed.

(** ** cleanQuery *)

Lemma collapseRuns_In (p : N -> bool) (rep : jsstring) (x : N) (s : jsstring) :
  forall inRun,
    In x (collapseRuns p rep inRun s) -> (In x s /\ p x = false) \/ In x rep.
Proof.
  induction s as [|a s IH]; intros inRun H; [destruct H|].
  cbn [collapseRuns] in H. destruct (p a) eqn:Ha.
  - destruct inRun.
    + apply IH in H as [[H1 H2]|H]; [left; split; [right|]; assumption|right; exact H].
    + apply in_app_or in H as [H|H]; [right; exact H|].
      apply IH in H as [[H1 H2]|H]; [left; split; [right|]; assumption|right; exact H].
  - destruct H as [<-|H]; [left; split; [left; reflexivity|exact Ha]|].
    apply IH in H as [[H1 H2]|H]; [left; split; [right|]; assumption|right; exact H].
Qed.

Lemma not_space_not_32 (c : N) : Chars.isSpaceChar c = false -> (c =? 32)%N = false.
Proof.
  intros H. destruct (c =? 32)%N eqn:E; [|reflexivity].
  apply N.eqb_eq in E. subst c. discriminate.
Qed.

(** With white-space runs replaced by one space, no two spaces are
    adjacent, and after a run the text goes on with something else. *)
Lemma collapse_spaces_single (s : jsstring) :
  forall inRun,
    Str.includes (collapseRuns Chars.isSpaceChar (js " ") inRun s) (js "  ") = false /\
    (inRun = true ->
     Str.startsWith (collapseRuns Chars.isSpaceChar (js " ") inRun s) (js " ") = false).
Proof.
  induction s as [|a s IH]; intros inRun.
  - split; [reflexivity|intros _; reflexivity].
  - cbn [collapseRuns]. destruct (Chars.isSpaceChar a) eqn:Ha.
    + destruct inRun.
      * apply IH.
      * destruct (IH true) as [H1 H2]. split; [|discriminate].
        change (js " " ++ ?x)%list with (32%N :: x).
        cbn [Str.includes]. rewrite H1, orb_false_r.
        change (js "  ") with [32%N; 32%N]. cbn [Str.startsWith].
        change [32%N] with (js " "). rewrite H2 by reflexivity.
        apply andb_false_r.
    + destruct (IH false) as [H1 _].
      pose proof (not_space_not_32 a Ha) as H32.
      split;
        [|intros _; change (js " ") with [32%N]; cbn [Str.startsWith];
          rewrite H32; reflexivity].
      cbn [Str.includes]. rewrite H1, orb_false_r.
      change (js "  ") with [32%N; 32%N]. cbn [Str.startsWith].
      rewrite H32. reflexivity.
Qed.

Lemma replaceAll_In (r : regex) (rep s : jsstring) (x : N) :
  In x (replaceAll r rep s) -> In x s \/ In x rep.
Proof. unfold replaceAll. apply replaceAllFrom_In. Qed.

Lemma replaceAll_hyphen (s : jsstring) :
  replaceAll (lit false "-") (js " ") s =
  flat_map (fun c => if (c =? 45)%N then js " " else [c]) s.
Proof.
  unfold replaceAll. change (lit false "-") with (Class (Chars.eqChar false 45)).
  rewrite replaceAllFrom_class_by by lia.
  apply flat_map_ext. intros c. unfold Chars.eqChar. cbn [andb].
  rewrite orb_false_r. reflexivity.
Qed.

(** X1: what [cleanQuery] returns is normalized: it holds no hyphen-minus,
    its only white space is the plain space, it neither starts nor ends with
    white space, and no two spaces follow each other. *)
Theorem cleanQuery_is_normalized (text : jsstring) :
  (forall c, In c (cleanQuery text) ->
             c <> 45%N /\ (Chars.isSpaceChar c = true -> c = 32%N)) /\
  Str.trim (cleanQuery text) = cleanQuery text /\
  Str.includes (cleanQuery text) (js "  ") = false.
Proof.
  unfold cleanQuery. rewrite replaceAll_spaces. repeat split.
  - apply trim_In, collapseRuns_In in H as [[H Hc]|H].
    + apply replaceAll_In in H as [H|[]].
      apply replaceAll_In in H as [H|[]].
      rewrite replaceAll_hyphen in H. apply in_flat_map in H as (d & _ & H).
      destruct (d =? 45)%N eqn:Hd.
      * destruct H as [<-|[]]. discriminate.
      * destruct H as [<-|[]]. apply N.eqb_neq, Hd.
    + destruct H as [<-|[]]. discriminate.
  - intros Hspace. apply trim_In, collapseRuns_In in H as [[H Hc]|H].
    + congruence.
    + destruct H as [<-|[]]. reflexivity.
  - apply trim_trim.
  - destruct (Str.includes (Str.trim _) (js "  ")) eqn:E; [|reflexivity].
    apply trim_includes in E.
    rewrite (proj1 (collapse_spaces_single _ false)) in E. discriminate.
Qed.

(** *** The featuring patterns only match before a closing bracket *)

Lemma needs_Class (q : N -> bool) : needs (Class q) q.
Proof.
  intros R pos s c k x H. rewrite run_Class in H.
  destruct s as [|a s]; [discriminate|]. destruct (q a) eqn:Ha; [|discriminate].
  exists a. split; [left; reflexivity|exact Ha].
Qed.

Lemma needs_Seq (r1 r2 : regex) (q : N -> bool) :
  needs r2 q -> needs (Seq r1 r2) q.
Proof.
  intros H2 R pos s c k x H. rewrite run_Seq in H.
  apply run_inv in H as (pos1 & c1 & H & _).
  apply H2 in H as (a & Ha & Hq). exists a. split; [|exact Hq].
  rewrite <- (firstn_skipn (pos1 - pos) s). apply in_or_app. right. exact Ha.
Qed.

Lemma needs_featRegex (word : string) : needs (featRegex word) (Str.among ")]").
Proof.
  unfold featRegex. cbn [seqs]. do 4 apply needs_Seq. apply needs_Class.
Qed.

Lemma execFrom_needs (r : regex) (q : N -> bool) (s : jsstring) :
  needs r q ->
  forallb (fun c => negb (q c)) s = true ->
  forall pos, execFrom r pos s = None.
Proof.
  intros Hr. induction s as [|a s IH]; intros Hs pos; cbn [execFrom].
  - destruct (matchAt r pos []) as [m|] eqn:Hm; [|reflexivity].
    apply Hr in Hm as (b & [] & _).
  - destruct (matchAt r pos (a :: s)) as [m|] eqn:Hm.
    + apply Hr in Hm as (b & Hb & Hq).
      rewrite forallb_forall in Hs. apply Hs in Hb. rewrite Hq in Hb.
      discriminate.
    + apply IH. cbn [forallb] in Hs. apply andb_true_iff in Hs as [_ Hs].
      exact Hs.
Qed.

Lemma flat_map_singletons (f : N -> jsstring) (s : jsstring) :
  (forall c, In c s -> f c = [c]) -> flat_map f s = s.
Proof.
  induction s as [|a s IH]; intros H; [reflexivity|].
  cbn [flat_map]. rewrite (H a) by (left; reflexivity).
  cbn [app]. f_equal. apply IH. intros c Hc. apply H. right. exact Hc.
Qed.

(** X2: in a text without hyphen-minus and without closing bracket [)] or
    []], [cleanQuery] only normalizes the white space: the featuring
    patterns, which end in a closing bracket, delete nothing, whether or not
    the text says "feat." or "ft.". *)
Theorem cleanQuery_without_brackets (text : jsstring) :
  forallb (fun c => negb (Str.among "-)]" c)) text = true ->
  cleanQuery text = normalizeSpaces text.
Proof.
  intros Hplain. unfold cleanQuery, normalizeSpaces.
  assert (Hno : forall c, In c text ->
                  (c =? 45)%N = false /\ Str.among ")]" c = false).
  { intros c Hc. rewrite forallb_forall in Hplain. apply Hplain in Hc.
    apply negb_true_iff in Hc. unfold Str.among in *. cbn [js existsb] in *.
    change (N_of_ascii "-") with 45%N in Hc.
    destruct (c =? 45)%N; [discriminate|]. split; [reflexivity|exact Hc]. }
  rewrite replaceAll_hyphen.
  rewrite flat_map_singletons
    by (intros c Hc; destruct (Hno c Hc) as [-> _]; reflexivity).
  assert (Hfeat : forall word, replaceAll (featRegex word) [] text = text).
  { intros word. unfold replaceAll. apply replaceAllFrom_none.
    apply (execFrom_needs _ _ _ (needs_featRegex word)).
    apply forallb_forall. intros c Hc. destruct (Hno c Hc) as [_ ->].
    reflexivity. }
  rewrite !Hfeat. reflexivity.
Qed.

Lemma cleanQuery_without_brackets_witness :
  cleanQuery (js "Get  Lucky feat. Pharrell") =
  normalizeSpaces (js "Get  Lucky feat. Pharrell").
Proof.
  apply (cleanQuery_without_brackets (js "Get  Lucky feat. Pharrell")).
  reflexivity.
Defined.

(** ** The URL patterns *)

Lemma run_Alt {R : Type} (r1 r2 : regex) (pos : nat) (s : jsstring)
    (c : captures) (k : nat -> jsstring -> captures -> option R) :
  run (Alt r1 r2) pos s c k =
  match run r1 pos s c k with
  | Some x => Some x
  | None => run r2 pos s c k
  end.
Proof. reflexivity. Qed.

Lemma run_Group {R : Type} (i : nat) (r : regex) (pos : nat) (s : jsstring)
    (c : captures) (k : nat -> jsstring -> captures -> option R) :
  run (Group i r) pos s c k =
  run r pos s c (fun pos' s' c' => k pos' s' ((i, firstn (pos' - pos) s) :: c')).
Proof. reflexivity. Qed.

Lemma run_Bol {R : Type} (pos : nat) (s : jsstring)
    (c : captures) (k : nat -> jsstring -> captures -> option R) :
  run Bol pos s c k = if Nat.eqb pos 0 then k pos s c else None.
Proof. reflexivity. Qed.

Lemma run_Eol {R : Type} (pos : nat) (s : jsstring)
    (c : captures) (k : nat -> jsstring -> captures -> option R) :
  run Eol pos s c k = match s with [] => k pos s c | _ :: _ => None end.
Proof. reflexivity. Qed.

Lemma startsWith_nil (s : jsstring) : Str.startsWith s [] = true.
Proof. destruct s; reflexivity. Qed.

(** A case-sensitive literal matches exactly where the subject goes on with
    it. *)
Lemma run_lit {R : Type} (t : string) :
  forall (pos : nat) (s : jsstring) (c : captures)
         (k : nat -> jsstring -> captures -> option R),
    run (lit false t) pos s c k =
    if Str.startsWith s (js t)
    then k (pos + length (js t))%nat (skipn (length (js t)) s) c
    else None.
Proof.
  induction t as [|p t IH]; intros pos s c k.
  - cbn [lit js length skipn]. rewrite startsWith_nil, Nat.add_0_r. reflexivity.
  - assert (Hchr : forall a, Chars.eqChar false (N_of_ascii p) a
                             = (a =? N_of_ascii p)%N).
    { intros a. unfold Chars.eqChar. cbn [andb]. apply orb_false_r. }
    cbn [js length]. destruct t as [|p' t].
    + cbn [lit js length]. unfold chr. rewrite run_Class.
      destruct s as [|a s]; [reflexivity|].
      cbn [Str.startsWith skipn]. rewrite Hchr, startsWith_nil, andb_true_r.
      replace (pos + 1)%nat with (S pos) by lia. reflexivity.
    + change (lit false (String p (String p' t)))
        with (Seq (chr false (N_of_ascii p)) (lit false (String p' t))).
      rewrite run_Seq. unfold chr at 1. rewrite run_Class.
      destruct s as [|a s]; [reflexivity|].
      cbn [Str.startsWith skipn]. rewrite Hchr.
      destruct (a =? N_of_ascii p)%N; [|reflexivity].
      rewrite IH. cbn [andb].
      replace (S pos + length (js (String p' t)))%nat
        with (pos + S (length (js (String p' t))))%nat by lia.
      reflexivity.
Qed.

(** A greedy run of a class up to the end of the subject. *)
Lemma iterate_class_eol {R : Type} (q : N -> bool)
    (k : nat -> jsstring -> captures -> option R) :
  forall (n pos : nat) (s : jsstring) (c : captures),
    (length s < n)%nat ->
    iterate true (Class q) (fun pos' s' c' => run Eol pos' s' c' k) n pos s c =
    if forallb q s then k (pos + length s)%nat [] c else None.
Proof.
  induction n as [|n IH]; intros pos s c Hlen; [lia|].
  cbn [iterate]. rewrite run_Class. destruct s as [|a s].
  - cbn [forallb length]. rewrite run_Eol, Nat.add_0_r. reflexivity.
  - cbn [forallb length] in *. rewrite run_Eol. destruct (q a); cbn [andb].
    + replace (pos <? S pos)%nat with true by (symmetry; apply Nat.ltb_lt; lia).
      rewrite IH by lia.
      replace (S pos + length s)%nat with (pos + S (length s))%nat by lia.
      destruct (forallb q s); [|reflexivity].
      destruct (k _ [] c); reflexivity.
    + reflexivity.
Qed.

Lemma run_plus_class_eol {R : Type} (q : N -> bool) (pos : nat) (s : jsstring)
    (c : captures) (k : nat -> jsstring -> captures -> option R) :
  run (Seq (plus (Class q)) Eol) pos s c k =
  if negb (Str.isEmpty s) && forallb q s
  then k (pos + length s)%nat [] c else None.
Proof.
  unfold plus. rewrite !run_Seq, run_Class.
  destruct s as [|a s]; [reflexivity|].
  cbn [Str.isEmpty negb andb forallb length]. destruct (q a); [|reflexivity].
  cbn [andb]. rewrite run_Star, iterate_class_eol by lia.
  replace (S pos + length s)%nat with (pos + S (length s))%nat by lia.
  reflexivity.
Qed.

(** A pattern anchored at the start matches at offset 0 or nowhere. *)
Lemma execFrom_Bol (r : regex) (s : jsstring) :
  forall pos, execFrom (Seq Bol r) (S pos) s = None.
Proof.
  induction s as [|a s IH]; intros pos; cbn [execFrom]; unfold matchAt;
    rewrite run_Seq, run_Bol; cbn [Nat.eqb]; [reflexivity|apply IH].
Qed.

Lemma exec_Bol (r : regex) (s : jsstring) :
  exec (Seq Bol r) s = matchAt (Seq Bol r) 0 s.
Proof.
  unfold exec. destruct s as [|a s]; cbn [execFrom].
  - destruct (matchAt _ 0 []); reflexivity.
  - rewrite execFrom_Bol. destruct (matchAt _ 0 (a :: s)); reflexivity.
Qed.
Lemma test_urlRegex (s : jsstring) :
  test urlRegex s =
  let q := fun c => negb ((c =? 32)%N || (c =? 34)%N) in
  let rest n := negb (Str.isEmpty (skipn n s)) && forallb q (skipn n s) in
  (Str.startsWith s (js "http") && Str.startsWith (skipn 4 s) (js "://") && rest 7%nat) ||
  (Str.startsWith s (js "https") && Str.startsWith (skipn 5 s) (js "://") && rest 8%nat).
Proof.
  unfold test, urlRegex. cbn [seqs]. rewrite exec_Bol. unfold matchAt.
  rewrite run_Seq, run_Bol. cbn [Nat.eqb]. rewrite run_Seq, run_Group, run_Alt.
  rewrite !run_lit. cbv beta. rewrite !run_Seq, !run_lit. cbv beta.
  rewrite !run_plus_class_eol, !skipn_skipn.
  change (length (js "http")) with 4%nat. change (length (js "https")) with 5%nat.
  change (length (js "://")) with 3%nat. cbn [Nat.add]. cbv zeta.
  destruct (Str.startsWith s (js "http")); cbn [andb orb];
    [destruct (Str.startsWith (skipn 4 s) (js "://")); cbn [andb orb];
     [destruct (negb (Str.isEmpty (skipn 7 s)) && forallb _ (skipn 7 s));
      cbn [andb orb]; [reflexivity|]|]|];
    (destruct (Str.startsWith s (js "https")); cbn [andb orb]; [|reflexivity];
     destruct (Str.startsWith (skipn 5 s) (js "://")); cbn [andb orb]; [|reflexivity];
     destruct (negb (Str.isEmpty (skipn 8 s)) && forallb _ (skipn 8 s));
     reflexivity).
Qed.
Lemma isEmpty_false (s : jsstring) : Str.isEmpty s = false <-> s <> [].
Proof. destruct s; cbn; split; congruence. Qed.

(** X3: the handler takes a text for a URL exactly when it is [http] or
    [https], then [://], then one or more code units up to the end of the
    text none of which is a space or a double quote. *)
Theorem urlRegex_matches_iff (s : jsstring) :
  test urlRegex s = true <->
  exists scheme rest,
    (scheme = js "http" \/ scheme = js "https") /\
    s = (scheme ++ js "://" ++ rest)%list /\
    rest <> [] /\
    forallb (fun c => negb ((c =? 32)%N || (c =? 34)%N)) rest = true.
Proof.
  rewrite test_urlRegex. cbv zeta.
  rewrite orb_true_iff, !andb_true_iff, !startsWith_iff, !negb_true_iff,
    !isEmpty_false.
  split.
  - intros [[[[post ->] [rest Hrest]] [Hne Hall]]|[[[post ->] [rest Hrest]] [Hne Hall]]].
    + cbv beta iota delta [js app skipn] in Hrest, Hne, Hall. subst post.
      cbv beta iota delta [js app skipn] in Hne, Hall. exists (js "http"), rest. auto.
    + cbv beta iota delta [js app skipn] in Hrest, Hne, Hall. subst post.
      cbv beta iota delta [js app skipn] in Hne, Hall. exists (js "https"), rest. auto.
  - intros (scheme & rest & [->| ->] & -> & Hne & Hall); [left|right];
      cbv beta iota delta [js app skipn]; (split; [split|split]; eauto).
Qed.

(** ** The relevance matcher, continued *)

(** X4: whatever the artist, a result is only accepted when its cleaned title
    contains the cleaned track name, and neither is missing or empty. *)
Theorem isStrictMatch_needs_the_track (resultTitle : option jsstring)
    (targetTrackName : jsstring) (targetArtist : option jsstring) :
  isStrictMatch resultTitle targetTrackName targetArtist = true ->
  exists title,
    resultTitle = Some title /\ title <> [] /\ targetTrackName <> [] /\
    Str.includes (cleanTitle title) (cleanTitle targetTrackName) = true.
Proof.
  unfold isStrictMatch. destruct resultTitle as [title|]; [|discriminate].
  destruct (Str.isEmpty title) eqn:Er; [discriminate|].
  destruct (Str.isEmpty targetTrackName) eqn:Et; [discriminate|].
  cbn [orb]. intros H. exists title.
  apply isEmpty_false in Er, Et. repeat split; try assumption.
  destruct (Str.includes (cleanTitle title) (cleanTitle targetTrackName));
    [reflexivity|].
  rewrite andb_false_r in H. cbn [andb] in H.
  destruct (Str.truthy targetArtist && _); exact H.
Qed.

Lemma isStrictMatch_needs_the_track_witness :
  exists title,
    Some (js "Daft Punk - Get Lucky (Official Audio)") = Some title /\
    title <> [] /\ js "Get Lucky" <> [] /\
    Str.includes (cleanTitle title) (cleanTitle (js "Get Lucky")) = true.
Proof.
  apply (isStrictMatch_needs_the_track
           (Some (js "Daft Punk - Get Lucky (Official Audio)"))
           (js "Get Lucky") (Some (js "Daft Punk"))).
  reflexivity.
Defined.

(** X5: once the cleaned track name is longer than 3 code units the artist
    has no say: the verdict is the one without an artist. *)
Theorem isStrictMatch_long_track_ignores_artist (resultTitle : option jsstring)
    (targetTrackName : jsstring) (targetArtist : option jsstring) :
  (3 < length (cleanTitle targetTrackName))%nat ->
  isStrictMatch resultTitle targetTrackName targetArtist =
  isStrictMatch resultTitle targetTrackName None.
Proof.
  intros Hlong. unfold isStrictMatch.
  destruct resultTitle as [title|]; [|reflexivity].
  destruct (Str.isEmpty title || Str.isEmpty targetTrackName); [reflexivity|].
  replace (length (cleanTitle targetTrackName) <=? 3)%nat with false
    by (symmetry; apply Nat.leb_gt; exact Hlong).
  replace (3 <? length (cleanTitle targetTrackName))%nat with true
    by (symmetry; apply Nat.ltb_lt; exact Hlong).
  rewrite andb_false_r, orb_true_r. cbn [Str.truthy andb].
  destruct (Str.truthy targetArtist);
    destruct (Str.includes (cleanTitle title) (cleanTitle targetTrackName));
    reflexivity.
Qed.

Lemma isStrictMatch_long_track_ignores_artist_witness :
  isStrictMatch (Some (js "Bohemian Rhapsody (Live)")) (js "Bohemian Rhapsody")
    (Some (js "Someone Else")) =
  isStrictMatch (Some (js "Bohemian Rhapsody (Live)")) (js "Bohemian Rhapsody")
    None.
Proof.
  apply (isStrictMatch_long_track_ignores_artist
           (Some (js "Bohemian Rhapsody (Live)")) (js "Bohemian Rhapsody")
           (Some (js "Someone Else"))).
  vm_compute. lia.
Defined.

(** X6: a result whose title is the requested text itself is accepted,
    whatever characters the text is made of. *)
Theorem isStrictMatch_accepts_the_text_itself (s : jsstring) :
  s <> [] -> isStrictMatch (Some s) s None = true.
Proof.
  intros Hs. unfold isStrictMatch.
  replace (Str.isEmpty s) with false by (symmetry; apply isEmpty_false, Hs).
  cbn [orb Str.truthy andb]. apply includes_refl.
Qed.

Lemma isStrictMatch_accepts_the_text_itself_witness :
  isStrictMatch (Some (js "Blue Moon")) (js "Blue Moon") None = true.
Proof.
  apply (isStrictMatch_accepts_the_text_itself (js "Blue Moon")). discriminate.
Defined.

Lemma toLowerUnit_toLowerCase (c : N) :
  Str.toLowerCase (Chars.toLowerUnit c) = Chars.toLowerUnit c.
Proof.
  unfold Str.toLowerCase, Chars.toLowerUnit, Chars.isUpper, Chars.between.
  destruct ((65 <=? c)%N && (c <=? 90)%N) eqn:Hup.
  - apply andb_true_iff in Hup as [H1 H2].
    apply N.leb_le in H1, H2. cbn [flat_map app].
    unfold Chars.toLowerUnit, Chars.isUpper, Chars.between.
    replace (c + 32 <=? 90)%N with false by (symmetry; apply N.leb_gt; lia).
    rewrite andb_false_r.
    replace (c + 32 =? 304)%N with false by (symmetry; apply N.eqb_neq; lia).
    replace (c + 32 =? 8490)%N with false by (symmetry; apply N.eqb_neq; lia).
    reflexivity.
  - destruct (c =? 304)%N eqn:H304; [reflexivity|].
    destruct (c =? 8490)%N eqn:H8490; [reflexivity|].
    cbn [flat_map app]. unfold Chars.toLowerUnit, Chars.isUpper, Chars.between.
    rewrite Hup, H304, H8490. reflexivity.
Qed.

Lemma toLowerCase_app (s t : jsstring) :
  Str.toLowerCase (s ++ t) = (Str.toLowerCase s ++ Str.toLowerCase t)%list.
Proof. apply flat_map_app. Qed.

(** Lower case is reached in one step. *)
Lemma toLowerCase_toLowerCase (s : jsstring) :
  Str.toLowerCase (Str.toLowerCase s) = Str.toLowerCase s.
Proof.
  induction s as [|c s IH]; [reflexivity|].
  change (Str.toLowerCase (c :: s))
    with (Chars.toLowerUnit c ++ Str.toLowerCase s)%list.
  rewrite toLowerCase_app, toLowerUnit_toLowerCase, IH. reflexivity.
Qed.

Lemma toLowerCase_isEmpty (s : jsstring) :
  Str.isEmpty (Str.toLowerCase s) = Str.isEmpty s.
Proof.
  destruct s as [|c s]; [reflexivity|].
  change (Str.toLowerCase (c :: s))
    with (Chars.toLowerUnit c ++ Str.toLowerCase s)%list.
  unfold Chars.toLowerUnit.
  destruct (Chars.isUpper c); [reflexivity|].
  destruct (c =? 304)%N; [reflexivity|].
  destruct (c =? 8490)%N; reflexivity.
Qed.

Lemma cleanTitle_toLowerCase (s : jsstring) :
  cleanTitle (Str.toLowerCase s) = cleanTitle s.
Proof. unfold cleanTitle. rewrite toLowerCase_toLowerCase. reflexivity. Qed.

(** X7: the matcher does not see the case of letters: lowering the case of
    the result title, of the track name and of the artist changes no
    verdict. *)
Theorem isStrictMatch_ignores_case (resultTitle targetTrackName : jsstring)
    (targetArtist : option jsstring) :
  isStrictMatch (Some (Str.toLowerCase resultTitle))
    (Str.toLowerCase targetTrackName)
    (option_map Str.toLowerCase targetArtist) =
  isStrictMatch (Some resultTitle) targetTrackName targetArtist.
Proof.
  unfold isStrictMatch.
  rewrite !toLowerCase_isEmpty, !cleanTitle_toLowerCase.
  destruct targetArtist as [artist|]; cbn [option_map Str.truthy Str.get default from_option id];
    [|reflexivity].
  rewrite toLowerCase_isEmpty, cleanTitle_toLowerCase. reflexivity.
Qed.

(** ** The helpers *)

Lemma truthy_false_get (v : option jsstring) :
  Str.truthy v = false -> Str.get v = [].
Proof. destruct v as [[|c s]|]; cbn; congruence. Qed.

Lemma filter_nil_inv {A : Type} (f : A -> bool) (l : list A) :
  List.filter f l = [] -> forall x, In x l -> f x = false.
Proof.
  induction l as [|a l IH]; intros H x Hx; [destruct Hx|].
  cbn [List.filter] in H. destruct (f a) eqn:Ha; [discriminate|].
  destruct Hx as [<-|Hx]; [exact Ha|apply IH; assumption].
Qed.

(** X8: the [--proxy] arguments.  Whatever the random number, the proxy that
    is passed is one of the entries of [PROXY_URL], trimmed, and not empty;
    nothing is passed exactly when [PROXY_URL] has no entry but blank ones.
    No call is made and no file is touched. *)
Theorem proxyArgs_picks_a_configured_proxy (w : World) (st : State) :
  let entries := List.map Str.trim (splitOnChar 44 [] (Str.get (PROXY_URL w))) in
  exists args st',
    proxyArgs w st = (Normal args, st') /\
    calls st' = calls st /\ files st' = files st /\
    ((args = [] /\ forall p, In p entries -> p = []) \/
     (exists p, args = [js "--proxy"; p] /\ p <> [] /\ In p entries)).
Proof.
  cbv zeta. unfold proxyArgs.
  destruct (Str.truthy (PROXY_URL w)) eqn:Hset.
  - set (entries := List.map Str.trim _).
    set (proxies := List.filter _ entries).
    destruct (0 <? length proxies)%nat eqn:Hlen.
    + apply Nat.ltb_lt in Hlen. unfold_monad.
      eexists _, _. split; [reflexivity|]. split; [reflexivity|].
      split; [reflexivity|]. right. eexists. split; [reflexivity|].
      assert (Hin : In (nth (Math_random w (clock st) mod length proxies) proxies [])
                       proxies).
      { apply nth_In, Nat.mod_upper_bound. lia. }
      apply filter_In in Hin as [Hin Hne]. split; [|exact Hin].
      apply isEmpty_false, negb_true_iff, Hne.
    + eexists _, _. split; [reflexivity|]. split; [reflexivity|].
      split; [reflexivity|]. left. split; [reflexivity|].
      intros p Hp. apply Nat.ltb_ge in Hlen.
      assert (Hnil : proxies = []) by (destruct proxies; [reflexivity|cbn in Hlen; lia]).
      pose proof (filter_nil_inv _ _ Hnil p Hp) as Hf.
      apply negb_false_iff in Hf. destruct p; [reflexivity|discriminate].
  - eexists _, _. split; [reflexivity|]. split; [reflexivity|].
    split; [reflexivity|]. left. split; [reflexivity|].
    rewrite (truthy_false_get _ Hset). intros p [<-|[]]. reflexivity.
Qed.

(** A download that is refused before the stream has opened the file leaves
    no file, and the next call tries again. *)
Example ensureYtDlp_tries_again :
  calls (snd (ensureYtDlp Scene.unreachable (js "/tmp")
                (snd (ensureYtDlp Scene.unreachable (js "/tmp") Example.fresh)))) =
  [DownloadFile YTDLP_URL (js "/tmp/yt-dlp_linux_new");
   DownloadFile YTDLP_URL (js "/tmp/yt-dlp_linux_new")].
Proof. reflexivity. Qed.

(** X9: the tool is fetched once.  When [ensureYtDlp] has returned the path
    of the binary, because the file was there or because the download came
    to its end, a further call returns the path at once: it makes no call
    and changes nothing. *)
Theorem ensureYtDlp_downloads_once (w w' : World) (tmpDir binaryPath : jsstring)
    (st st1 : State) :
  ensureYtDlp w tmpDir st = (Normal binaryPath, st1) ->
  ensureYtDlp w' tmpDir st1 = (Normal binaryPath, st1).
Proof.
  intros Hrun.
  assert (Hpresent : binaryPath = path_join tmpDir YTDLP_FILENAME /\
                     is_Some (files st1 !! path_join tmpDir YTDLP_FILENAME)).
  { revert Hrun. unfold ensureYtDlp, downloadFile. unfold_monad.
    destruct (bool_decide _) eqn:Hd.
    - intros Hrun. injection Hrun as <- <-. split; [reflexivity|].
      apply bool_decide_eq_true_1 in Hd. exact Hd.
    - destruct (axios_stream w (clock st) YTDLP_URL) as [content|message [content|]];
        intros Hrun; [|discriminate|discriminate].
      injection Hrun as <- <-. split; [reflexivity|].
      cbn [files setFiles recordCall]. rewrite lookup_insert_eq. eauto. }
  destruct Hpresent as [-> Hpresent].
  unfold ensureYtDlp. unfold_monad.
  rewrite bool_decide_eq_true_2 by exact Hpresent. reflexivity.
Qed.

Lemma ensureYtDlp_downloads_once_witness :
  ensureYtDlp Example.plain (js "/tmp")
    (recordCall (DownloadFile YTDLP_URL (js "/tmp/yt-dlp_linux_new"))
       (setFiles {[ js "/tmp/yt-dlp_linux_new" := js "bytes" ]} Example.fresh)) =
  (Normal (js "/tmp/yt-dlp_linux_new"),
   recordCall (DownloadFile YTDLP_URL (js "/tmp/yt-dlp_linux_new"))
     (setFiles {[ js "/tmp/yt-dlp_linux_new" := js "bytes" ]} Example.fresh)).
Proof.
  apply (ensureYtDlp_downloads_once Example.plain Example.plain (js "/tmp")
           (js "/tmp/yt-dlp_linux_new") Example.fresh).
  vm_compute. reflexivity.
Defined.

Lemma requestSpotifyToken_cache (w : World) (clientId clientSecret : jsstring)
    (st st1 : State) (token : jsstring) :
  requestSpotifyToken w clientId clientSecret st = (Normal (Some token), st1) ->
  spotifyTokenCache st1 = Some token.
Proof.
  unfold requestSpotifyToken. unfold_monad.
  destruct (spotify_token w _ _ _) as [response|e]; [|discriminate].
  intros H. injection H as H <-. exact H.
Qed.

(** X10: a token that [getSpotifyToken] returned is the cached one: as long as
    the clock is before the expiry time, the next call returns it again
    without asking the token endpoint. *)
Theorem getSpotifyToken_reuses_the_token (w : World) (st st1 : State)
    (token : jsstring) :
  getSpotifyToken w st = (Normal (Some token), st1) ->
  token <> [] ->
  (Date_now w (clock st1) < spotifyTokenExpiry st1)%Z ->
  getSpotifyToken w st1 = (Normal (Some token), tick st1).
Proof.
  intros Hfirst Htoken Hvalid.
  assert (Hcache : spotifyTokenCache st1 = Some token /\
                   negb (Str.truthy (SPOTIFY_CLIENT_ID w)) ||
                   negb (Str.truthy (SPOTIFY_CLIENT_SECRET w)) = false).
  { revert Hfirst. unfold getSpotifyToken.
    destruct (negb _ || negb _); [discriminate|].
    cbv beta iota delta [bind readTokenCache ask ret fst snd].
    destruct (Str.truthy (spotifyTokenCache st)) eqn:Hc.
    - destruct (Date_now w (clock st) <? spotifyTokenExpiry st)%Z.
      + intros H. injection H as H <-. split; [exact H|reflexivity].
      + intros H. apply requestSpotifyToken_cache in H. auto.
    - intros H. apply requestSpotifyToken_cache in H. auto. }
  destruct Hcache as [Hcache Hcred].
  unfold getSpotifyToken. rewrite Hcred.
  cbv beta iota delta [bind readTokenCache ask ret fst snd]. rewrite Hcache.
  replace (Str.truthy (Some token)) with true
    by (destruct token; [congruence|reflexivity]).
  replace (Date_now w (clock st1) <? spotifyTokenExpiry st1)%Z with true
    by (symmetry; apply Z.ltb_lt; exact Hvalid).
  reflexivity.
Qed.

Lemma getSpotifyToken_reuses_the_token_witness :
  let st1 := snd (getSpotifyToken Scene.spotify Example.fresh) in
  getSpotifyToken Scene.spotify st1 = (Normal (Some (js "token-1")), tick st1).
Proof.
  apply (getSpotifyToken_reuses_the_token Scene.spotify Example.fresh
           (snd (getSpotifyToken Scene.spotify Example.fresh)) (js "token-1")).
  - vm_compute. reflexivity.
  - discriminate.
  - vm_compute. reflexivity.
Defined.

Lemma downloadFromDeezer_files (w : World) (query binaryPath tmpDir : jsstring)
    (st : State) :
  files (snd (downloadFromDeezer w query binaryPath tmpDir st)) ⊆ files st.
Proof.
  unfold downloadFromDeezer, createDeezerCookieFile.
  destruct (negb (Str.truthy (DEEZER_ARL w))); [reflexivity|].
  unfold_monad.
  destruct (deezer_search w (clock st) query) as [[|track tracks]|e];
    [reflexivity| |reflexivity].
  cbn [files setFiles recordCall tick clock calls].
  rewrite bool_decide_eq_true_2 by (rewrite lookup_insert_eq; eauto).
  match goal with
  | |- context [ex_error ?r] => destruct (ex_error r)
  end;
    [|match goal with
      | |- context [JSON_parse w ?o] => destruct (JSON_parse w o)
      end];
    cbn [snd files setFiles recordCall tick]; rewrite delete_insert_eq;
    apply delete_subseteq.
Qed.

(** X11: [downloadFromDeezer] leaves no file behind.  The cookie file that
    holds the session is removed as soon as the tool has run, whatever the
    tool answered: every file present afterwards was there before, with the
    same content. *)
Theorem downloadFromDeezer_leaves_no_cookie (w : World)
    (query binaryPath tmpDir : jsstring) (st : State) :
  files (snd (downloadFromDeezer w query binaryPath tmpDir st)) ⊆ files st.
Proof. apply downloadFromDeezer_files. Qed.

Lemma or_else_truthy (a b : option jsstring) :
  Str.truthy b = true -> Str.truthy (Str.or_else a b) = true.
Proof.
  intros Hb. unfold Str.or_else. destruct (Str.truthy a) eqn:Ha; assumption.
Qed.

(** X12: a result of [downloadFromDeezer] is complete: it has a title and a
    URL that are not empty, whatever the tool printed, and its extractor is
    [deezer]. *)
Theorem downloadFromDeezer_result_is_complete (w : World)
    (query binaryPath tmpDir : jsstring) (st st1 : State) (meta : Metadata) :
  downloadFromDeezer w query binaryPath tmpDir st = (Normal (Some meta), st1) ->
  Str.truthy (title meta) = true /\
  Str.truthy (url meta) = true /\
  extractor meta = Some (js "deezer").
Proof.
  unfold downloadFromDeezer, createDeezerCookieFile.
  destruct (negb (Str.truthy (DEEZER_ARL w))); [discriminate|].
  unfold_monad.
  destruct (deezer_search w (clock st) query) as [[|track tracks]|e];
    try discriminate.
  cbn [files setFiles recordCall tick clock calls].
  rewrite bool_decide_eq_true_2 by (rewrite lookup_insert_eq; eauto).
  match goal with
  | |- context [ex_error ?r] => destruct (ex_error r)
  end; [discriminate|].
  match goal with
  | |- context [JSON_parse w ?o] => destruct (JSON_parse w o) as [data|]
  end; [|discriminate].
  intros H. injection H as <- _. cbn [title url extractor].
  repeat split; apply or_else_truthy.
  - destruct (dz_artist_name track); reflexivity.
  - reflexivity.
Qed.

Lemma downloadFromDeezer_result_is_complete_witness :
  let meta :=
    {| title := Some (js "https://www.deezer.com/track/3135556");
       url := Some (js "https://media.example/https://www.deezer.com/track/3135556");
       duration := Some (200 # 1);
       extractor := Some (js "deezer") |} in
  Str.truthy (title meta) = true /\
  Str.truthy (url meta) = true /\
  extractor meta = Some (js "deezer").
Proof.
  refine (downloadFromDeezer_result_is_complete Example.withDeezer
            (js "harder better") (js "/tmp/yt-dlp_linux_new") (js "/tmp")
            Example.fresh
            (snd (downloadFromDeezer Example.withDeezer (js "harder better")
                    (js "/tmp/yt-dlp_linux_new") (js "/tmp") Example.fresh))
            _ _).
  vm_compute. reflexivity.
Defined.

(** Choosing a proxy makes no call and touches neither the files nor the
    token cache; it only takes time. *)
Lemma proxyArgs_quiet (w : World) (st : State) :
  exists args st',
    proxyArgs w st = (Normal args, st') /\
    calls st' = calls st /\ files st' = files st /\
    spotifyTokenCache st' = spotifyTokenCache st /\
    spotifyTokenExpiry st' = spotifyTokenExpiry st.
Proof.
  unfold proxyArgs. destruct (Str.truthy (PROXY_URL w)).
  - destruct (0 <? _)%nat; unfold_monad; eauto 10.
  - eauto 10.
Qed.

Lemma firstRelevantDoc_url (query : jsstring) (docs : list ArchiveDoc)
    (hit : ArchiveHit) :
  firstRelevantDoc query docs = Some hit ->
  exists identifier, hit_url hit = (js "https://archive.org/details/" ++ identifier)%list.
Proof.
  unfold firstRelevantDoc.
  induction docs as [|doc docs IH]; [discriminate|].
  cbn [checkDocs].
  destruct (isStrictMatchValue (doc_title doc) query) as [[|]|e];
    [|exact IH|discriminate].
  intros H. injection H as <-. eexists. reflexivity.
Qed.

Lemma schemeRegex_https (rest : jsstring) :
  test schemeRegex (js "https://" ++ rest) = true.
Proof. reflexivity. Qed.

(** X13: the archive source.  [getMetadata] first asks the archive; when no
    document is relevant (or the search fails, or the relevance check throws
    before it has found one) it returns [null] and the tool is not run; otherwise the tool is run once, on the details page of
    the first relevant document and on nothing else: that address stands
    first among the arguments as it is, without a search prefix. *)
Theorem getMetadata_archive_runs_the_tool_on_the_hit (w : World)
    (query binaryPath : jsstring) (st : State) :
  let result := getMetadata w query binaryPath (Some archive) st in
  let hit :=
    match archive_search w (clock st) query with
    | Ok docs => firstRelevantDoc query docs
    | Err _ => None
    end in
  match hit with
  | Some hit =>
      exists args,
        calls (snd result) =
        (calls st ++ [ArchiveSearch query;
                      ExecFile binaryPath (hit_url hit :: args)])%list
  | None => result = (Normal None, recordCall (ArchiveSearch query) st)
  end.
Proof.
  cbv zeta. unfold getMetadata, searchArchiveOrg.
  cbv beta iota delta [bind call ret fst snd].
  destruct (match archive_search w (clock st) query with
            | Ok docs => firstRelevantDoc query docs
            | Err _ => None
            end) as [hit|] eqn:Hhit; [|reflexivity].
  assert (Hurl : test schemeRegex (hit_url hit) = true).
  { destruct (archive_search w (clock st) query) as [docs|e]; [|discriminate].
    apply firstRelevantDoc_url in Hhit as [identifier ->].
    apply (schemeRegex_https (js "archive.org/details/" ++ identifier)). }
  unfold getMetadataFromTool. rewrite Hurl.
  destruct (proxyArgs_quiet w (recordCall (ArchiveSearch query) st))
    as (proxy & st1 & Hproxy & Hcalls & _).
  cbv beta iota delta [bind call ret fst snd]. rewrite Hproxy.
  eexists.
  match goal with
  | |- context [ex_error ?r] => destruct (ex_error r)
  end;
    [|match goal with
      | |- context [JSON_parse w ?o] => destruct (JSON_parse w o)
      end];
    cbn [snd calls recordCall]; rewrite Hcalls; cbn [calls recordCall];
    rewrite <- app_assoc; reflexivity.
Qed.

Lemma startsWith_app (s a b : jsstring) :
  Str.startsWith s (a ++ b) =
  Str.startsWith s a && Str.startsWith (skipn (length a) s) b.
Proof.
  revert s. induction a as [|x a IH]; intros s.
  - rewrite startsWith_nil. reflexivity.
  - destruct s as [|y s]; cbn [app Str.startsWith length skipn]; [reflexivity|].
    rewrite IH, andb_assoc. reflexivity.
Qed.

(** [getMetadata] takes for a URL what starts with [http://] or
    [https://]. *)
Lemma test_schemeRegex (s : jsstring) :
  test schemeRegex s =
  Str.startsWith s (js "http://") || Str.startsWith s (js "https://").
Proof.
  change (js "http://") with (js "http" ++ js "://")%list.
  change (js "https://") with (js "https" ++ js "://")%list.
  rewrite !startsWith_app.
  unfold test, schemeRegex. cbn [seqs]. rewrite exec_Bol. unfold matchAt.
  rewrite run_Seq, run_Bol. cbn [Nat.eqb]. rewrite run_Seq, run_Group, run_Alt.
  rewrite !run_lit. cbv beta. rewrite ?run_lit.
  destruct (Str.startsWith s (js "http")); cbn [andb orb];
    [destruct (Str.startsWith (skipn (length (js "http")) s) (js "://"));
     cbn [andb orb]; [reflexivity|]|];
    (destruct (Str.startsWith s (js "https")); cbn [andb orb]; [|reflexivity];
     destruct (Str.startsWith (skipn (length (js "https")) s) (js "://"));
     reflexivity).
Qed.

(** X14: what the tool is asked for.  For a source other than the archive,
    [getMetadata] runs the tool once; its first argument is the text itself
    when the text starts with [http://] or [https://], whatever the source,
    and otherwise the text behind the search prefix of the source
    ([ytsearch1:], [scsearch1:], or nothing without a source). *)
Theorem getMetadata_search_target (w : World) (queryOrUrl binaryPath : jsstring)
    (forceSource : option Source) (st : State) :
  forceSource <> Some archive ->
  let isUrl :=
    Str.startsWith queryOrUrl (js "http://") ||
    Str.startsWith queryOrUrl (js "https://") in
  let searchPrefix :=
    match forceSource with
    | Some youtube => js "ytsearch1:"
    | Some soundcloud => js "scsearch1:"
    | _ => []
    end in
  let target := if isUrl then queryOrUrl else (searchPrefix ++ queryOrUrl)%list in
  exists args,
    calls (snd (getMetadata w queryOrUrl binaryPath forceSource st)) =
    (calls st ++ [ExecFile binaryPath (target :: args)])%list.
Proof.
  intros Hsource. cbv zeta. rewrite <- test_schemeRegex.
  assert (Htool : getMetadata w queryOrUrl binaryPath forceSource =
                  getMetadataFromTool w queryOrUrl binaryPath forceSource)
    by (destruct forceSource as [[]|]; congruence || reflexivity).
  rewrite Htool. unfold getMetadataFromTool.
  destruct (proxyArgs_quiet w st) as (proxy & st1 & Hproxy & Hcalls & _).
  cbv beta iota delta [bind call ret fst snd]. rewrite Hproxy.
  eexists.
  match goal with
  | |- context [ex_error ?r] => destruct (ex_error r)
  end;
    [|match goal with
      | |- context [JSON_parse w ?o] => destruct (JSON_parse w o)
      end];
    cbn [snd calls recordCall]; rewrite Hcalls; reflexivity.
Qed.

Lemma getMetadata_search_target_witness :
  exists args,
    calls (snd (getMetadata Example.plain (js "Blue Moon")
                  (js "/tmp/yt-dlp_linux_new") (Some soundcloud) Example.fresh)) =
    ([] ++ [ExecFile (js "/tmp/yt-dlp_linux_new")
              ((js "scsearch1:" ++ js "Blue Moon")%list :: args)])%list.
Proof.
  apply (getMetadata_search_target Example.plain (js "Blue Moon")
           (js "/tmp/yt-dlp_linux_new") (Some soundcloud) Example.fresh).
  discriminate.
Defined.

(** *** The cover lookup *)

Lemma getSpotifyToken_returns (w : World) (st : State) :
  exists token st', getSpotifyToken w st = (Normal token, st').
Proof.
  unfold getSpotifyToken, requestSpotifyToken.
  destruct (negb _ || negb _); [eauto|]. unfold_monad.
  destruct (Str.truthy (spotifyTokenCache st));
    [destruct (Date_now w (clock st) <? spotifyTokenExpiry st)%Z; [eauto|]|];
    destruct (spotify_token w _ _ _); eauto.
Qed.

Lemma getSpotifyCover_returns (w : World) (trackName : jsstring)
    (artistName : option jsstring) (st : State) :
  exists coverUrl st', getSpotifyCover w trackName artistName st = (Normal coverUrl, st').
Proof.
  unfold getSpotifyCover.
  destruct (getSpotifyToken_returns w st) as (token & st1 & Htoken).
  cbv beta iota delta [bind]. rewrite Htoken.
  destruct (negb (Str.truthy token)); unfold_monad; eauto.
Qed.

(** X15: the cover lookup always ends with a cover.  Whatever the catalogs
    answer, and whether they answer at all, [findCover] neither throws nor
    ends the request, and the address it gives is not empty: the one of
    Spotify, else the one of Deezer, else the placeholder. *)
Theorem findCover_always_gives_a_cover (w : World) (query : jsstring) (st : State) :
  exists coverUrl st',
    findCover w query st = (Normal coverUrl, st') /\ coverUrl <> [].
Proof.
  unfold findCover.
  assert (Hfirst : exists coverUrl st1,
             (if Str.truthy (fst (splitQuery query))
              then getSpotifyCover w (Str.get (fst (splitQuery query)))
                     (snd (splitQuery query))
              else ret None) st = (Normal coverUrl, st1)).
  { destruct (Str.truthy _); [apply getSpotifyCover_returns|].
    unfold ret. eauto. }
  destruct Hfirst as (cover1 & st1 & Hfirst).
  cbv beta iota delta [bind]. rewrite Hfirst.
  assert (Hnonempty : forall v : option jsstring,
             (if Str.truthy v then Str.get v else PLACEHOLDER_COVER) <> []).
  { intros [[|c s]|]; discriminate. }
  destruct (Str.truthy cover1); unfold getDeezerCover; unfold_monad;
    eexists _, _; (split; [reflexivity|apply Hnonempty]).
Qed.

(** ** The handler as a whole *)

(** The handler and everything it calls, unfolded down to the calls. *)
Ltac unfold_handler :=
  unfold handleSearchMode, pipeline, onError, analyzeInput, readLinkTitle,
    ensureYtDlp, resolveAudio, searchTiers, deezerTier, soundcloudTier,
    youtubeTier, archiveTier, chooseVideo, findCover, deliver, mergeStep,
    getMetadata, searchArchiveOrg, getMetadataFromTool, downloadFromDeezer,
    createDeezerCookieFile, proxyArgs, getSpotifyCover, getSpotifyToken,
    requestSpotifyToken, getDeezerCover, downloadFile, sendMessage.

(** X16: the handler talks to the chat of the message and to no other: every
    message, every animation and every video of a run is addressed to
    [msg.chat.id]. *)
Theorem handleSearchMode_answers_in_the_chat (w : World) (msg : Message)
    (st : State) :
  exists new,
    calls (snd (handleSearchMode w msg st)) = (calls st ++ new)%list /\
    Forall (toChat (chat_id msg)) new.
Proof.
  revert st. change (emits (toChat (chat_id msg)) (handleSearchMode w msg)).
  unfold_handler. steps_auto; exact I || reflexivity.
Qed.

(** X17: without a Deezer session ([DEEZER_ARL] missing or empty) the Deezer
    tier is skipped: no run searches the Deezer catalog for a track to
    download. *)
Theorem handleSearchMode_skips_deezer_without_session (w : World)
    (msg : Message) (st : State) :
  Str.truthy (DEEZER_ARL w) = false ->
  exists new,
    calls (snd (handleSearchMode w msg st)) = (calls st ++ new)%list /\
    Forall (fun c => ~ isDeezerTrackSearch c) new.
Proof.
  intros Harl. revert st.
  change (emits (fun c => ~ isDeezerTrackSearch c) (handleSearchMode w msg)).
  unfold_handler. rewrite !Harl. cbv iota.
  steps_auto; exact (fun H => H).
Qed.

Lemma handleSearchMode_skips_deezer_without_session_witness :
  exists new,
    calls (snd (handleSearchMode Example.plain (Example.message (js "Blue Moon"))
                  Example.fresh)) = ([] ++ new)%list /\
    Forall (fun c => ~ isDeezerTrackSearch c) new.
Proof.
  apply (handleSearchMode_skips_deezer_without_session Example.plain
           (Example.message (js "Blue Moon")) Example.fresh).
  reflexivity.
Defined.

Lemma getSpotifyCover_without_credentials (w : World) (trackName : jsstring)
    (artistName : option jsstring) (st : State) :
  Str.truthy (SPOTIFY_CLIENT_ID w) = false \/
  Str.truthy (SPOTIFY_CLIENT_SECRET w) = false ->
  getSpotifyCover w trackName artistName st = (Normal None, st).
Proof.
  intros Hcred. unfold getSpotifyCover, getSpotifyToken.
  replace (negb (Str.truthy (SPOTIFY_CLIENT_ID w)) ||
           negb (Str.truthy (SPOTIFY_CLIENT_SECRET w))) with true
    by (destruct Hcred as [-> | ->]; [reflexivity|symmetry; apply orb_true_r]).
  reflexivity.
Qed.

(** X18: without Spotify credentials (client id or secret missing or empty)
    no run asks Spotify for anything, neither for a token nor for a track;
    the cover then comes from Deezer or is the placeholder. *)
Theorem handleSearchMode_skips_spotify_without_credentials (w : World)
    (msg : Message) (st : State) :
  Str.truthy (SPOTIFY_CLIENT_ID w) = false \/
  Str.truthy (SPOTIFY_CLIENT_SECRET w) = false ->
  exists new,
    calls (snd (handleSearchMode w msg st)) = (calls st ++ new)%list /\
    Forall (fun c => ~ isSpotifyCall c) new.
Proof.
  intros Hcred. revert st.
  change (emits (fun c => ~ isSpotifyCall c) (handleSearchMode w msg)).
  assert (Hcover : forall query,
             emits (fun c => ~ isSpotifyCall c) (findCover w query)).
  { intros query st. unfold findCover. cbv beta iota delta [bind].
    assert (Hnone : (if Str.truthy (fst (splitQuery query))
                     then getSpotifyCover w (Str.get (fst (splitQuery query)))
                            (snd (splitQuery query))
                     else ret None) st = (Normal None, st)).
    { destruct (Str.truthy (fst (splitQuery query))); [|reflexivity].
      apply getSpotifyCover_without_credentials, Hcred. }
    rewrite Hnone. cbn [Str.truthy]. unfold getDeezerCover. unfold_monad.
    exists [DeezerCoverSearch query]. split; [reflexivity|].
    repeat constructor. exact (fun H => H). }
  unfold handleSearchMode, pipeline, onError, analyzeInput, readLinkTitle,
    ensureYtDlp, resolveAudio, searchTiers, deezerTier, soundcloudTier,
    youtubeTier, archiveTier, chooseVideo, deliver, mergeStep,
    getMetadata, searchArchiveOrg, getMetadataFromTool, downloadFromDeezer,
    createDeezerCookieFile, proxyArgs, downloadFile, sendMessage.
  steps_auto; first [apply Hcover | exact (fun H => H)].
Qed.

Lemma handleSearchMode_skips_spotify_without_credentials_witness :
  exists new,
    calls (snd (handleSearchMode Example.plain (Example.message (js "Blue Moon"))
                  Example.fresh)) = ([] ++ new)%list /\
    Forall (fun c => ~ isSpotifyCall c) new.
Proof.
  apply (handleSearchMode_skips_spotify_without_credentials Example.plain
           (Example.message (js "Blue Moon")) Example.fresh).
  left. reflexivity.
Defined.

(** X19: the notice "Processing Link..." is never sent.  Its branch asks for a
    text that matches the URL pattern after the branches before it have
    taken every such text: the one that is no DSP link is rejected, the one
    that is a DSP link is read as one. *)
Theorem handleSearchMode_never_sends_processing_link (w : World) (msg : Message)
    (st : State) :
  exists new,
    calls (snd (handleSearchMode w msg st)) = (calls st ++ new)%list /\
    Forall (fun c => ~ isProcessingLink c) new.
Proof.
  revert st.
  change (emits (fun c => ~ isProcessingLink c) (handleSearchMode w msg)).
  unfold handleSearchMode, pipeline, analyzeInput.
  destruct (test urlRegex (Str.get (text msg)));
    destruct (test dspRegex (Str.get (text msg))); cbn [andb negb]; cbv iota;
    unfold onError, readLinkTitle,
      ensureYtDlp, resolveAudio, searchTiers, deezerTier, soundcloudTier,
      youtubeTier, archiveTier, chooseVideo, findCover, deliver, mergeStep,
      getMetadata, searchArchiveOrg, getMetadataFromTool, downloadFromDeezer,
      createDeezerCookieFile, proxyArgs, getSpotifyCover, getSpotifyToken,
      requestSpotifyToken, getDeezerCover, downloadFile, sendMessage;
    steps_auto; exact (fun H => H).
Qed.

(** ** Rejections *)

(** X20: an album or a playlist link is turned down at once.  For a text that
    matches the DSP pattern and contains [/album/] or [/playlist/], every
    call of the run is a message to the user: no page is fetched, no
    resolver, download or cover lookup is invoked.  In a run that takes the
    lock, when the chat accepts the explanation (for an album if the text
    contains [/album/], for a playlist otherwise), it is the only call, the
    run ends normally and the lock is gone again. *)
Theorem album_or_playlist_link_is_rejected (w : World) (msg : Message)
    (st : State) (s : jsstring) :
  text msg = Some s ->
  test dspRegex s = true ->
  Str.includes s (js "/album/") || Str.includes s (js "/playlist/") = true ->
  let linkType :=
    if Str.includes s (js "/album/") then js "album" else js "playlist" in
  let final := snd (handleSearchMode w msg st) in
  (exists new,
     calls final = (calls st ++ new)%list /\ Forall isSendMessage new) /\
  (files st !! lockFileOf w (chat_id msg) = None ->
   forall mid,
     bot_sendMessage w (clock st) (chat_id msg) (LinkTypeUnsupported linkType)
       = Ok mid ->
     handleSearchMode w msg st =
       (Normal tt,
        {| files := files st;
           spotifyTokenCache := spotifyTokenCache st;
           spotifyTokenExpiry := spotifyTokenExpiry st;
           calls := (calls st ++
                     [SendMessage (chat_id msg) (LinkTypeUnsupported linkType)])%list;
           clock := S (clock st) |})).
Proof.
  intros Htext Hdsp Hkind linkType.
  destruct (files st !! lockFileOf w (chat_id msg)) as [content|] eqn:Hfree.
  { cbn zeta.
    rewrite (handleSearchMode_locked w msg st) by (rewrite Hfree; eauto).
    cbn [snd]. split; [|intros H; discriminate].
    exists []. rewrite app_nil_r. split; [reflexivity|constructor]. }
  assert (Hne : s <> []) by (eapply test_nonempty; [|exact Hdsp]; reflexivity).
  unfold handleSearchMode.
  rewrite (truthy_text msg s Htext Hne), Htext.
  cbn [negb Str.get default from_option id].
  unfold pipeline, analyzeInput. rewrite Hdsp, Hkind. fold linkType.
  rewrite andb_false_r. cbv iota.
  unfold_monad. cbn [files setFiles recordCall clock calls].
  rewrite bool_decide_eq_false_2 by (rewrite Hfree; apply is_Some_None).
  cbn [files setFiles recordCall clock calls].
  destruct (bot_sendMessage w (clock st) (chat_id msg)
              (LinkTypeUnsupported linkType)) as [mid|e] eqn:Hsend.
  - cbn [files setFiles recordCall clock calls].
    rewrite bool_decide_eq_true_2 by (rewrite lookup_insert_eq; eauto).
    cbn [files setFiles recordCall clock calls snd].
    split.
    + exists [SendMessage (chat_id msg) (LinkTypeUnsupported linkType)].
      split; [reflexivity|repeat constructor].
    + intros _ mid' _. f_equal. unfold setFiles. cbn. f_equal.
      rewrite delete_insert_eq. apply delete_id. exact Hfree.
  - unfold onError. unfold_monad. cbn [files setFiles recordCall clock calls].
    destruct (bot_sendMessage w (S (clock st)) (chat_id msg) (ErrorReply e));
      cbn [files setFiles recordCall clock calls snd];
      [match goal with |- context [bool_decide ?P] => destruct (bool_decide P) end;
       cbn [files setFiles recordCall clock calls snd]|];
      (split; [|intros _ mid' H; discriminate];
       exists [SendMessage (chat_id msg) (LinkTypeUnsupported linkType);
               SendMessage (chat_id msg) (ErrorReply e)];
       split; [rewrite <- app_assoc; reflexivity|repeat constructor]).
Qed.

Lemma album_or_playlist_link_is_rejected_witness :
  handleSearchMode Example.plain
    (Example.message (js "https://open.spotify.com/album/4m2880jivSbbyEGAKfITCa"))
    Example.fresh =
  (Normal tt,
   {| files := files Example.fresh;
      spotifyTokenCache := None; spotifyTokenExpiry := 0;
      calls := [SendMessage 42 (LinkTypeUnsupported (js "album"))]; clock := 1 |}).
Proof.
  refine (proj2 (album_or_playlist_link_is_rejected Example.plain
                   (Example.message
                      (js "https://open.spotify.com/album/4m2880jivSbbyEGAKfITCa"))
                   Example.fresh
                   (js "https://open.spotify.com/album/4m2880jivSbbyEGAKfITCa")
                   _ _ _) _ 0%Z _);
    vm_compute; reflexivity.
Defined.

Lemma bind_Exit {A B : Type} (m : M A) (f : A -> M B) (st st1 : State) :
  m st = (Exit, st1) -> bind m f st = (Exit, st1).
Proof. intros H. unfold bind. rewrite H. reflexivity. Qed.

Lemma bind_Thrown {A B : Type} (m : M A) (f : A -> M B) (st st1 : State)
    (e : jsstring) :
  m st = (Thrown e, st1) -> bind m f st = (Thrown e, st1).
Proof. intros H. unfold bind. rewrite H. reflexivity. Qed.

Lemma unlinkIfExists_present (path : jsstring) (st : State) :
  is_Some (files st !! path) ->
  unlinkIfExists path st = (Normal tt, setFiles (delete path (files st)) st).
Proof.
  intros H. unfold unlinkIfExists, bind, existsSync, unlinkSync.
  rewrite bool_decide_eq_true_2 by exact H. reflexivity.
Qed.

Lemma unlinkIfExists_absent (path : jsstring) (st : State) :
  files st !! path = None -> unlinkIfExists path st = (Normal tt, st).
Proof.
  intros H. unfold unlinkIfExists, bind, existsSync, ret.
  rewrite bool_decide_eq_false_2 by (rewrite H; apply is_Some_None).
  reflexivity.
Qed.

(** Taking the lock and releasing it leaves the files as they were. *)
Lemma released_state (st : State) (lockFile content : jsstring) :
  files st !! lockFile = None ->
  delete lockFile (<[lockFile := content]> (files st)) = files st.
Proof. intros H. rewrite delete_insert_eq. apply delete_id, H. Qed.

Lemma readLinkTitle_unreadable (w : World) (chatId : Z) (s : jsstring)
    (st : State) :
  pageTitle (axios_page w (clock st) s) = None ->
  exists e, readLinkTitle w chatId s st = (Thrown e, recordCall (FetchPage s) st).
Proof.
  unfold pageTitle, readLinkTitle. unfold_monad.
  destruct (axios_page w (clock st) s) as [html|e]; [|eauto].
  destruct (exec titleRegex html) as [titleMatch|]; [|eauto].
  destruct (Str.isEmpty _); [eauto|discriminate].
Qed.

(** X21: a link whose page cannot be read is reported and dropped.  For a DSP
    link that is no album or playlist link, in a run that takes the lock:
    when the page cannot be fetched, or has no [title] element, or an empty
    one, the user is told to type the track by hand (with the text for
    Amazon Music when the link contains [amazon]), nothing is searched or
    downloaded, the run ends normally and the lock is gone again. *)
Theorem unreadable_link_is_reported (w : World) (msg : Message) (st : State)
    (s : jsstring) (mid1 mid2 : Z) :
  text msg = Some s ->
  test dspRegex s = true ->
  Str.includes s (js "/album/") || Str.includes s (js "/playlist/") = false ->
  files st !! lockFileOf w (chat_id msg) = None ->
  bot_sendMessage w (clock st) (chat_id msg) ReadingLinkMetadata = Ok mid1 ->
  pageTitle (axios_page w (S (clock st)) s) = None ->
  let reply :=
    if Str.includes s (js "amazon") then AmazonLinkUnreadable else LinkUnreadable in
  bot_sendMessage w (S (S (clock st))) (chat_id msg) reply = Ok mid2 ->
  handleSearchMode w msg st =
    (Normal tt,
     {| files := files st;
        spotifyTokenCache := spotifyTokenCache st;
        spotifyTokenExpiry := spotifyTokenExpiry st;
        calls := (calls st ++
                  [SendMessage (chat_id msg) ReadingLinkMetadata;
                   FetchPage s;
                   SendMessage (chat_id msg) reply])%list;
        clock := S (S (S (clock st))) |}).
Proof.
  intros Htext Hdsp Hkind Hfree Hreading Hpage reply Hreply.
  assert (Hne : s <> []) by (eapply test_nonempty; [|exact Hdsp]; reflexivity).
  rewrite (handleSearchMode_unlocked w msg st s Htext Hne Hfree).
  set (chatId := chat_id msg) in *. set (lockFile := lockFileOf w chatId) in *.
  set (st0 := setFiles (<[lockFile := js "processing"]> (files st)) st).
  set (st1 := recordCall (SendMessage chatId ReadingLinkMetadata) st0).
  set (st2 := recordCall (FetchPage s) st1).
  set (st3 := recordCall (SendMessage chatId reply) st2).
  destruct (readLinkTitle_unreadable w chatId s st1 Hpage) as [e Hread].
  assert (Hanalyze : analyzeInput w chatId lockFile s st0 =
                     (Exit, setFiles (delete lockFile (files st3)) st3)).
  { unfold analyzeInput. rewrite Hdsp, Hkind, andb_false_r. cbv iota.
    rewrite (bind_Normal _ _ st0 st1 mid1)
      by (rewrite sendMessage_run; cbn [clock setFiles st0]; rewrite Hreading;
          reflexivity).
    unfold tryCatch. fold st2 in Hread. rewrite Hread.
    replace (if Str.includes s (js "amazon")
             then sendMessage w chatId AmazonLinkUnreadable
             else sendMessage w chatId LinkUnreadable)
      with (sendMessage w chatId reply)
      by (subst reply; destruct (Str.includes s (js "amazon")); reflexivity).
    rewrite (bind_Normal _ _ st2 st3 mid2)
      by (rewrite sendMessage_run; cbn [clock recordCall setFiles st0 st1 st2];
          rewrite Hreply; reflexivity).
    rewrite (bind_Normal _ _ st3 _ tt
               (unlinkIfExists_present lockFile st3
                  ltac:(cbn; rewrite lookup_insert_eq; eauto))).
    reflexivity. }
  unfold functionBody, tryCatch, pipeline.
  rewrite (bind_Exit _ _ _ _ Hanalyze).
  f_equal. unfold setFiles, st3, st2, st1, st0, recordCall, setFiles.
  cbn [files spotifyTokenCache spotifyTokenExpiry calls clock].
  rewrite released_state by exact Hfree. rewrite <- !app_assoc. reflexivity.
Qed.

Lemma unreadable_link_is_reported_witness :
  handleSearchMode Scene.offline
    (Example.message (js "https://music.amazon.com/albums/B0?trackAsin=B1"))
    Example.fresh =
  (Normal tt,
   {| files := files Example.fresh;
      spotifyTokenCache := None; spotifyTokenExpiry := 0;
      calls := [SendMessage 42 ReadingLinkMetadata;
                FetchPage (js "https://music.amazon.com/albums/B0?trackAsin=B1");
                SendMessage 42 AmazonLinkUnreadable];
      clock := 3 |}).
Proof.
  refine (unreadable_link_is_reported Scene.offline
            (Example.message (js "https://music.amazon.com/albums/B0?trackAsin=B1"))
            Example.fresh
            (js "https://music.amazon.com/albums/B0?trackAsin=B1") 0%Z 2%Z
            _ _ _ _ _ _ _);
    vm_compute; reflexivity.
Defined.

(** ** A search that finds nothing *)

Lemma lookedUp_refl (st : State) : lookedUp st st.
Proof.
  repeat split; try reflexivity.
  exists []. rewrite app_nil_r. split; [reflexivity|constructor].
Qed.

Lemma lookedUp_trans (st1 st2 st3 : State) :
  lookedUp st1 st2 -> lookedUp st2 st3 -> lookedUp st1 st3.
Proof.
  intros ((n1 & E1 & F1) & S1 & T1 & X1) ((n2 & E2 & F2) & S2 & T2 & X2).
  repeat split; try congruence.
  - exists (n1 ++ n2)%list. rewrite E2, E1, app_assoc.
    split; [reflexivity|apply Forall_app; split; assumption].
  - etransitivity; eassumption.
Qed.

Lemma lookedUp_call (c : Call) (st : State) :
  isAudioLookup c -> lookedUp st (recordCall c st).
Proof.
  intros Hc. repeat split; try reflexivity.
  exists [c]. split; [reflexivity|repeat constructor; exact Hc].
Qed.

Section NoMatch.

Variable w : World.
Hypothesis tool_fails : forall t binaryPath args,
  ex_error (execFile w t binaryPath args) <> None.

Lemma getMetadataFromTool_fails (queryOrUrl binaryPath : jsstring)
    (forceSource : option Source) (st : State) :
  exists st',
    getMetadataFromTool w queryOrUrl binaryPath forceSource st = (Normal None, st') /\
    lookedUp st st'.
Proof.
  unfold getMetadataFromTool.
  destruct (proxyArgs_quiet w st) as (proxy & st1 & Hproxy & Hcalls & Hfiles & Ht & Hx).
  cbv beta iota delta [bind call ret fst snd]. rewrite Hproxy.
  match goal with
  | |- context [ex_error (execFile w ?t ?b ?a)] =>
      pose proof (tool_fails t b a) as Hfail;
      destruct (ex_error (execFile w t b a)); [|congruence]
  end.
  eexists. split; [reflexivity|].
  eapply lookedUp_trans; [|apply lookedUp_call; exact I].
  repeat split; try congruence.
  - exists []. rewrite app_nil_r. split; [exact Hcalls|constructor].
  - rewrite Hfiles. reflexivity.
Qed.

Lemma getMetadata_fails (queryOrUrl binaryPath : jsstring)
    (forceSource : option Source) (st : State) :
  exists st',
    getMetadata w queryOrUrl binaryPath forceSource st = (Normal None, st') /\
    lookedUp st st'.
Proof.
  unfold getMetadata.
  destruct forceSource as [[]|]; try apply getMetadataFromTool_fails.
  unfold searchArchiveOrg. cbv beta iota delta [bind call ret fst snd].
  set (st1 := recordCall (ArchiveSearch queryOrUrl) st).
  assert (H1 : lookedUp st st1) by (apply lookedUp_call; exact I).
  destruct (match archive_search w (clock st) queryOrUrl with
            | Ok docs => firstRelevantDoc queryOrUrl docs
            | Err _ => None
            end) as [hit|].
  - destruct (getMetadataFromTool_fails (hit_url hit) binaryPath None st1)
      as (st2 & Hrun & H2).
    exists st2. split; [exact Hrun|eapply lookedUp_trans; eassumption].
  - exists st1. split; [reflexivity|exact H1].
Qed.

Lemma downloadFromDeezer_fails (query binaryPath tmpDir : jsstring) (st : State) :
  exists st',
    downloadFromDeezer w query binaryPath tmpDir st = (Normal None, st') /\
    lookedUp st st'.
Proof.
  unfold downloadFromDeezer, createDeezerCookieFile.
  destruct (negb (Str.truthy (DEEZER_ARL w)));
    [exists st; split; [reflexivity|apply lookedUp_refl]|].
  unfold_monad.
  destruct (deezer_search w (clock st) query) as [[|track tracks]|e];
    try (eexists; split; [reflexivity|apply lookedUp_call; exact I]).
  cbn [files setFiles recordCall tick clock calls].
  rewrite bool_decide_eq_true_2 by (rewrite lookup_insert_eq; eauto).
  match goal with
  | |- context [ex_error (execFile w ?t ?b ?a)] =>
      pose proof (tool_fails t b a) as Hfail;
      destruct (ex_error (execFile w t b a)); [|congruence]
  end.
  eexists. split; [reflexivity|].
  repeat split;
    cbn [calls files spotifyTokenCache spotifyTokenExpiry setFiles recordCall tick].
  - eexists [_; _].
    split; [rewrite <- app_assoc; reflexivity|]. repeat constructor.
  - rewrite delete_insert_eq. apply delete_subseteq.
Qed.

Lemma searchTiers_fails (chatId : Z) (tmpDir lockFile : jsstring)
    (input : Input) (binaryPath : jsstring) (st : State) :
  exists st',
    searchTiers w chatId tmpDir lockFile input binaryPath st =
    chooseVideo w chatId lockFile None st' /\
    lookedUp st st'.
Proof.
  unfold searchTiers, deezerTier, soundcloudTier, youtubeTier, archiveTier.
  assert (H1 : exists st1,
             (if Str.truthy (DEEZER_ARL w)
              then downloadFromDeezer w (query input) binaryPath tmpDir
              else ret None) st = (Normal None, st1) /\ lookedUp st st1).
  { destruct (Str.truthy (DEEZER_ARL w)); [apply downloadFromDeezer_fails|].
    exists st. split; [reflexivity|apply lookedUp_refl]. }
  destruct H1 as (st1 & Hrun1 & H1).
  rewrite (bind_Normal _ _ _ _ _ Hrun1).
  destruct (getMetadata_fails (query input) binaryPath (Some soundcloud) st1)
    as (st2 & Hrun2 & H2).
  rewrite (bind_Normal _ _ st1 st2 None)
    by (rewrite (bind_Normal _ _ _ _ _ Hrun2); reflexivity).
  destruct (getMetadata_fails (query input) binaryPath (Some youtube) st2)
    as (st3 & Hrun3 & H3).
  rewrite (bind_Normal _ _ _ _ _ Hrun3).
  destruct (getMetadata_fails (query input) binaryPath (Some archive) st3)
    as (st4 & Hrun4 & H4).
  rewrite (bind_Normal _ _ _ _ _ Hrun4).
  exists st4. split; [reflexivity|].
  eauto using lookedUp_trans.
Qed.

End NoMatch.

Lemma unlinkIfExists_state (path : jsstring) (st : State) :
  unlinkIfExists path st = (Normal tt, setFiles (delete path (files st)) st).
Proof.
  destruct (files st !! path) as [content|] eqn:H.
  - apply unlinkIfExists_present. rewrite H. eauto.
  - rewrite unlinkIfExists_absent by exact H.
    rewrite delete_id by exact H. destruct st; reflexivity.
Qed.

(** X22: a search that finds nothing is reported.  For a text that is neither
    a link nor names a YouTube host, in a run that takes the lock and finds
    the tool in place: when every run of the tool fails, all that happens is
    a series of lookups (the Deezer track search, the tool, the archive
    search) and then the message that no match was found; no cover is looked
    up and nothing is downloaded.  When the chat accepts the message the run
    ends normally, the lock is gone again, no file was added or changed and
    the token cache is as it was. *)
Theorem no_match_is_reported (w : World) (msg : Message) (st : State)
    (s : jsstring) :
  text msg = Some s ->
  s <> [] ->
  test urlRegex s = false ->
  test dspRegex s = false ->
  test youtubeRegex s = false ->
  files st !! lockFileOf w (chat_id msg) = None ->
  is_Some (files st !! path_join (tmpdir w) YTDLP_FILENAME) ->
  (forall t binaryPath args, ex_error (execFile w t binaryPath args) <> None) ->
  (forall t, exists mid,
      bot_sendMessage w t (chat_id msg) NoMatchFound = Ok mid) ->
  exists tries final,
    handleSearchMode w msg st = (Normal tt, final) /\
    calls final =
      (calls st ++ tries ++ [SendMessage (chat_id msg) NoMatchFound])%list /\
    Forall isAudioLookup tries /\
    files final ⊆ files st /\
    spotifyTokenCache final = spotifyTokenCache st /\
    spotifyTokenExpiry final = spotifyTokenExpiry st.
Proof.
  intros Htext Hne Hurl Hdsp Hyt Hfree Hbinary Htool Hbot.
  rewrite (handleSearchMode_unlocked w msg st s Htext Hne Hfree).
  set (chatId := chat_id msg) in *. set (lockFile := lockFileOf w chatId) in *.
  set (st0 := setFiles (<[lockFile := js "processing"]> (files st)) st).
  set (input := {| query := cleanQuery s; trackNameForCheck := s;
                   artistForCheck := None; isDspLink := false;
                   directUrl := None |}).
  set (binaryPath := path_join (tmpdir w) YTDLP_FILENAME) in *.
  destruct (searchTiers_fails w Htool chatId (tmpdir w) lockFile input binaryPath st0)
    as (st1 & Hsearch & ((tries & Hcalls & Htries) & Hfiles & Htoken & Hexpiry)).
  destruct (Hbot (clock st1)) as [mid Hsend].
  set (st2 := recordCall (SendMessage chatId NoMatchFound) st1).
  assert (Hpipeline : pipeline w chatId (tmpdir w) lockFile s st0 =
                      (Exit, setFiles (delete lockFile (files st2)) st2)).
  { unfold pipeline, analyzeInput. rewrite Hurl, Hdsp, Hyt. cbn [andb]. cbv iota.
    rewrite bind_ret_l. fold input.
    assert (Hensure : ensureYtDlp w (tmpdir w) st0 = (Normal binaryPath, st0)).
    { unfold ensureYtDlp. fold binaryPath. unfold_monad.
      destruct (decide (binaryPath = lockFile)) as [->|Hdiff].
      - rewrite bool_decide_eq_true_2
          by (cbn; rewrite lookup_insert_eq; eauto). reflexivity.
      - rewrite bool_decide_eq_true_2
          by (cbn; rewrite lookup_insert_ne by congruence; exact Hbinary).
        reflexivity. }
    rewrite (bind_Normal _ _ _ _ _ Hensure).
    apply bind_Exit. unfold resolveAudio. cbn [directUrl input Str.truthy].
    rewrite Hsearch. unfold chooseVideo.
    rewrite (bind_Normal _ _ st1 st2 mid)
      by (rewrite sendMessage_run, Hsend; reflexivity).
    rewrite (bind_Normal _ _ _ _ _ (unlinkIfExists_state lockFile st2)).
    reflexivity. }
  unfold functionBody, tryCatch. rewrite Hpipeline.
  exists tries. eexists. split; [reflexivity|].
  cbn [calls files spotifyTokenCache spotifyTokenExpiry setFiles st2 recordCall].
  repeat split.
  - rewrite Hcalls, <- app_assoc. reflexivity.
  - exact Htries.
  - etransitivity; [apply delete_mono, Hfiles|].
    cbn [files st0 setFiles]. rewrite released_state by exact Hfree.
    reflexivity.
  - exact Htoken.
  - exact Hexpiry.
Qed.

Lemma no_match_is_reported_witness :
  exists tries final,
    handleSearchMode Scene.broken (Example.message (js "Blue Moon"))
      Scene.installed = (Normal tt, final) /\
    calls final =
      (calls Scene.installed ++ tries ++ [SendMessage 42 NoMatchFound])%list /\
    Forall isAudioLookup tries /\
    files final ⊆ files Scene.installed /\
    spotifyTokenCache final = spotifyTokenCache Scene.installed /\
    spotifyTokenExpiry final = spotifyTokenExpiry Scene.installed.
Proof.
  apply (no_match_is_reported Scene.broken (Example.message (js "Blue Moon"))
           Scene.installed (js "Blue Moon")).
  - reflexivity.
  - discriminate.
  - reflexivity.
  - reflexivity.
  - reflexivity.
  - vm_compute. reflexivity.
  - exists []. vm_compute. reflexivity.
  - intros t binaryPath args. discriminate.
  - intros t. exists (Z.of_nat t). reflexivity.
Defined.

(** ** No run ends in silence *)

Section Answers.

Variable w : World.
Variable chatId : Z.
Variable tmpDir lockFile : jsstring.

Hint Resolve neverExits_sendMessage neverExits_downloadFile
  neverExits_ensureYtDlp neverExits_proxyArgs neverExits_getMetadata
  neverExits_downloadFromDeezer neverExits_findCover neverExits_mergeStep
  neverExits_readLinkTitle neverExits_ret neverExits_throw neverExits_call
  neverExits_ask neverExits_await neverExits_existsSync
  neverExits_existsNonEmpty neverExits_writeFileSync neverExits_unlinkSync
  neverExits_unlinkIfExists neverExits_readTokenCache
  neverExits_writeTokenCache : noexit.

Lemma anyCall_ok (c : Call) : callOk (extends anyCall) c.
Proof. apply callOk_extends. exact I. Qed.

Lemma spoke_later (st st1 st2 : State) :
  spoke chatId st st1 -> extends anyCall st1 st2 -> spoke chatId st st2.
Proof.
  intros (before & reply & after & E1) (new & E2 & _).
  exists before, reply, (after ++ new)%list.
  rewrite E2, E1, <- !app_assoc. reflexivity.
Qed.

Lemma spoke_earlier (st st1 st2 : State) :
  extends anyCall st st1 -> spoke chatId st1 st2 -> spoke chatId st st2.
Proof.
  intros (new & E1 & _) (before & reply & after & E2).
  exists (new ++ before)%list, reply, after.
  rewrite E2, E1, <- !app_assoc. reflexivity.
Qed.

(** A message, then anything. *)
Lemma speaks_sendMessage {A : Type} (reply : Reply) (f : Z -> M A) :
  (forall a, emits anyCall (f a)) ->
  speaks chatId (bind (sendMessage w chatId reply) f).
Proof.
  intros Hf st. unfold bind. rewrite sendMessage_run.
  assert (Hsent : spoke chatId st (recordCall (SendMessage chatId reply) st)).
  { exists [], reply, []. reflexivity. }
  destruct (bot_sendMessage w (clock st) chatId reply) as [mid|e];
    [|exact Hsent].
  eapply spoke_later; [exact Hsent|apply Hf].
Qed.

Lemma exitsSpoken_of_speaks {A : Type} (m : M A) :
  speaks chatId m -> exitsSpoken chatId m.
Proof. intros H st _. apply H. Qed.

Lemma exitsSpoken_of_neverExits {A : Type} (m : M A) :
  neverExits m -> exitsSpoken chatId m.
Proof. intros H st Hexit. destruct (H st Hexit). Qed.

Lemma exitsSpoken_bind {A B : Type} (m : M A) (f : A -> M B) :
  emits anyCall m -> neverExits m -> (forall a, exitsSpoken chatId (f a)) ->
  exitsSpoken chatId (bind m f).
Proof.
  intros Hgrow Hm Hf st. unfold bind.
  pose proof (Hm st) as H1. pose proof (Hgrow st) as H2.
  destruct (m st) as [[a| |e] st1]; cbn [fst snd] in *;
    [|congruence|discriminate].
  intros Hexit. eapply spoke_earlier; [exact H2|apply Hf, Hexit].
Qed.

Lemma answers_of_speaks {A : Type} (m : M A) :
  speaks chatId m -> answers chatId m.
Proof. intros H st. destruct (fst (m st)); [apply H|apply H|exact I]. Qed.

Lemma answers_bind {A B : Type} (m : M A) (f : A -> M B) :
  emits anyCall m -> exitsSpoken chatId m -> (forall a, answers chatId (f a)) ->
  answers chatId (bind m f).
Proof.
  intros Hgrow Hm Hf st. unfold bind.
  pose proof (Hm st) as H1. pose proof (Hgrow st) as H2.
  destruct (m st) as [[a| |e] st1]; cbn [fst snd] in *;
    [|apply H1; reflexivity|exact I].
  pose proof (Hf a st1) as H3.
  destruct (fst (f a st1)); [| |exact I];
    (eapply spoke_earlier; [exact H2|exact H3]).
Qed.

Lemma emits_any_unlink_exit {A : Type} :
  emits anyCall (unlinkIfExists lockFile;;; @exit A).
Proof. steps_auto. Qed.

Lemma speaks_reject {A : Type} (reply : Reply) :
  speaks chatId
    (sendMessage w chatId reply;;; unlinkIfExists lockFile;;; @exit A).
Proof. apply speaks_sendMessage. intros _. apply emits_any_unlink_exit. Qed.

Lemma exitsSpoken_analyzeInput (s : jsstring) :
  exitsSpoken chatId (analyzeInput w chatId lockFile s).
Proof.
  unfold analyzeInput.
  destruct (test urlRegex s && negb (test dspRegex s));
    [apply exitsSpoken_of_speaks, speaks_reject|].
  destruct (test dspRegex s).
  - destruct (Str.includes s (js "/album/") || Str.includes s (js "/playlist/"));
      [apply exitsSpoken_of_speaks, speaks_reject|].
    apply exitsSpoken_of_speaks, speaks_sendMessage. intros _.
    apply steps_tryCatch;
      [apply (steps_readLinkTitle anyCall_ok)|intros e].
    apply steps_bind; [|intros _; apply emits_any_unlink_exit].
    destruct (Str.includes s (js "amazon"));
      apply (steps_sendMessage anyCall_ok).
  - apply exitsSpoken_of_neverExits. noexit.
Qed.

Lemma exitsSpoken_resolveAudio (input : Input) (binaryPath : jsstring) :
  exitsSpoken chatId (resolveAudio w chatId tmpDir lockFile input binaryPath).
Proof.
  unfold resolveAudio.
  destruct (Str.truthy (directUrl input));
    [apply exitsSpoken_of_neverExits; noexit|].
  unfold searchTiers.
  apply exitsSpoken_bind;
    [unfold deezerTier; destruct (Str.truthy _);
       [apply (steps_downloadFromDeezer anyCall_ok)|apply steps_ret]
    |unfold deezerTier; noexit|intros m1].
  apply exitsSpoken_bind;
    [unfold soundcloudTier; destruct m1;
       [apply steps_ret
       |apply steps_bind;
          [apply (steps_getMetadata anyCall_ok)|intros; steps_auto]]
    |unfold soundcloudTier; noexit|intros m2].
  apply exitsSpoken_bind;
    [unfold youtubeTier; destruct m2;
       [apply steps_ret|apply (steps_getMetadata anyCall_ok)]
    |unfold youtubeTier; noexit|intros m3].
  apply exitsSpoken_bind;
    [unfold archiveTier; destruct m3;
       [apply steps_ret|apply (steps_getMetadata anyCall_ok)]
    |unfold archiveTier; noexit|intros m4].
  unfold chooseVideo. destruct m4 as [found|];
    [apply exitsSpoken_of_neverExits; noexit
    |apply exitsSpoken_of_speaks, speaks_reject].
Qed.

Lemma emits_any_deliver_rest (binaryPath : jsstring)
    (videoUrl videoTitle : option jsstring) (coverUrl : jsstring) :
  emits anyCall
    (deliver w chatId tmpDir lockFile binaryPath videoUrl videoTitle coverUrl).
Proof.
  unfold deliver, mergeStep, proxyArgs, downloadFile, sendMessage.
  steps_auto; exact I.
Qed.

Lemma answers_pipeline (s : jsstring) :
  answers chatId (pipeline w chatId tmpDir lockFile s).
Proof.
  unfold pipeline.
  apply answers_bind;
    [apply (steps_analyzeInput anyCall_ok)|apply exitsSpoken_analyzeInput
    |intros input].
  apply answers_bind;
    [apply (steps_ensureYtDlp anyCall_ok)
    |apply exitsSpoken_of_neverExits, neverExits_ensureYtDlp|intros binaryPath].
  apply answers_bind;
    [apply (steps_resolveAudio anyCall_ok)|apply exitsSpoken_resolveAudio
    |intros video].
  apply answers_bind;
    [apply emits_findCover; intros; exact I
    |apply exitsSpoken_of_neverExits, neverExits_findCover|intros coverUrl].
  apply answers_of_speaks. unfold deliver. apply speaks_sendMessage.
  intros _. unfold mergeStep, proxyArgs, downloadFile, sendMessage.
  steps_auto; exact I.
Qed.

Lemma speaks_onError (e : jsstring) : speaks chatId (onError w chatId lockFile e).
Proof.
  unfold onError. apply speaks_sendMessage. intros _.
  apply steps_unlinkIfExists.
Qed.

End Answers.

(** X23: no run ends in silence.  A run that took the lock and has come to
    an end, however it ended, has sent the chat at least one message, or
    tried to: the notice of a link, the result of the search, the
    rejection, or the error.  (A run that waits on a call that never
    settles has not come to an end, and a request in free text says nothing
    before its search is over.) *)
Theorem handleSearchMode_never_ends_silently (w : World) (msg : Message)
    (st final : State) (s : jsstring) (outcome : Outcome unit) :
  text msg = Some s ->
  s <> [] ->
  files st !! lockFileOf w (chat_id msg) = None ->
  handleSearchMode w msg st = (outcome, final) ->
  exists before reply after,
    calls final =
    (calls st ++ before ++ SendMessage (chat_id msg) reply :: after)%list.
Proof.
  intros Htext Hne Hfree Hend.
  replace final with (snd (handleSearchMode w msg st)) by (rewrite Hend; reflexivity).
  clear Hend.
  rewrite (handleSearchMode_unlocked w msg st s Htext Hne Hfree).
  set (chatId := chat_id msg). set (lockFile := lockFileOf w chatId).
  set (st0 := setFiles _ st).
  change (spoke chatId st0
            (snd (functionBody
                    (tryCatch (pipeline w chatId (tmpdir w) lockFile s)
                              (onError w chatId lockFile)) st0))).
  pose proof (answers_pipeline w chatId (tmpdir w) lockFile s st0) as Hanswer.
  assert (Hgrow : emits anyCall (pipeline w chatId (tmpdir w) lockFile s)).
  { unfold pipeline.
    apply steps_bind; [apply (steps_analyzeInput anyCall_ok)|intros input].
    apply steps_bind; [apply (steps_ensureYtDlp anyCall_ok)|intros binaryPath].
    apply steps_bind; [apply (steps_resolveAudio anyCall_ok)|intros video].
    apply steps_bind; [apply emits_findCover; intros; exact I|intros coverUrl].
    apply emits_any_deliver_rest. }
  specialize (Hgrow st0).
  unfold functionBody, tryCatch.
  destruct (pipeline w chatId (tmpdir w) lockFile s st0) as [[[]| |e] st1];
    cbn [fst snd] in *; [exact Hanswer|exact Hanswer|].
  pose proof (speaks_onError w chatId lockFile e st1) as Herror.
  destruct (onError w chatId lockFile e st1) as [[[]| |e'] st2];
    cbn [fst snd] in *; eapply spoke_earlier; eassumption.
Qed.

Lemma handleSearchMode_never_ends_silently_witness :
  exists before reply after,
    calls (snd (handleSearchMode Scene.broken (Example.message (js "Blue Moon"))
                  Example.fresh)) =
    ([] ++ before ++ SendMessage 42 reply :: after)%list.
Proof.
  apply (handleSearchMode_never_ends_silently Scene.broken
           (Example.message (js "Blue Moon")) Example.fresh _ (js "Blue Moon")
           (fst (handleSearchMode Scene.broken (Example.message (js "Blue Moon"))
                   Example.fresh))).
  - reflexivity.
  - discriminate.
  - reflexivity.
  - apply surjective_pairing.
Defined.

(** ** One video at most *)

Lemma filter_notVideo (new : list Call) :
  Forall notVideo new -> List.filter isSendVideo new = [].
Proof.
  induction 1 as [|c new Hc _ IH]; [reflexivity|].
  cbn [List.filter]. rewrite Hc. exact IH.
Qed.

Lemma videoOnce_of_emits {A : Type} (m : M A) : emits notVideo m -> videoOnce m.
Proof.
  intros H st. destruct (H st) as (new & E & F). exists new.
  split; [exact E|]. rewrite (filter_notVideo _ F). cbn. lia.
Qed.

Lemma videoOnce_extend (st st1 st2 : State) (n1 n2 : list Call) :
  calls st1 = (calls st ++ n1)%list -> calls st2 = (calls st1 ++ n2)%list ->
  Forall notVideo n1 \/ Forall notVideo n2 ->
  (length (List.filter isSendVideo n1) <= 1)%nat ->
  (length (List.filter isSendVideo n2) <= 1)%nat ->
  exists new,
    calls st2 = (calls st ++ new)%list /\
    (length (List.filter isSendVideo new) <= 1)%nat.
Proof.
  intros E1 E2 Hnone L1 L2. exists (n1 ++ n2)%list.
  split; [rewrite E2, E1, app_assoc; reflexivity|].
  rewrite List.filter_app, length_app.
  destruct Hnone as [F|F]; rewrite (filter_notVideo _ F); cbn [length]; lia.
Qed.

Lemma videoOnce_bind_l {A B : Type} (m : M A) (f : A -> M B) :
  emits notVideo m -> (forall a, videoOnce (f a)) -> videoOnce (bind m f).
Proof.
  intros Hm Hf st. unfold bind. destruct (Hm st) as (n1 & E1 & F1).
  destruct (m st) as [[a| |e] st1]; cbn [snd] in *;
    try (exists n1; split; [exact E1|rewrite (filter_notVideo _ F1); cbn; lia]).
  destruct (Hf a st1) as (n2 & E2 & L2).
  eapply videoOnce_extend; eauto.
  rewrite (filter_notVideo _ F1). cbn. lia.
Qed.

Lemma videoOnce_bind_r {A B : Type} (m : M A) (f : A -> M B) :
  videoOnce m -> (forall a, emits notVideo (f a)) -> videoOnce (bind m f).
Proof.
  intros Hm Hf st. unfold bind. destruct (Hm st) as (n1 & E1 & L1).
  destruct (m st) as [[a| |e] st1]; cbn [snd] in *;
    try (exists n1; split; assumption).
  destruct (Hf a st1) as (n2 & E2 & F2).
  eapply videoOnce_extend; eauto.
  rewrite (filter_notVideo _ F2). cbn. lia.
Qed.

Lemma videoOnce_tryCatch {A : Type} (m : M A) (h : jsstring -> M A) :
  videoOnce m -> (forall e, emits notVideo (h e)) -> videoOnce (tryCatch m h).
Proof.
  intros Hm Hh st. unfold tryCatch. destruct (Hm st) as (n1 & E1 & L1).
  destruct (m st) as [[a| |e] st1]; cbn [snd] in *;
    try (exists n1; split; assumption).
  destruct (Hh e st1) as (n2 & E2 & F2).
  eapply videoOnce_extend; eauto.
  rewrite (filter_notVideo _ F2). cbn. lia.
Qed.

Lemma videoOnce_functionBody (m : M unit) : videoOnce m -> videoOnce (functionBody m).
Proof.
  intros Hm st. unfold functionBody. destruct (Hm st) as (n1 & E1 & L1).
  destruct (m st) as [[a| |e] st1]; exists n1; split; assumption.
Qed.

Lemma videoOnce_sendVideo (w : World) (chatId : Z) (path : jsstring)
    (videoTitle : option jsstring) :
  videoOnce (await (call (SendVideo chatId path videoTitle)
                         (fun t => bot_sendVideo w t chatId path videoTitle))).
Proof.
  intros st. exists [SendVideo chatId path videoTitle].
  split; [|cbn; lia]. unfold_monad.
  destruct (bot_sendVideo w (clock st) chatId path videoTitle); reflexivity.
Qed.

(** A step that uploads nothing, then the rest. *)
Ltac quiet_step :=
  apply videoOnce_bind_l;
    [unfold mergeStep, proxyArgs, downloadFile, sendMessage; steps_auto;
     reflexivity
    |intros ?].

Lemma videoOnce_deliver (w : World) (chatId : Z) (tmpDir lockFile : jsstring)
    (binaryPath : jsstring) (videoUrl videoTitle : option jsstring)
    (coverUrl : jsstring) :
  videoOnce (deliver w chatId tmpDir lockFile binaryPath videoUrl videoTitle coverUrl).
Proof.
  unfold deliver. do 6 quiet_step.
  destruct videoUrl as [videoUrl|];
    [|apply videoOnce_of_emits, steps_throw].
  do 6 quiet_step.
  destruct (negb _); [apply videoOnce_of_emits, steps_throw|].
  destruct (negb _); [apply videoOnce_of_emits, steps_throw|].
  do 4 quiet_step.
  apply videoOnce_bind_r; [apply videoOnce_sendVideo|intros _].
  steps_auto.
Qed.

(** X24: at most one video per request.  Whatever happens in a run, the chat
    receives at most one upload. *)
Theorem handleSearchMode_uploads_at_most_once (w : World) (msg : Message)
    (st : State) :
  exists new,
    calls (snd (handleSearchMode w msg st)) = (calls st ++ new)%list /\
    (length (List.filter isSendVideo new) <= 1)%nat.
Proof.
  revert st. change (videoOnce (handleSearchMode w msg)).
  unfold handleSearchMode.
  destruct (negb _); [apply videoOnce_of_emits, steps_ret|].
  apply videoOnce_bind_l; [apply steps_existsSync|intros locked].
  destruct locked; [apply videoOnce_of_emits, steps_ret|].
  apply videoOnce_bind_l; [apply steps_writeFileSync|intros _].
  apply videoOnce_functionBody, videoOnce_tryCatch;
    [|intros e; unfold onError, sendMessage; steps_auto; reflexivity].
  unfold pipeline.
  apply videoOnce_bind_l;
    [unfold analyzeInput, readLinkTitle, sendMessage; steps_auto; reflexivity
    |intros input].
  apply videoOnce_bind_l;
    [unfold ensureYtDlp, downloadFile; steps_auto; reflexivity
    |intros binaryPath].
  apply videoOnce_bind_l;
    [unfold resolveAudio, searchTiers, deezerTier, soundcloudTier,
       youtubeTier, archiveTier, chooseVideo, getMetadata, searchArchiveOrg,
       getMetadataFromTool, downloadFromDeezer, createDeezerCookieFile,
       proxyArgs, sendMessage; steps_auto; reflexivity
    |intros video].
  apply videoOnce_bind_l;
    [unfold findCover, getSpotifyCover, getSpotifyToken, requestSpotifyToken,
       getDeezerCover; steps_auto; reflexivity
    |intros coverUrl].
  apply videoOnce_deliver.
Qed.

(** ** Where a run writes *)

Section Footprints.

Context {R : State -> State -> Prop} {HR : Footprint R}.

Lemma footprint_ret {A : Type} (a : A) : steps R (ret a).
Proof. intros st. apply footprint_refl. Qed.

Lemma footprint_exit {A : Type} : steps R (@exit A).
Proof. intros st. apply footprint_refl. Qed.

Lemma footprint_throw {A : Type} (e : jsstring) : steps R (@throw A e).
Proof. intros st. apply footprint_refl. Qed.

Lemma footprint_call {A : Type} (c : Call) (answer : nat -> A) :
  steps R (call c answer).
Proof. intros st. apply footprint_same. reflexivity. Qed.

Lemma footprint_ask {A : Type} (answer : nat -> A) : steps R (ask answer).
Proof. intros st. apply footprint_same. reflexivity. Qed.

Lemma footprint_bind {A B : Type} (m : M A) (f : A -> M B) :
  steps R m -> (forall a, steps R (f a)) -> steps R (bind m f).
Proof.
  intros Hm Hf st. unfold bind. pose proof (Hm st) as H1.
  destruct (m st) as [[a| |e] st1]; cbn [snd] in *; [|exact H1|exact H1].
  eapply footprint_trans; [exact H1|apply Hf].
Qed.

Lemma footprint_tryCatch {A : Type} (m : M A) (h : jsstring -> M A) :
  steps R m -> (forall e, steps R (h e)) -> steps R (tryCatch m h).
Proof.
  intros Hm Hh st. unfold tryCatch. pose proof (Hm st) as H1.
  destruct (m st) as [[a| |e] st1]; cbn [snd] in *; [exact H1|exact H1|].
  eapply footprint_trans; [exact H1|apply Hh].
Qed.

Lemma footprint_functionBody (m : M unit) : steps R m -> steps R (functionBody m).
Proof.
  intros Hm st. unfold functionBody. pose proof (Hm st) as H1.
  destruct (m st) as [[a| |e] st1]; exact H1.
Qed.

Lemma footprint_await {A : Type} (m : M (Res A)) : steps R m -> steps R (await m).
Proof.
  intros Hm. unfold await. apply footprint_bind; [exact Hm|].
  intros [a|e]; [apply footprint_ret|apply footprint_throw].
Qed.

Lemma footprint_existsSync (path : jsstring) : steps R (existsSync path).
Proof. intros st. apply footprint_refl. Qed.

Lemma footprint_existsNonEmpty (path : jsstring) : steps R (existsNonEmpty path).
Proof. intros st. apply footprint_refl. Qed.

Lemma footprint_readTokenCache : steps R readTokenCache.
Proof. intros st. apply footprint_refl. Qed.

Lemma footprint_writeTokenCache (token : option jsstring) (expiry : Z) :
  steps R (writeTokenCache token expiry).
Proof. intros st. apply footprint_same. reflexivity. Qed.

Lemma footprint_writeFileSync (path content : jsstring) :
  mayWrite R path -> steps R (writeFileSync path content).
Proof. intros H st. apply H. Qed.

Lemma footprint_unlinkSync (path : jsstring) :
  mayRemove R path -> steps R (unlinkSync path).
Proof. intros H st. apply H. Qed.

Lemma footprint_unlinkIfExists (path : jsstring) :
  mayRemove R path -> steps R (unlinkIfExists path).
Proof.
  intros H. unfold unlinkIfExists.
  apply footprint_bind; [apply footprint_existsSync|].
  intros []; [apply footprint_unlinkSync, H|apply footprint_ret].
Qed.

End Footprints.

(** One step of a proof about the files of a computation; what is left to
    be checked is where it writes and what it removes. *)
Ltac footprint_step :=
  lazymatch goal with
  | |- steps _ (bind _ _) => apply footprint_bind; [|intros ?]
  | |- steps _ (ret _) => apply footprint_ret
  | |- steps _ exit => apply footprint_exit
  | |- steps _ (throw _) => apply footprint_throw
  | |- steps _ (call _ _) => apply footprint_call
  | |- steps _ (ask _) => apply footprint_ask
  | |- steps _ (await _) => apply footprint_await
  | |- steps _ (tryCatch _ _) => apply footprint_tryCatch; [|intros ?]
  | |- steps _ (functionBody _) => apply footprint_functionBody
  | |- steps _ (existsSync _) => apply footprint_existsSync
  | |- steps _ (existsNonEmpty _) => apply footprint_existsNonEmpty
  | |- steps _ (writeFileSync _ _) => apply footprint_writeFileSync
  | |- steps _ (unlinkSync _) => apply footprint_unlinkSync
  | |- steps _ (unlinkIfExists _) => apply footprint_unlinkIfExists
  | |- steps _ readTokenCache => apply footprint_readTokenCache
  | |- steps _ (writeTokenCache _ _) => apply footprint_writeTokenCache
  | |- steps _ (if ?b then _ else _) => destruct b
  | |- steps _ (match ?x with _ => _ end) => destruct x
  end.

#[global] Instance touching_footprint (allowed : jsstring -> Prop) :
  Footprint (touching allowed).
Proof.
  split.
  - intros st path. left. reflexivity.
  - intros st1 st2 st3 H1 H2 path.
    destruct (H2 path) as [E2|?]; [|right; assumption].
    destruct (H1 path) as [E1|?]; [|right; assumption].
    left. congruence.
  - intros st st' E path. left. rewrite E. reflexivity.
Qed.

Lemma touching_mayWrite (allowed : jsstring -> Prop) (path : jsstring) :
  allowed path -> mayWrite (touching allowed) path.
Proof.
  intros Hin st content other. cbn [setFiles files].
  destruct (decide (path = other)) as [<-|Hne]; [right; exact Hin|].
  left. apply lookup_insert_ne, Hne.
Qed.

Lemma touching_mayRemove (allowed : jsstring -> Prop) (path : jsstring) :
  allowed path -> mayRemove (touching allowed) path.
Proof.
  intros Hin st other. cbn [setFiles files].
  destruct (decide (path = other)) as [<-|Hne]; [right; exact Hin|].
  left. apply lookup_delete_ne, Hne.
Qed.

(** ** Paths *)

Example path_join_samples :
  path_join (js "/tmp") (js "a.txt") = js "/tmp/a.txt" /\
  path_join (js "/tmp/../tmp") YTDLP_FILENAME = js "/tmp/yt-dlp_linux_new" /\
  path_join (js "/tmp//x/./y/") (js "a.txt") = js "/tmp/x/y/a.txt" /\
  path_join (js "/") (js "a.txt") = js "/a.txt" /\
  path_join (js ".") (js "a.txt") = js "a.txt" /\
  path_join (js "a/b/../../..") (js "a.txt") = js "../a.txt" /\
  path_join (js "/..") (js "a.txt") = js "/a.txt" /\
  path_join (js "/tmp") [] = js "/tmp" /\
  path_join [] [] = js ".".
Proof. repeat split; reflexivity. Qed.

Lemma splitOnChar_plain (sep : N) (piece name : jsstring) :
  forallb (fun c => negb (c =? sep)%N) name = true ->
  splitOnChar sep piece name = [rev piece ++ name].
Proof.
  revert piece. induction name as [|c name IH]; intros piece H.
  - cbn [splitOnChar]. rewrite app_nil_r. reflexivity.
  - cbn [forallb] in H. apply andb_prop in H as [Hc H].
    cbn [splitOnChar]. apply negb_true_iff in Hc. rewrite Hc.
    rewrite (IH _ H). cbn [rev]. rewrite <- app_assoc. reflexivity.
Qed.

Lemma splitOnChar_snoc (sep : N) (piece s name : jsstring) :
  forallb (fun c => negb (c =? sep)%N) name = true ->
  splitOnChar sep piece (s ++ sep :: name) = splitOnChar sep piece s ++ [name].
Proof.
  intros H. revert piece. induction s as [|c s IH]; intros piece.
  - cbn [app splitOnChar]. rewrite N.eqb_refl.
    rewrite (splitOnChar_plain sep [] name H). reflexivity.
  - cbn [app splitOnChar]. destruct (c =? sep)%N.
    + rewrite IH. reflexivity.
    + apply IH.
Qed.

Lemma isFileName_spec (name : jsstring) :
  isFileName name = true ->
  Str.isEmpty name = false /\ name <> js "." /\ name <> js ".." /\
  forallb (fun c => negb (c =? 47)%N) name = true.
Proof.
  unfold isFileName. intros H.
  apply andb_prop in H as [H H4]. apply andb_prop in H as [H H3].
  apply andb_prop in H as [H1 H2].
  apply negb_true_iff in H1, H2, H3.
  apply bool_decide_eq_false_1 in H2, H3. auto.
Qed.

Lemma normalizeSegments_snoc (allowAboveRoot : bool) (kept segments : list jsstring)
    (name : jsstring) :
  isFileName name = true ->
  Path.normalizeSegments allowAboveRoot kept (segments ++ [name]) =
  Path.normalizeSegments allowAboveRoot kept segments ++ [name].
Proof.
  intros H. apply isFileName_spec in H as (Hne & Hdot & Hdots & _).
  revert kept. induction segments as [|segment segments IH]; intros kept.
  - cbn [app Path.normalizeSegments]. rewrite Hne.
    rewrite (bool_decide_eq_false_2 _ Hdot), (bool_decide_eq_false_2 _ Hdots).
    reflexivity.
  - cbn [app Path.normalizeSegments].
    destruct (Str.isEmpty segment || bool_decide (segment = js ".")); [apply IH|].
    destruct (bool_decide (segment = js "..")); [|apply IH].
    destruct kept as [|previous kept]; [apply IH|].
    destruct (bool_decide (previous = js "..")); apply IH.
Qed.

Lemma joinWith_cons (sep part : jsstring) (parts : list jsstring) :
  parts <> [] -> joinWith sep (part :: parts) = part ++ sep ++ joinWith sep parts.
Proof. destruct parts; [congruence|reflexivity]. Qed.

Lemma joinWith_snoc (sep name : jsstring) (parts : list jsstring) :
  joinWith sep (parts ++ [name]) =
  concat (List.map (fun part => part ++ sep) parts) ++ name.
Proof.
  induction parts as [|part parts IH]; [reflexivity|].
  cbn [app List.map concat]. rewrite joinWith_cons by (destruct parts; discriminate).
  rewrite IH, <- !app_assoc. reflexivity.
Qed.

Lemma joinWith_separated (sep : jsstring) (parts : list jsstring) :
  parts <> [] ->
  concat (List.map (fun part => part ++ sep) parts) = joinWith sep parts ++ sep.
Proof.
  induction parts as [|part parts IH]; [congruence|]. intros _.
  destruct parts as [|part' parts].
  - cbn. rewrite app_nil_r. reflexivity.
  - cbn [List.map concat]. rewrite joinWith_cons by discriminate.
    cbn [List.map concat] in IH. rewrite IH by discriminate.
    rewrite <- !app_assoc. reflexivity.
Qed.

Lemma last_snoc_name (s name : jsstring) (c d : N) :
  name <> [] -> List.last (s ++ c :: name) d = List.last name d.
Proof.
  intros Hne. induction s as [|a s IH].
  - cbn [app]. destruct name; [congruence|reflexivity].
  - cbn [app]. rewrite <- IH. destruct (s ++ c :: name) eqn:E; [|reflexivity].
    destruct s; discriminate.
Qed.

Lemma last_no_separator (name : jsstring) :
  name <> [] ->
  forallb (fun c => negb (c =? 47)%N) name = true ->
  (List.last name 0 =? 47)%N = false.
Proof.
  intros Hne H. induction name as [|c name IH]; [congruence|].
  cbn [forallb] in H. apply andb_prop in H as [Hc H].
  destruct name as [|c' name]; [apply negb_true_iff, Hc|].
  apply IH; [discriminate|exact H].
Qed.

Lemma normalize_nonempty (path : jsstring) :
  path <> [] ->
  Path.normalize path =
  let isAbsolute := (hd 0%N path =? 47)%N in
  let trailingSeparator := (List.last path 0 =? 47)%N in
  let normalized :=
    joinWith (js "/")
      (Path.normalizeSegments (negb isAbsolute) [] (splitOnChar 47 [] path)) in
  if Str.isEmpty normalized then
    if isAbsolute then js "/"
    else if trailingSeparator then js "./" else js "."
  else
    (if isAbsolute then js "/" else []) ++ normalized ++
    (if trailingSeparator then js "/" else []).
Proof. destruct path; [congruence|reflexivity]. Qed.

Lemma isEmpty_app_name (s name : jsstring) :
  Str.isEmpty name = false -> Str.isEmpty (s ++ name) = false.
Proof. destruct s; [auto|reflexivity]. Qed.

(** [path.join] of a directory and a file name: the file name comes last,
    as it is, after a prefix that is the same for every file name. *)
Lemma path_join_fileName (dir name : jsstring) :
  isFileName name = true -> path_join dir name = joinPrefix dir ++ name.
Proof.
  intros Hname. pose proof (isFileName_spec name Hname) as (Hne & Hdot & Hdots & Hsep).
  assert (Hnil : name <> []) by (intros ->; discriminate).
  unfold path_join. rewrite Hne.
  destruct dir as [|first dir]; cbn [Str.isEmpty].
  - rewrite normalize_nonempty by exact Hnil. cbv zeta.
    assert (Hrel : (hd 0%N name =? 47)%N = false).
    { destruct name as [|c name]; [congruence|]. cbn [forallb] in Hsep.
      apply andb_prop in Hsep as [Hc _]. apply negb_true_iff, Hc. }
    rewrite Hrel, (splitOnChar_plain 47 [] name Hsep). cbn [rev app negb].
    change [name] with ([] ++ [name]).
    rewrite normalizeSegments_snoc by exact Hname. cbn [Path.normalizeSegments rev app joinWith].
    rewrite Hne, (last_no_separator name Hnil Hsep), app_nil_r. reflexivity.
  - rewrite normalize_nonempty by discriminate. cbv zeta.
    change (js "/") with [47%N].
    change ((first :: dir) ++ [47%N] ++ name) with ((first :: dir) ++ 47%N :: name).
    rewrite (splitOnChar_snoc 47 [] (first :: dir) name Hsep).
    rewrite normalizeSegments_snoc by exact Hname.
    rewrite joinWith_snoc, (last_snoc_name _ name 47 0 Hnil).
    rewrite (last_no_separator name Hnil Hsep), app_nil_r.
    rewrite (isEmpty_app_name _ name Hne).
    cbn [hd app joinPrefix]. change (js "/") with [47%N].
    rewrite <- !app_assoc. reflexivity.
Qed.

Lemma joinPrefix_normalDir (dir : jsstring) :
  isNormalDir dir = true -> joinPrefix dir = dir ++ js "/".
Proof.
  unfold isNormalDir. intros H.
  apply andb_prop in H as [H Hlast]. apply andb_prop in H as [Hnormal Hdot].
  apply bool_decide_eq_true_1 in Hnormal.
  apply negb_true_iff in Hdot, Hlast. apply bool_decide_eq_false_1 in Hdot.
  destruct dir as [|first dir]; [discriminate|].
  rewrite normalize_nonempty in Hnormal by discriminate. cbv zeta in Hnormal.
  rewrite Hlast in Hnormal. cbn [hd] in Hnormal. unfold joinPrefix.
  set (segments := Path.normalizeSegments (negb (first =? 47)%N) []
                     (splitOnChar 47 [] (first :: dir))) in *.
  destruct (Str.isEmpty (joinWith (js "/") segments)) eqn:Hempty.
  - destruct (first =? 47)%N.
    + rewrite <- Hnormal in Hlast. discriminate.
    + congruence.
  - assert (Hsegments : segments <> []) by (intros E; rewrite E in Hempty; discriminate).
    rewrite (joinWith_separated (js "/") segments Hsegments).
    rewrite app_nil_r in Hnormal. rewrite app_assoc, Hnormal. reflexivity.
Qed.

Lemma path_join_normalDir (dir name : jsstring) :
  isNormalDir dir = true -> isFileName name = true ->
  path_join dir name = dir ++ js "/" ++ name.
Proof.
  intros Hdir Hname.
  rewrite (path_join_fileName dir name Hname), (joinPrefix_normalDir dir Hdir).
  rewrite <- app_assoc. reflexivity.
Qed.

Lemma pretty_N_char_digit (x : N) : Chars.isDigit (N_of_ascii (pretty_N_char x)) = true.
Proof. unfold pretty_N_char. repeat case_match; reflexivity. Qed.

Lemma isDigit_noSeparator (c : N) :
  Chars.isDigit c = true -> negb (c =? 47)%N = true.
Proof.
  unfold Chars.isDigit, Chars.between. intros H. apply andb_prop in H as [H _].
  apply N.leb_le in H. apply negb_true_iff, N.eqb_neq. lia.
Qed.

Lemma pretty_N_go_noSeparator (x : N) (s : string) :
  forallb (fun c => negb (c =? 47)%N) (js s) = true ->
  forallb (fun c => negb (c =? 47)%N) (js (pretty_N_go x s)) = true.
Proof.
  revert s. induction (N.lt_wf_0 x) as [x _ IH]. intros s Hs.
  destruct (decide (0 < x)%N) as [Hpos|Hzero].
  - rewrite pretty_N_go_step by exact Hpos.
    apply IH; [apply N.div_lt; [exact Hpos|reflexivity]|].
    cbn [js forallb]. rewrite Hs, andb_true_r.
    apply isDigit_noSeparator, pretty_N_char_digit.
  - assert (x = 0%N) as -> by lia. rewrite pretty_N_go_0. exact Hs.
Qed.

Lemma pretty_Z_noSeparator (z : Z) :
  forallb (fun c => negb (c =? 47)%N) (js (pretty z)) = true.
Proof.
  assert (HN : forall n : N, forallb (fun c => negb (c =? 47)%N) (js (pretty n)) = true).
  { intros n. unfold pretty, pretty_N. destruct (decide (n = 0%N)); [reflexivity|].
    apply pretty_N_go_noSeparator. reflexivity. }
  destruct z as [|p|p]; [reflexivity|apply (HN (N.pos p))|].
  change (js (pretty (Z.neg p))) with (45%N :: js (pretty (N.pos p))).
  cbn [forallb]. rewrite HN. reflexivity.
Qed.

(** The names of the files of a run: a stem that starts with a letter, a
    number, an extension. *)
Lemma isFileName_stamped (stem ext : string) (z : Z) :
  match js stem with
  | c :: _ => negb (c =? 46)%N
  | [] => false
  end = true ->
  forallb (fun c => negb (c =? 47)%N) (js stem ++ js ext) = true ->
  isFileName (js stem ++ js (pretty z) ++ js ext) = true.
Proof.
  intros Hstem Hsep. rewrite forallb_app in Hsep. apply andb_prop in Hsep as [H1 H2].
  unfold isFileName. rewrite !forallb_app, H1, H2, pretty_Z_noSeparator.
  destruct (js stem) as [|c rest]; [discriminate|]. apply negb_true_iff, N.eqb_neq in Hstem.
  cbn [app Str.isEmpty negb andb].
  rewrite !bool_decide_eq_false_2; [reflexivity| |].
  - cbn. intros H. injection H as H _. contradiction.
  - cbn. intros H. injection H as H _. contradiction.
Qed.

Ltac fileName := first [apply isFileName_stamped; reflexivity | reflexivity].

Lemma inDirectory_path_join (dir name : jsstring) :
  isNormalDir dir = true -> isFileName name = true ->
  inDirectory dir (path_join dir name).
Proof.
  intros Hdir Hname. unfold inDirectory.
  rewrite (path_join_normalDir dir name Hdir Hname).
  apply startsWith_iff. exists name. rewrite <- app_assoc. reflexivity.
Qed.

Lemma touching_downloadFromDeezer (allowed : jsstring -> Prop) (w : World)
    (query binaryPath tmpDir : jsstring) :
  (forall t, allowed (path_join tmpDir
                  (js "deezer_cookies_" ++ js (pretty (Date_now w t)) ++ js ".txt"))) ->
  steps (touching allowed) (downloadFromDeezer w query binaryPath tmpDir).
Proof.
  intros Hcookie st. unfold downloadFromDeezer, createDeezerCookieFile.
  destruct (negb (Str.truthy (DEEZER_ARL w))); [apply footprint_refl|].
  unfold_monad.
  destruct (deezer_search w (clock st) query) as [[|track tracks]|e];
    try (intros path; left; reflexivity).
  cbn [files setFiles recordCall tick clock calls].
  rewrite bool_decide_eq_true_2 by (rewrite lookup_insert_eq; eauto).
  assert (Hdone : forall content other,
             delete (path_join tmpDir
                       (js "deezer_cookies_" ++
                        js (pretty (Date_now w (S (clock st)))) ++ js ".txt"))
               (<[path_join tmpDir
                    (js "deezer_cookies_" ++
                     js (pretty (Date_now w (S (clock st)))) ++ js ".txt")
                  := content]> (files st)) !! other = files st !! other \/
             allowed other).
  { intros content other.
    destruct (decide (path_join tmpDir
                        (js "deezer_cookies_" ++
                         js (pretty (Date_now w (S (clock st)))) ++ js ".txt")
                      = other)) as [<-|Hne];
      [right; apply Hcookie|].
    left. rewrite lookup_delete_ne, lookup_insert_ne by exact Hne.
    reflexivity. }
  match goal with
  | |- context [ex_error ?r] => destruct (ex_error r)
  end;
    [|match goal with
      | |- context [JSON_parse w ?o] => destruct (JSON_parse w o)
      end];
    intros other; cbn [snd files setFiles recordCall tick]; apply Hdone.
Qed.

(** X25: a run keeps to the temporary directory.  With [os.tmpdir()] in
    normal form, without a separator at its end and other than [.], every
    file that a run creates, overwrites or removes has a path that starts
    with [os.tmpdir()] and a separator, whatever happens: any other path
    holds at the end what it held at the start. *)
Theorem handleSearchMode_keeps_to_tmpdir (w : World) (msg : Message)
    (st : State) (path : jsstring) :
  isNormalDir (tmpdir w) = true ->
  files (snd (handleSearchMode w msg st)) !! path = files st !! path \/
  Str.startsWith path (tmpdir w ++ js "/") = true.
Proof.
  intros Hnormal. revert st path.
  change (steps (touching (inDirectory (tmpdir w))) (handleSearchMode w msg)).
  unfold handleSearchMode, pipeline, onError, analyzeInput, readLinkTitle,
    ensureYtDlp, resolveAudio, searchTiers, deezerTier, soundcloudTier,
    youtubeTier, archiveTier, chooseVideo, findCover, deliver, mergeStep,
    getMetadata, searchArchiveOrg, getMetadataFromTool,
    proxyArgs, getSpotifyCover, getSpotifyToken,
    requestSpotifyToken, getDeezerCover, downloadFile, sendMessage, lockFileOf.
  repeat first
    [ apply touching_downloadFromDeezer; intros t;
      apply inDirectory_path_join; [exact Hnormal|fileName]
    | footprint_step ];
    first [apply touching_mayWrite | apply touching_mayRemove];
    (apply inDirectory_path_join; [exact Hnormal|fileName]).
Qed.

Lemma handleSearchMode_keeps_to_tmpdir_witness :
  files (snd (handleSearchMode Example.plain (Example.message (js "Hello World"))
                Example.fresh)) !! js "/tmp/yt-dlp_linux_new" =
    files Example.fresh !! js "/tmp/yt-dlp_linux_new" \/
  Str.startsWith (js "/tmp/yt-dlp_linux_new") (tmpdir Example.plain ++ js "/") = true.
Proof.
  apply (handleSearchMode_keeps_to_tmpdir Example.plain
           (Example.message (js "Hello World")) Example.fresh
           (js "/tmp/yt-dlp_linux_new")).
  reflexivity.
Defined.

(** ** What a successful run leaves behind *)

#[global] Instance shrinking_footprint (keep : jsstring) :
  Footprint (shrinking keep).
Proof.
  split.
  - intros st path content H. right. exact H.
  - intros st1 st2 st3 H1 H2 path content H.
    destruct (H2 path content H) as [E|H']; [left; exact E|].
    apply H1, H'.
  - intros st st' E path content H. right. rewrite <- E. exact H.
Qed.

Lemma shrinking_mayWrite (keep : jsstring) : mayWrite (shrinking keep) keep.
Proof.
  intros st c path content. cbn [setFiles files].
  destruct (decide (keep = path)) as [<-|Hne]; [left; reflexivity|].
  rewrite lookup_insert_ne by exact Hne. right. assumption.
Qed.

Lemma shrinking_mayRemove (keep path : jsstring) : mayRemove (shrinking keep) path.
Proof.
  intros st other content. cbn [setFiles files].
  intros H. apply lookup_delete_Some in H as [_ H]. right. exact H.
Qed.

Lemma shrinking_subseteq (keep : jsstring) (st st' : State) :
  files st' ⊆ files st -> shrinking keep st st'.
Proof.
  intros H path content Hpath. right. eapply lookup_weaken; eassumption.
Qed.

Section Prefix.

Variable w : World.
Variable chatId : Z.
Variable tmpDir lockFile : jsstring.

(** Step 1 and step 2 write the binary of the tool and nothing else that
    stays. *)
Lemma shrinking_resolve (s : jsstring) :
  steps (shrinking (path_join tmpDir YTDLP_FILENAME))
    (resolveAll w chatId tmpDir lockFile s).
Proof.
  unfold resolveAll, analyzeInput, readLinkTitle,
    ensureYtDlp, resolveAudio, searchTiers, deezerTier, soundcloudTier,
    youtubeTier, archiveTier, chooseVideo, findCover,
    getMetadata, searchArchiveOrg, getMetadataFromTool,
    proxyArgs, getSpotifyCover, getSpotifyToken,
    requestSpotifyToken, getDeezerCover, downloadFile, sendMessage.
  repeat first
    [ apply shrinking_mayRemove
    | apply shrinking_mayWrite
    | lazymatch goal with
      | |- steps _ (downloadFromDeezer _ _ _ _) =>
          intros st; apply shrinking_subseteq, downloadFromDeezer_files
      end
    | footprint_step ].
Qed.

End Prefix.

Lemma normally_bind {A B : Type} (R1 R2 R3 : State -> State -> Prop)
    (m : M A) (f : A -> M B) :
  (forall st1 st2 st3, R1 st1 st2 -> R2 st2 st3 -> R3 st1 st3) ->
  steps R1 m -> (forall a, normally R2 (f a)) -> normally R3 (bind m f).
Proof.
  intros Hcompose Hm Hf st b st' Hrun.
  apply bind_Normal_inv in Hrun as (a & st1 & Hrun1 & Hrun2).
  pose proof (Hm st) as H1. rewrite Hrun1 in H1.
  eapply Hcompose; [exact H1|eapply Hf, Hrun2].
Qed.

Lemma normally_throw {A : Type} (R : State -> State -> Prop) (e : jsstring) :
  normally R (@throw A e).
Proof. intros st a st' H. discriminate. Qed.

Section Deliver.

Variables imagePath audioPath outputPath lockFile : jsstring.

Lemma cleared_compose (st1 st2 st3 : State) :
  touching (temporary imagePath audioPath outputPath) st1 st2 ->
  cleared (temporary imagePath audioPath outputPath) st2 st3 ->
  cleared (temporary imagePath audioPath outputPath) st1 st3.
Proof.
  intros H1 H2 path content H. destruct (H2 path content H) as [H3 Hout].
  split; [|exact Hout].
  destruct (H1 path) as [E|Hin]; [congruence|contradiction].
Qed.

(** 7. Cleanup *)
Lemma cleared_cleanup :
  normally (cleared (temporary imagePath audioPath outputPath))
    (unlinkIfExists imagePath;;; unlinkIfExists audioPath;;;
     unlinkIfExists outputPath;;; unlinkIfExists lockFile).
Proof.
  intros st a st' Hrun. revert Hrun.
  rewrite (bind_Normal _ _ _ _ _ (unlinkIfExists_state imagePath st)).
  rewrite (bind_Normal _ _ _ _ _ (unlinkIfExists_state audioPath _)).
  rewrite (bind_Normal _ _ _ _ _ (unlinkIfExists_state outputPath _)).
  rewrite unlinkIfExists_state. intros Hrun. injection Hrun as _ <-.
  intros path content. cbn [files setFiles].
  intros Hfile.
  apply lookup_delete_Some in Hfile as [_ Hfile].
  apply lookup_delete_Some in Hfile as [Hout Hfile].
  apply lookup_delete_Some in Hfile as [Haudio Hfile].
  apply lookup_delete_Some in Hfile as [Himage Hfile].
  split; [exact Hfile|]. intros [E|[E|E]]; congruence.
Qed.

End Deliver.

(** A step that only touches the temporary files, then the rest. *)
Ltac cleanup_step :=
  eapply normally_bind;
    [apply cleared_compose
    |unfold mergeStep, proxyArgs, downloadFile, sendMessage;
     repeat footprint_step;
     first [apply touching_mayWrite | apply touching_mayRemove];
     unfold temporary; auto
    |intros ?].

(** When steps 3 to 7 complete, no file is left that was not there
    before. *)
Lemma deliver_files (w : World) (chatId : Z) (tmpDir lockFile : jsstring)
    (binaryPath : jsstring) (videoUrl videoTitle : option jsstring)
    (coverUrl : jsstring) (st st' : State) :
  deliver w chatId tmpDir lockFile binaryPath videoUrl videoTitle coverUrl st
    = (Normal tt, st') ->
  files st' ⊆ files st.
Proof.
  unfold deliver. intros Hrun.
  apply bind_Normal_inv in Hrun as (mid & st1 & Hrun1 & Hrun).
  apply bind_Normal_inv in Hrun as (t1 & st2 & Hrun2 & Hrun).
  apply bind_Normal_inv in Hrun as (t2 & st3 & Hrun3 & Hrun).
  apply bind_Normal_inv in Hrun as (t3 & st4 & Hrun4 & Hrun).
  assert (Hsame : files st4 = files st).
  { rewrite sendMessage_run in Hrun1.
    destruct (bot_sendMessage w (clock st) chatId _); [|discriminate].
    injection Hrun1 as _ <-. injection Hrun2 as _ <-.
    injection Hrun3 as _ <-. injection Hrun4 as _ <-. reflexivity. }
  cbv zeta in Hrun.
  set (audioPath := path_join tmpDir (js "audio_" ++ js (pretty t1) ++ js ".mp3")) in Hrun.
  set (imagePath := path_join tmpDir (js "cover_" ++ js (pretty t2) ++ js ".jpg")) in Hrun.
  set (outputPath := path_join tmpDir (js "output_" ++ js (pretty t3) ++ js ".mp4")) in Hrun.
  assert (Hclear : cleared (temporary imagePath audioPath outputPath) st4 st').
  { revert Hrun.
    match goal with
    | |- ?m st4 = _ -> _ =>
        assert (Hm : normally (cleared (temporary imagePath audioPath outputPath)) m);
        [|apply Hm]
    end.
    do 2 cleanup_step.
    destruct videoUrl as [v|]; [|apply normally_throw].
    do 6 cleanup_step.
    destruct (negb _); [apply normally_throw|].
    destruct (negb _); [apply normally_throw|].
    do 5 cleanup_step.
    apply cleared_cleanup. }
  rewrite <- Hsame.
  apply map_subseteq_spec. intros path content H. apply Hclear, H.
Qed.

(** *** A run that returns early has just sent a message *)

Section ExitsOnMessage.

Variable w : World.
Variable chatId : Z.
Variable tmpDir lockFile : jsstring.

Hint Resolve neverExits_sendMessage neverExits_downloadFile
  neverExits_ensureYtDlp neverExits_proxyArgs neverExits_getMetadata
  neverExits_downloadFromDeezer neverExits_findCover neverExits_mergeStep
  neverExits_readLinkTitle neverExits_ret neverExits_throw neverExits_call
  neverExits_ask neverExits_await neverExits_existsSync
  neverExits_existsNonEmpty neverExits_writeFileSync neverExits_unlinkSync
  neverExits_unlinkIfExists neverExits_readTokenCache
  neverExits_writeTokenCache : noexit.

Lemma exitsOnMessage_of_neverExits {A : Type} (m : M A) :
  neverExits m -> exitsOnMessage m.
Proof. intros H st Hexit. destruct (H st Hexit). Qed.

Lemma exitsOnMessage_bind {A B : Type} (m : M A) (f : A -> M B) :
  exitsOnMessage m -> (forall a, exitsOnMessage (f a)) ->
  exitsOnMessage (bind m f).
Proof.
  intros Hm Hf st. unfold bind. pose proof (Hm st) as H1.
  destruct (m st) as [[a| |e] st1]; cbn [fst snd] in *;
    [apply Hf|intros _; apply H1; reflexivity|discriminate].
Qed.

Lemma exitsOnMessage_tryCatch {A : Type} (m : M A) (h : jsstring -> M A) :
  exitsOnMessage m -> (forall e, exitsOnMessage (h e)) ->
  exitsOnMessage (tryCatch m h).
Proof.
  intros Hm Hh st. unfold tryCatch. pose proof (Hm st) as H1.
  destruct (m st) as [[a| |e] st1]; cbn [fst snd] in *;
    [discriminate|intros _; apply H1; reflexivity|apply Hh].
Qed.

(** A message, [if (fs.existsSync(lockFile)) fs.unlinkSync(lockFile);
    return;] *)
Lemma exitsOnMessage_reject {A : Type} (reply : Reply) :
  exitsOnMessage
    (sendMessage w chatId reply;;; unlinkIfExists lockFile;;; @exit A).
Proof.
  intros st.
  pose proof (sendMessage_run w chatId reply st) as Hsend.
  destruct (bot_sendMessage w (clock st) chatId reply) as [mid|e].
  - rewrite (bind_Normal _ _ _ _ _ Hsend).
    rewrite (bind_Normal _ _ _ _ _ (unlinkIfExists_state lockFile _)).
    intros _. exists (calls st), chatId, reply. reflexivity.
  - rewrite (bind_Thrown _ _ _ _ _ Hsend). discriminate.
Qed.

Lemma exitsOnMessage_analyzeInput (s : jsstring) :
  exitsOnMessage (analyzeInput w chatId lockFile s).
Proof.
  unfold analyzeInput.
  destruct (test urlRegex s && negb (test dspRegex s));
    [apply exitsOnMessage_reject|].
  destruct (test dspRegex s).
  - destruct (Str.includes s (js "/album/") || Str.includes s (js "/playlist/"));
      [apply exitsOnMessage_reject|].
    apply exitsOnMessage_bind;
      [apply exitsOnMessage_of_neverExits, neverExits_sendMessage|intros _].
    apply exitsOnMessage_tryCatch;
      [apply exitsOnMessage_of_neverExits, neverExits_readLinkTitle|intros e].
    destruct (Str.includes s (js "amazon")); apply exitsOnMessage_reject.
  - apply exitsOnMessage_of_neverExits. noexit.
Qed.

Lemma exitsOnMessage_resolveAudio (input : Input) (binaryPath : jsstring) :
  exitsOnMessage (resolveAudio w chatId tmpDir lockFile input binaryPath).
Proof.
  unfold resolveAudio.
  destruct (Str.truthy (directUrl input));
    [apply exitsOnMessage_of_neverExits; noexit|].
  unfold searchTiers.
  apply exitsOnMessage_bind;
    [apply exitsOnMessage_of_neverExits; unfold deezerTier; noexit|intros m1].
  apply exitsOnMessage_bind;
    [apply exitsOnMessage_of_neverExits; unfold soundcloudTier; noexit|intros m2].
  apply exitsOnMessage_bind;
    [apply exitsOnMessage_of_neverExits; unfold youtubeTier; noexit|intros m3].
  apply exitsOnMessage_bind;
    [apply exitsOnMessage_of_neverExits; unfold archiveTier; noexit|intros m4].
  unfold chooseVideo. destruct m4 as [found|];
    [apply exitsOnMessage_of_neverExits; noexit|apply exitsOnMessage_reject].
Qed.

Lemma exitsOnMessage_pipeline (s : jsstring) :
  exitsOnMessage (pipeline w chatId tmpDir lockFile s).
Proof.
  unfold pipeline.
  apply exitsOnMessage_bind; [apply exitsOnMessage_analyzeInput|intros input].
  apply exitsOnMessage_bind;
    [apply exitsOnMessage_of_neverExits, neverExits_ensureYtDlp|intros binaryPath].
  apply exitsOnMessage_bind; [apply exitsOnMessage_resolveAudio|intros video].
  apply exitsOnMessage_bind;
    [apply exitsOnMessage_of_neverExits, neverExits_findCover|intros coverUrl].
  apply exitsOnMessage_of_neverExits. unfold deliver. noexit.
Qed.

(** The [catch] block, unless it throws, has just sent the error. *)
Lemma onError_lastIsMessage (e : jsstring) (st : State) :
  match fst (onError w chatId lockFile e st) with
  | Thrown _ => True
  | _ => lastIsMessage (snd (onError w chatId lockFile e st))
  end.
Proof.
  unfold onError.
  pose proof (sendMessage_run w chatId (ErrorReply e) st) as Hsend.
  destruct (bot_sendMessage w (clock st) chatId (ErrorReply e)) as [mid|e'].
  - rewrite (bind_Normal _ _ _ _ _ Hsend), unlinkIfExists_state.
    exists (calls st), chatId, (ErrorReply e). reflexivity.
  - rewrite (bind_Thrown _ _ _ _ _ Hsend). exact I.
Qed.

End ExitsOnMessage.

Lemma lastIsMessage_not_video (st : State) (before : list Call) (chatId : Z)
    (path : jsstring) (videoTitle : option jsstring) :
  lastIsMessage st ->
  calls st <> (before ++ [SendVideo chatId path videoTitle])%list.
Proof.
  intros (before' & chatId' & reply & E) H. rewrite E in H.
  apply app_inj_tail in H as [_ H]. discriminate.
Qed.

(** X26: a run that delivers cleans up after itself.  When a run ends with
    the upload of the video, every file that is left was there before the
    run, with the same content, but for the binary of the tool, which a run
    may have fetched: the run adds no cover, audio, video or cookie file,
    and the lock of the chat is gone. *)
Theorem delivery_leaves_no_file (w : World) (msg : Message) (st final : State)
    (before : list Call) (chatId : Z) (path : jsstring)
    (videoTitle : option jsstring) :
  handleSearchMode w msg st = (Normal tt, final) ->
  calls final = (calls st ++ before ++ [SendVideo chatId path videoTitle])%list ->
  shrinking (path_join (tmpdir w) YTDLP_FILENAME) st final /\
  files final !! lockFileOf w (chat_id msg) = None.
Proof.
  intros Hrun Hcalls.
  assert (Hnew : final <> st).
  { intros ->. rewrite <- (app_nil_r (calls st)) in Hcalls at 1.
    apply app_inv_head in Hcalls. destruct before; discriminate. }
  destruct (text msg) as [s|] eqn:Htext;
    [|unfold handleSearchMode in Hrun; rewrite Htext in Hrun;
      injection Hrun as <-; congruence].
  destruct s as [|c s];
    [unfold handleSearchMode in Hrun; rewrite Htext in Hrun;
     injection Hrun as <-; congruence|].
  destruct (files st !! lockFileOf w (chat_id msg)) as [content|] eqn:Hfree.
  { rewrite (handleSearchMode_locked w msg st) in Hrun by (rewrite Hfree; eauto).
    injection Hrun as <-. congruence. }
  rewrite (handleSearchMode_unlocked w msg st (c :: s) Htext ltac:(discriminate) Hfree)
    in Hrun.
  set (lockFile := lockFileOf w (chat_id msg)) in *.
  set (st0 := setFiles (<[lockFile := js "processing"]> (files st)) st) in *.
  assert (Hcalls0 : calls final =
                    ((calls st0 ++ before) ++ [SendVideo chatId path videoTitle])%list)
    by (rewrite Hcalls, <- app_assoc; reflexivity).
  unfold functionBody, tryCatch in Hrun.
  pose proof (exitsOnMessage_pipeline w (chat_id msg) (tmpdir w) lockFile (c :: s) st0)
    as Hexit.
  pose proof (endsUnlocked_pipeline w (chat_id msg) (tmpdir w) lockFile (c :: s) st0)
    as Hends.
  destruct (pipeline w (chat_id msg) (tmpdir w) lockFile (c :: s) st0)
    as [[[]| |e] st1] eqn:Hpipe; cbn [fst snd] in *.
  - injection Hrun as ->. split; [|exact Hends].
    rewrite pipeline_resolveAll in Hpipe.
    apply bind_Normal_inv in Hpipe as (r & st2 & Hresolve & Hdeliver).
    pose proof (shrinking_resolve w (chat_id msg) (tmpdir w) lockFile (c :: s) st0)
      as Hshrink.
    rewrite Hresolve in Hshrink. cbn [snd] in Hshrink.
    apply deliver_files in Hdeliver.
    intros other content Hother.
    destruct (Hshrink other content (lookup_weaken _ _ _ _ Hother Hdeliver))
      as [E|Hbefore]; [left; exact E|right].
    cbn [st0 files setFiles] in Hbefore.
    destruct (decide (lockFile = other)) as [<-|Hne];
      [unfold unlocked in Hends; congruence|].
    rewrite lookup_insert_ne in Hbefore by exact Hne. exact Hbefore.
  - injection Hrun as ->. exfalso.
    eapply lastIsMessage_not_video; [apply Hexit; reflexivity|exact Hcalls0].
  - exfalso.
    pose proof (onError_lastIsMessage w (chat_id msg) lockFile e st1) as Herror.
    destruct (onError w (chat_id msg) lockFile e st1) as [[[]| |e'] st2];
      cbn [fst snd] in *; [| |discriminate];
      injection Hrun as ->;
      (eapply lastIsMessage_not_video; [exact Herror|exact Hcalls0]).
Qed.

Lemma delivery_leaves_no_file_witness :
  shrinking (path_join (tmpdir Example.plain) YTDLP_FILENAME) Example.fresh
    (snd (handleSearchMode Example.plain (Example.message (js "Hello World"))
            Example.fresh)) /\
  files (snd (handleSearchMode Example.plain (Example.message (js "Hello World"))
                Example.fresh))
    !! lockFileOf Example.plain (chat_id (Example.message (js "Hello World")))
  = None.
Proof.
  apply (delivery_leaves_no_file Example.plain
           (Example.message (js "Hello World")) Example.fresh
           (snd (handleSearchMode Example.plain (Example.message (js "Hello World"))
                   Example.fresh))
           (removelast
              (calls (snd (handleSearchMode Example.plain
                             (Example.message (js "Hello World")) Example.fresh))))
           42 (js "/tmp/output_6000.mp4") (Some (js "scsearch1:Hello World"))).
  - vm_compute. reflexivity.
  - vm_compute. reflexivity.
Defined.

(** ** One lock per chat *)

Lemma js_inj (s t : string) : js s = js t -> s = t.
Proof.
  revert t. induction s as [|a s IH]; intros [|b t] H; try discriminate;
    [reflexivity|].
  cbn [js] in H. injection H as Hab Hst. f_equal; [|apply IH, Hst].
  rewrite <- (ascii_N_embedding a), <- (ascii_N_embedding b), Hab. reflexivity.
Qed.

(** Two chats have two lock files. *)
Lemma lockFileOf_inj (w : World) (a b : Z) :
  lockFileOf w a = lockFileOf w b -> a = b.
Proof.
  unfold lockFileOf. intros H.
  rewrite !path_join_fileName in H by fileName.
  do 2 apply app_inv_head in H. apply app_inv_tail in H.
  apply js_inj in H. apply (inj pretty) in H. exact H.
Qed.

Lemma path_join_neq (dir name name' : jsstring) :
  isFileName name = true -> isFileName name' = true ->
  name <> name' -> path_join dir name <> path_join dir name'.
Proof.
  intros Hname Hname' Hne H.
  rewrite (path_join_fileName dir name Hname) in H.
  rewrite (path_join_fileName dir name' Hname') in H.
  apply app_inv_head in H. contradiction.
Qed.

(** X27: a run leaves the locks of the other chats alone.  The lock of a chat
    is a file of its own, and whatever a run for one chat creates or
    removes, the lock file of another chat is at the end what it was at the
    start: there or not there. *)
Theorem handleSearchMode_leaves_other_locks (w : World) (msg : Message)
    (st : State) (other : Z) :
  chat_id msg <> other ->
  files (snd (handleSearchMode w msg st)) !! lockFileOf w other =
  files st !! lockFileOf w other.
Proof.
  intros Hother.
  assert (Hsteps : steps (touching (fun path => path <> lockFileOf w other))
                     (handleSearchMode w msg)).
  { assert (Hlock : lockFileOf w (chat_id msg) <> lockFileOf w other)
      by (intros H; apply Hother, (lockFileOf_inj w), H).
    assert (Hname : forall name,
               isFileName name = true ->
               hd_error name <> Some 108%N ->
               path_join (tmpdir w) name <> lockFileOf w other).
    { intros name Hfile Hhead. unfold lockFileOf.
      apply path_join_neq; [exact Hfile|fileName|].
      intros ->. apply Hhead. reflexivity. }
    unfold handleSearchMode, pipeline, onError, analyzeInput, readLinkTitle,
      ensureYtDlp, resolveAudio, searchTiers, deezerTier, soundcloudTier,
      youtubeTier, archiveTier, chooseVideo, findCover, deliver, mergeStep,
      getMetadata, searchArchiveOrg, getMetadataFromTool,
      proxyArgs, getSpotifyCover, getSpotifyToken,
      requestSpotifyToken, getDeezerCover, downloadFile, sendMessage.
    repeat first
      [ apply touching_downloadFromDeezer; intros t;
        apply Hname; [fileName|discriminate]
      | footprint_step ];
      first [apply touching_mayWrite | apply touching_mayRemove];
      first [exact Hlock | apply Hname; [fileName|discriminate]]. }
  destruct (Hsteps st (lockFileOf w other)) as [H|H]; [exact H|].
  contradiction.
Qed.

Lemma handleSearchMode_leaves_other_locks_witness :
  files (snd (handleSearchMode Example.plain (Example.message (js "Hello World"))
                Example.busy)) !! lockFileOf Example.plain 7 =
  files Example.busy !! lockFileOf Example.plain 7.
Proof.
  apply (handleSearchMode_leaves_other_locks Example.plain
           (Example.message (js "Hello World")) Example.busy 7).
  discriminate.
Defined.

(** ** Edge cases of the query *)

Lemma firstRelevantDoc_empty_query (docs : list ArchiveDoc) :
  firstRelevantDoc [] docs = None.
Proof.
  unfold firstRelevantDoc.
  induction docs as [|doc docs IH]; [reflexivity|].
  cbn [checkDocs].
  replace (isStrictMatchValue (doc_title doc) []) with (@Ok bool false); [exact IH|].
  unfold isStrictMatchValue. cbn [Str.isEmpty]. rewrite orb_true_r. reflexivity.
Qed.

(** X28: with an empty query the archive has nothing to offer.  Whatever
    documents the archive returns, none is relevant to the empty query:
    [getMetadata] returns [null] after the search and the tool is not
    run. *)
Theorem getMetadata_archive_empty_query (w : World) (binaryPath : jsstring)
    (st : State) :
  getMetadata w [] binaryPath (Some archive) st =
  (Normal None, recordCall (ArchiveSearch []) st).
Proof.
  unfold getMetadata, searchArchiveOrg.
  cbv beta iota delta [bind call ret fst snd].
  destruct (archive_search w (clock st) []) as [docs|e]; [|reflexivity].
  rewrite firstRelevantDoc_empty_query. reflexivity.
Qed.

Lemma collapseRuns_all (p : N -> bool) (rep s : jsstring) :
  forallb p s = true ->
  collapseRuns p rep true s = [] /\
  collapseRuns p rep false s = if Str.isEmpty s then [] else rep.
Proof.
  induction s as [|a s IH]; [split; reflexivity|].
  cbn [forallb collapseRuns Str.isEmpty]. intros H.
  apply andb_true_iff in H as [Ha Hs]. rewrite Ha.
  destruct (IH Hs) as [IH1 _]. rewrite IH1, app_nil_r. split; reflexivity.
Qed.

(** X29: a text of hyphens and white space asks for nothing.  [cleanQuery]
    makes the empty query of it. *)
Theorem cleanQuery_of_hyphens_and_spaces (text : jsstring) :
  forallb (fun c => (c =? 45)%N || Chars.isSpaceChar c) text = true ->
  cleanQuery text = [].
Proof.
  intros Hall. unfold cleanQuery. rewrite replaceAll_hyphen.
  set (spaced := flat_map _ text).
  assert (Hspaced : forallb Chars.isSpaceChar spaced = true).
  { subst spaced. apply forallb_forall. intros c Hc.
    apply in_flat_map in Hc as (d & Hd & Hc).
    rewrite forallb_forall in Hall. apply Hall in Hd.
    destruct (d =? 45)%N; [destruct Hc as [<-|[]]; reflexivity|].
    destruct Hc as [<-|[]]. exact Hd. }
  assert (Hfeat : forall word, replaceAll (featRegex word) [] spaced = spaced).
  { intros word. unfold replaceAll. apply replaceAllFrom_none.
    apply (execFrom_needs _ _ _ (needs_featRegex word)).
    apply forallb_forall. intros c Hc.
    rewrite forallb_forall in Hspaced. apply Hspaced in Hc.
    destruct (Str.among ")]" c) eqn:Hclose; [|reflexivity].
    unfold Str.among in Hclose. cbn [js existsb] in Hclose.
    apply orb_true_iff in Hclose as [E|Hclose];
      [apply N.eqb_eq in E; subst c; discriminate|].
    apply orb_true_iff in Hclose as [E|Hclose];
      [apply N.eqb_eq in E; subst c; discriminate|discriminate]. }
  rewrite !Hfeat, replaceAll_spaces.
  rewrite (proj2 (collapseRuns_all _ _ _ Hspaced)).
  destruct (Str.isEmpty spaced); reflexivity.
Qed.

Lemma cleanQuery_of_hyphens_and_spaces_witness : cleanQuery (js " - - ") = [].
Proof. apply (cleanQuery_of_hyphens_and_spaces (js " - - ")). reflexivity. Defined.

(** *** The names of the cover search *)

Lemma splitFrom_no_match (r : regex) (fuel : nat) :
  forall (p q : nat) (piece s : jsstring),
    (forall pos t, matchAt r pos t = None \/ exists a, In a t /\ Chars.isSpaceChar a = true) ->
    forallb (fun c => negb (Chars.isSpaceChar c)) s = true ->
    splitFrom fuel r p q piece s = [(rev piece ++ s)%list].
Proof.
  induction fuel as [|fuel IH]; intros p q piece s Hr Hs; [reflexivity|].
  cbn [splitFrom]. destruct s as [|a s]; [rewrite app_nil_r; reflexivity|].
  assert (Hnone : matchAt r q (a :: s) = None).
  { destruct (Hr q (a :: s)) as [H|(b & Hb & Hspace)]; [exact H|].
    rewrite forallb_forall in Hs. apply Hs in Hb. rewrite Hspace in Hb.
    discriminate. }
  rewrite Hnone. cbn [forallb] in Hs. apply andb_true_iff in Hs as [_ Hs].
  rewrite (IH _ _ _ _ Hr Hs). cbn [rev]. rewrite <- app_assoc. reflexivity.
Qed.

Lemma coverSplitRegex_needs_space (pos : nat) (t : jsstring) :
  matchAt coverSplitRegex pos t = None \/
  exists a, In a t /\ Chars.isSpaceChar a = true.
Proof.
  destruct (matchAt coverSplitRegex pos t) as [m|] eqn:Hm; [right|left; reflexivity].
  unfold matchAt, coverSplitRegex in Hm. cbn [seqs] in Hm. unfold plus at 1 in Hm.
  rewrite !run_Seq, run_Class in Hm.
  destruct t as [|a t]; [discriminate|].
  destruct (Chars.isSpaceChar a) eqn:Ha; [|discriminate].
  exists a. split; [left; reflexivity|exact Ha].
Qed.

Lemma trim_no_space (s : jsstring) :
  forallb (fun c => negb (Chars.isSpaceChar c)) s = true -> Str.trim s = s.
Proof.
  intros Hs. unfold Str.trim.
  assert (Hdrop : forall t, forallb (fun c => negb (Chars.isSpaceChar c)) t = true ->
                            Str.dropWhile Chars.isSpaceChar t = t).
  { intros [|c t] H; [reflexivity|]. cbn [forallb] in H.
    apply andb_true_iff in H as [H _]. apply negb_true_iff in H.
    cbn [Str.dropWhile]. rewrite H. reflexivity. }
  rewrite (Hdrop s Hs), Hdrop, rev_involutive; [reflexivity|].
  apply forallb_forall. intros c Hc. apply in_rev in Hc.
  rewrite forallb_forall in Hs. apply Hs, Hc.
Qed.

(** X30: a query in one word names a track and no artist.  The cover search
    splits the query at a separator between white space; a query without
    white space is taken whole for the track name, and Spotify is asked for
    it without an artist. *)
Theorem splitQuery_one_word (query : jsstring) :
  query <> [] ->
  forallb (fun c => negb (Chars.isSpaceChar c)) query = true ->
  splitQuery query = (Some query, None).
Proof.
  intros Hne Hword. unfold splitQuery.
  destruct query as [|c query]; [congruence|].
  cbn [Str.isEmpty]. unfold split.
  rewrite splitFrom_no_match
    by (exact coverSplitRegex_needs_space || exact Hword).
  cbn [rev app]. rewrite trim_no_space by exact Hword. reflexivity.
Qed.

Lemma splitQuery_one_word_witness :
  splitQuery (js "Yesterday") = (Some (js "Yesterday"), None).
Proof.
  apply (splitQuery_one_word (js "Yesterday")); [discriminate|reflexivity].
Defined.
